(** * SumpAlarm: the switch monitoring and anomaly-detection engine

    A shallow embedding of [src/SumpAlarm.cpp] and the properties of its
    polling loop: debounced switch transitions, the running activation
    frequency, the values published to action scripts, the rate-change and
    overdue detectors, and the runtime configuration reload.

    Conventions of the embedding.
    - [int] is a 32-bit two's complement integer, carried as a [Z] with the
      wrap-around written at every operation that can leave the range.
    - [time_t] is carried as an unbounded [Z]: clock readings and their
      differences are far inside the range of the type.
    - Arithmetic that C leaves undefined (an [int] that overflows, a double
      that does not fit the [int] it is assigned to, the division of the
      least [int] by -1) has the wrapped value here. The program may do
      anything there, and the processor may stop it at the division, so a
      pass that the embedding completes need not complete in the program
      once such an operation is met. [SetEnvironment_defined] delimits
      that arithmetic.
    - [double] is IEEE 754 binary64, carried by the primitive [float].
    - A [char *] that may be [NULL] is an [option string].
    - The process environment is a finite map from names to values.
    - [Action] forks and hands the command to the shell; the embedding
      records the command together with the environment the child inherits.
      [fork] is taken to succeed.
    - [WriteLog] only appends to the log sink and is left out.
    - The text of the configuration file is taken after tokenizing: each line
      is the directive that the chain of [sa_strcmp] tests selects, with the
      operands that [atoi] and the pointer offsets deliver. *)

From Stdlib Require Import ZArith Lia List String Ascii Bool.
From Stdlib Require Import Floats.PrimFloat Floats.FloatOps Floats.SpecFloat.
From Stdlib Require Import Numbers.Cyclic.Int63.Uint63.
From stdpp Require Import base list gmap strings pretty.

Set Warnings "-inexact-float".

Local Open Scope string_scope.
Local Open Scope list_scope.
Local Open Scope Z_scope.

(** ** Machine integers *)

Module Int.

Definition min_int : Z := - 2 ^ 31.
Definition max_int : Z := 2 ^ 31 - 1.

(** The value a 32-bit register holds after an operation whose exact result
    is [z]. *)
Definition wrap (z : Z) : Z := (z + 2 ^ 31) mod 2 ^ 32 - 2 ^ 31.

Definition in_range (z : Z) : Prop := min_int <= z <= max_int.

Definition add (a b : Z) : Z := wrap (a + b).
Definition sub (a b : Z) : Z := wrap (a - b).
Definition mul (a b : Z) : Z := wrap (a * b).
(** C division truncates toward zero. The quotient leaves the range only
    for [min_int / -1]; C leaves that division undefined, and so the one by
    0 (the processor may stop the program there). The embedding gives them
    the wrapped quotient, and [div_defined] tells the other divisions
    apart. *)
Definition div (a b : Z) : Z := wrap (a ÷ b).
Definition rem (a b : Z) : Z := Z.rem a b.

Definition div_defined (a b : Z) : Prop := b <> 0 /\ ~ (a = min_int /\ b = -1).

End Int.

(** ** Doubles *)

Module Double.

(** [(double)z] for an [int] [z]; exact, since 32 bits fit the mantissa. *)
Definition of_int (z : Z) : float :=
  if z <? 0 then PrimFloat.opp (PrimFloat.of_uint63 (Uint63.of_Z (- z)))
  else PrimFloat.of_uint63 (Uint63.of_Z z).

(** The integer part of a double, rounded toward zero. *)
Definition trunc (f : float) : Z :=
  match Prim2SF f with
  | S754_finite s m e =>
      let v := if 0 <=? e then Z.pos m * 2 ^ e else Z.pos m / 2 ^ (- e) in
      if s then - v else v
  | _ => 0
  end.

(** The assignment of [f] to an [int] is defined in C: [f] is finite and
    its integer part fits the type. *)
Definition fits (f : float) : Prop :=
  match Prim2SF f with
  | S754_zero _ => True
  | S754_finite _ _ _ => Int.in_range (trunc f)
  | _ => False
  end.

(** Assignment of a double to an [int]: the fraction is dropped. Where
    [fits] fails C leaves the result open; the embedding then wraps the
    integer part, and gives 0 for infinities and NaN. The geometry of a
    configuration file can reach that case (a diameter of 2000000 does),
    so what is stated of a converted value is stated under [fits]. *)
Definition to_int (f : float) : Z := Int.wrap (trunc f).

End Double.

(** ** Result of code that may terminate the process *)

Inductive result (A : Type) : Type :=
| Ret (a : A)
| Exit (code : Z).

Arguments Ret {A} a.
Arguments Exit {A} code.

Definition bind {A B : Type} (r : result A) (k : A -> result B) : result B :=
  match r with
  | Ret a => k a
  | Exit c => Exit c
  end.

Notation "x <- r ;; k" := (bind r (fun x => k))
  (at level 100, r at next level, right associativity).

(** ** Data model *)

Definition time_t : Type := Z.

Definition FREQ_HISTORY : nat := 4.
Definition BOUNCEDELAY : Z := 5.
Definition HIGH : Z := 1.
Definition LOW : Z := 0.

(** [struct FloatSwitch] *)
Module FloatSwitch.

Record t : Type := mk {
  initialized : Z;            (* 1 = true *)
  level : Z;
  pin : Z;                    (* GPIO pin of the switch *)
  OnAction : option string;
  OffAction : option string;
  freq : list Z;              (* int freq[FREQ_HISTORY] *)
  lastfreq : Z;               (* the last frequency that was reported *)
  state : Z;                  (* 1 on, 0 off *)
  LastOn : time_t;
  LastOff : time_t;
  bouncedelay : Z
}.

Definition set_initialized v s :=
  mk v (level s) (pin s) (OnAction s) (OffAction s) (freq s) (lastfreq s)
     (state s) (LastOn s) (LastOff s) (bouncedelay s).
Definition set_level v s :=
  mk (initialized s) v (pin s) (OnAction s) (OffAction s) (freq s) (lastfreq s)
     (state s) (LastOn s) (LastOff s) (bouncedelay s).
Definition set_pin v s :=
  mk (initialized s) (level s) v (OnAction s) (OffAction s) (freq s) (lastfreq s)
     (state s) (LastOn s) (LastOff s) (bouncedelay s).
Definition set_OnAction v s :=
  mk (initialized s) (level s) (pin s) v (OffAction s) (freq s) (lastfreq s)
     (state s) (LastOn s) (LastOff s) (bouncedelay s).
Definition set_OffAction v s :=
  mk (initialized s) (level s) (pin s) (OnAction s) v (freq s) (lastfreq s)
     (state s) (LastOn s) (LastOff s) (bouncedelay s).
Definition set_freq v s :=
  mk (initialized s) (level s) (pin s) (OnAction s) (OffAction s) v (lastfreq s)
     (state s) (LastOn s) (LastOff s) (bouncedelay s).
Definition set_lastfreq v s :=
  mk (initialized s) (level s) (pin s) (OnAction s) (OffAction s) (freq s) v
     (state s) (LastOn s) (LastOff s) (bouncedelay s).
Definition set_state v s :=
  mk (initialized s) (level s) (pin s) (OnAction s) (OffAction s) (freq s) (lastfreq s)
     v (LastOn s) (LastOff s) (bouncedelay s).
Definition set_LastOn v s :=
  mk (initialized s) (level s) (pin s) (OnAction s) (OffAction s) (freq s) (lastfreq s)
     (state s) v (LastOff s) (bouncedelay s).
Definition set_LastOff v s :=
  mk (initialized s) (level s) (pin s) (OnAction s) (OffAction s) (freq s) (lastfreq s)
     (state s) (LastOn s) v (bouncedelay s).
Definition set_bouncedelay v s :=
  mk (initialized s) (level s) (pin s) (OnAction s) (OffAction s) (freq s) (lastfreq s)
     (state s) (LastOn s) (LastOff s) v.

(** The record [main] writes into every slot before the configuration is
    read. *)
Definition fresh : t :=
  mk 0 0 0 None None (replicate FREQ_HISTORY 0) 0 0 0 0 BOUNCEDELAY.

End FloatSwitch.

#[export] Instance FloatSwitch_inhabited : Inhabited FloatSwitch.t :=
  populate FloatSwitch.fresh.

(** [struct ConfigData] *)
Module ConfigData.

Record t : Type := mk {
  sumpdepth : Z;
  sumpdiameter : Z;
  lowwater : Z;
  highwater : Z;
  capacity : Z;
  vol : Z;
  rate : Z;
  freq : Z;
  ratechangeamt : Z;
  ratechange : option string;
  switchlist : list FloatSwitch.t;     (* struct FloatSwitch switchlist[100] *)
  overduethreshold : Z;
  overdue : option string
}.

Definition set_sumpdepth v c :=
  mk v (sumpdiameter c) (lowwater c) (highwater c) (capacity c) (vol c) (rate c)
     (freq c) (ratechangeamt c) (ratechange c) (switchlist c)
     (overduethreshold c) (overdue c).
Definition set_sumpdiameter v c :=
  mk (sumpdepth c) v (lowwater c) (highwater c) (capacity c) (vol c) (rate c)
     (freq c) (ratechangeamt c) (ratechange c) (switchlist c)
     (overduethreshold c) (overdue c).
Definition set_lowwater v c :=
  mk (sumpdepth c) (sumpdiameter c) v (highwater c) (capacity c) (vol c) (rate c)
     (freq c) (ratechangeamt c) (ratechange c) (switchlist c)
     (overduethreshold c) (overdue c).
Definition set_highwater v c :=
  mk (sumpdepth c) (sumpdiameter c) (lowwater c) v (capacity c) (vol c) (rate c)
     (freq c) (ratechangeamt c) (ratechange c) (switchlist c)
     (overduethreshold c) (overdue c).
Definition set_capacity v c :=
  mk (sumpdepth c) (sumpdiameter c) (lowwater c) (highwater c) v (vol c) (rate c)
     (freq c) (ratechangeamt c) (ratechange c) (switchlist c)
     (overduethreshold c) (overdue c).
Definition set_freq v c :=
  mk (sumpdepth c) (sumpdiameter c) (lowwater c) (highwater c) (capacity c) (vol c)
     (rate c) v (ratechangeamt c) (ratechange c) (switchlist c)
     (overduethreshold c) (overdue c).
Definition set_ratechangeamt v c :=
  mk (sumpdepth c) (sumpdiameter c) (lowwater c) (highwater c) (capacity c) (vol c)
     (rate c) (freq c) v (ratechange c) (switchlist c)
     (overduethreshold c) (overdue c).
Definition set_ratechange v c :=
  mk (sumpdepth c) (sumpdiameter c) (lowwater c) (highwater c) (capacity c) (vol c)
     (rate c) (freq c) (ratechangeamt c) v (switchlist c)
     (overduethreshold c) (overdue c).
Definition set_switchlist v c :=
  mk (sumpdepth c) (sumpdiameter c) (lowwater c) (highwater c) (capacity c) (vol c)
     (rate c) (freq c) (ratechangeamt c) (ratechange c) v
     (overduethreshold c) (overdue c).
Definition set_overduethreshold v c :=
  mk (sumpdepth c) (sumpdiameter c) (lowwater c) (highwater c) (capacity c) (vol c)
     (rate c) (freq c) (ratechangeamt c) (ratechange c) (switchlist c)
     v (overdue c).
Definition set_overdue v c :=
  mk (sumpdepth c) (sumpdiameter c) (lowwater c) (highwater c) (capacity c) (vol c)
     (rate c) (freq c) (ratechangeamt c) (ratechange c) (switchlist c)
     (overduethreshold c) v.

(** [cd.switchlist[ID]] *)
Definition sw (ID : nat) (c : t) : FloatSwitch.t := switchlist c !!! ID.

(** [cd.switchlist[ID].field = ...] *)
Definition upd (ID : nat) (f : FloatSwitch.t -> FloatSwitch.t) (c : t) : t :=
  set_switchlist (<[ID := f (sw ID c)]> (switchlist c)) c.

End ConfigData.

(** The process environment. *)
Abbreviation Env := (gmap string string).

(** ** What the process does to the outside *)

(** The call of [Action] a command comes from. *)
Inductive Site : Type :=
| SiteOverdue
| SiteRateChange
| SiteSwitchOn (ID : nat)
| SiteSwitchOff (ID : nat).

Inductive Event : Type :=
| Exec (site : Site) (cmd : string) (e : Env)
    (* a forked child runs [system(cmd)] under environment [e] *)
| Ratio (num den : Z).
    (* the quotient [(double)num/(double)den] of the rate-change detector
       was evaluated; no effect outside, recorded for the proofs *)

(** [Action]: nothing for [NULL], otherwise fork and forget. *)
Definition Action (site : Site) (action : option string) (e : Env) : list Event :=
  match action with
  | None => []
  | Some a => [Exec site a e]
  end.

(** ** Frequency tracker *)

(** [GetFrequency]: one pass over the ring summing the entries and counting
    the empty ones, then the quotient by the number of entries in use. *)
Definition GetFrequency (s : FloatSwitch.t) : Z :=
  let '(f, z) :=
    fold_left
      (fun (acc : Z * Z) (i : nat) =>
         let '(f, z) := acc in
         let x := FloatSwitch.freq s !!! i in
         (Int.add f x, if x =? 0 then z + 1 else z))
      (seq 0 FREQ_HISTORY) (0, 0) in
  if negb (z =? Z.of_nat FREQ_HISTORY)
  then Int.div f (Z.of_nat FREQ_HISTORY - z)
  else f.

(** [for (i=0;i<FREQ_HISTORY-1;i++) freq[i]=freq[i+1];] *)
Definition shift_history (h : list Z) : list Z :=
  fold_left (fun (h : list Z) (i : nat) => <[i := h !!! S i]> h)
            (seq 0 (FREQ_HISTORY - 1)) h.

(** The writes to [cd.switchlist[ID]] of an accepted change to On. *)
Definition activate (t : time_t) (s : FloatSwitch.t) : FloatSwitch.t :=
  let s := FloatSwitch.set_state HIGH s in
  let s := FloatSwitch.set_freq (shift_history (FloatSwitch.freq s)) s in
  let s :=
    if negb (FloatSwitch.LastOn s =? 0)
    then FloatSwitch.set_freq
           (<[(FREQ_HISTORY - 1)%nat := Int.wrap (t - FloatSwitch.LastOn s)]>
              (FloatSwitch.freq s)) s
    else s in
  FloatSwitch.set_LastOn t s.

(** The writes to [cd.switchlist[ID]] of an accepted change to Off. *)
Definition deactivate (t : time_t) (raw : Z) (s : FloatSwitch.t) : FloatSwitch.t :=
  FloatSwitch.set_LastOff t (FloatSwitch.set_state raw s).

(** ** Metrics published to the action scripts *)

Definition PI : float := 3.14159265%float.

(** [(3.14159265*(cd.sumpdiameter/20.0)*(cd.sumpdiameter/20.0))] *)
Definition disc (c : ConfigData.t) : float :=
  (PI * (Double.of_int (ConfigData.sumpdiameter c) / 20)
      * (Double.of_int (ConfigData.sumpdiameter c) / 20))%float.

(** The value [SetEnvironment] assigns to its copy of [cd.vol]. *)
Definition env_vol (s : FloatSwitch.t) (c : ConfigData.t) : Z :=
  Double.to_int ((Double.of_int (FloatSwitch.level s) / 10 * disc c) / 1000)%float.

(** [(((cd.highwater-cd.lowwater)/10.0*(3.14159265*...))/1000.0)]: the
    litres between the low and the high water mark. *)
Definition cycle_litres (c : ConfigData.t) : float :=
  ((Double.of_int (Int.sub (ConfigData.highwater c) (ConfigData.lowwater c)) / 10
    * disc c) / 1000)%float.

(** The value [SetEnvironment] assigns to its copy of [cd.rate]. *)
Definition env_rate (c : ConfigData.t) : Z :=
  if negb (ConfigData.freq c =? 0)
  then Double.to_int
         (cycle_litres c * Double.of_int 3600 / Double.of_int (ConfigData.freq c))%float
  else 0.

(** The local [timeleft] of [SetEnvironment]. *)
Definition env_timeleft (s : FloatSwitch.t) (c : ConfigData.t) : Z :=
  if env_rate c =? 0 then 0
  else Int.div (Int.mul (Int.sub (ConfigData.capacity c) (env_vol s c)) 3600)
               (env_rate c).

(** [SetEnvironment]: both arguments are passed by value, so the only
    effect is on the process environment. *)
Definition SetEnvironment (s : FloatSwitch.t) (c : ConfigData.t) (e : Env) : Env :=
  let f := ConfigData.freq c in
  let e := <["SAFREQ" := pretty f]> e in
  let e := <["SAFREQF" := pretty (Int.div f 60) +:+ "m " +:+ pretty (Int.rem f 60) +:+ "s"]> e in
  let e := <["SAVOLUME" := pretty (env_vol s c)]> e in
  let e := <["SARATE" := pretty (env_rate c)]> e in
  let e := <["SATIMELEFT" := pretty (env_timeleft s c)]> e in
  <["SATIMELEFTM" := pretty (Int.div (env_timeleft s c) 60)]> e.

(** The arithmetic of [SetEnvironment] stays inside what C defines: the
    doubles assigned to an [int] fit it and no operation on [int]s
    overflows. Outside of that the program may publish anything, or be
    stopped by the processor at the division; the embedding goes on with
    the wrapped values. *)
Definition SetEnvironment_defined (s : FloatSwitch.t) (c : ConfigData.t) : Prop :=
  Double.fits ((Double.of_int (FloatSwitch.level s) / 10 * disc c) / 1000)%float /\
  (ConfigData.freq c <> 0 ->
     Int.in_range (ConfigData.highwater c - ConfigData.lowwater c) /\
     Double.fits
       (cycle_litres c * Double.of_int 3600 / Double.of_int (ConfigData.freq c))%float) /\
  (env_rate c <> 0 ->
     Int.in_range (ConfigData.capacity c - env_vol s c) /\
     Int.in_range ((ConfigData.capacity c - env_vol s c) * 3600) /\
     Int.div_defined ((ConfigData.capacity c - env_vol s c) * 3600) (env_rate c)).

(** ** State of the process *)

Record Sys : Type := mkSys {
  cd : ConfigData.t;
  overduenotice : bool;
  LastConfigCheck : time_t;
  hash : string;               (* static in [RefreshConfig] *)
  LogLevel : Z;
  LogFileName : string;
  env : Env
}.

Definition set_cd v st :=
  mkSys v (overduenotice st) (LastConfigCheck st) (hash st) (LogLevel st)
        (LogFileName st) (env st).
Definition set_overduenotice v st :=
  mkSys (cd st) v (LastConfigCheck st) (hash st) (LogLevel st)
        (LogFileName st) (env st).
Definition set_LastConfigCheck v st :=
  mkSys (cd st) (overduenotice st) v (hash st) (LogLevel st)
        (LogFileName st) (env st).
Definition set_hash v st :=
  mkSys (cd st) (overduenotice st) (LastConfigCheck st) v (LogLevel st)
        (LogFileName st) (env st).
Definition set_LogLevel v st :=
  mkSys (cd st) (overduenotice st) (LastConfigCheck st) (hash st) v
        (LogFileName st) (env st).
Definition set_LogFileName v st :=
  mkSys (cd st) (overduenotice st) (LastConfigCheck st) (hash st) (LogLevel st)
        v (env st).
Definition set_env v st :=
  mkSys (cd st) (overduenotice st) (LastConfigCheck st) (hash st) (LogLevel st)
        (LogFileName st) v.

(** [cd.switchlist[0]] of the running process. *)
Definition sw0 (st : Sys) : FloatSwitch.t := ConfigData.sw 0 (cd st).

Definition is_set (a : option string) : bool :=
  match a with Some _ => true | None => false end.

(** ** Rate-change detector *)

(** The number of empty slots the warm-up test counts. *)
Definition empty_slots (s : FloatSwitch.t) : Z :=
  fold_left (fun (z : Z) (i : nat) => if FloatSwitch.freq s !!! i =? 0 then z + 1 else z)
            (seq 0 FREQ_HISTORY) 0.

(** [rat>(1.0+(double)cd.ratechangeamt/100)||rat<(1.0-(double)cd.ratechangeamt/100)] *)
Definition outside_band (rat : float) (amt : Z) : bool :=
  PrimFloat.ltb (1 + Double.of_int amt / 100)%float rat
  || PrimFloat.ltb rat (1 - Double.of_int amt / 100)%float.

(** The statement [if (ID==0&&cd.freq!=0&&cd.ratechange!=NULL) ...] that
    closes the On branch. *)
Definition rate_change (ID : nat) (st : Sys) : Sys * list Event :=
  let c := cd st in
  if (ID =? 0)%nat && negb (ConfigData.freq c =? 0) && is_set (ConfigData.ratechange c)
  then
    if FloatSwitch.lastfreq (ConfigData.sw 0 c) =? 0
    then
      if empty_slots (ConfigData.sw 0 c) =? 0
      then (set_cd (ConfigData.upd 0 (FloatSwitch.set_lastfreq (ConfigData.freq c)) c) st,
            Action SiteRateChange (ConfigData.ratechange c) (env st))
      else (st, [])
    else
      let num := FloatSwitch.lastfreq (ConfigData.sw 0 c) in
      let den := ConfigData.freq c in
      let rat := (Double.of_int num / Double.of_int den)%float in
      if outside_band rat (ConfigData.ratechangeamt c)
      then (set_cd (ConfigData.upd ID (FloatSwitch.set_lastfreq (ConfigData.freq c)) c) st,
            Ratio num den :: Action SiteRateChange (ConfigData.ratechange c) (env st))
      else (st, [Ratio num den])
  else (st, []).

(** ** Debounce and edge detection *)

(** The On branch once the bounce delay has expired, up to and including
    the call of [SetEnvironment]. *)
Definition on_entry (ID : nat) (t : time_t) (st : Sys) : Sys :=
  let c := ConfigData.upd ID (activate t) (cd st) in
  let c := ConfigData.set_freq (GetFrequency (ConfigData.sw 0 c)) c in
  set_env (SetEnvironment (ConfigData.sw 0 c) c (env st)) (set_cd c st).

(** The On branch once the bounce delay has expired. *)
Definition switch_on (ID : nat) (t : time_t) (st : Sys) : Sys * list Event :=
  let st1 := on_entry ID t st in
  let ev := Action (SiteSwitchOn ID)
                   (FloatSwitch.OnAction (ConfigData.sw ID (cd st1))) (env st1) in
  let '(st', ev') := rate_change ID st1 in
  (st', ev ++ ev').

(** The Off branch once the bounce delay has expired. *)
Definition switch_off (ID : nat) (t : time_t) (raw : Z) (st : Sys) : Sys * list Event :=
  let st := if (ID =? 0)%nat then set_overduenotice false st else st in
  let c := ConfigData.upd ID (deactivate t raw) (cd st) in
  let e := SetEnvironment (ConfigData.sw 0 c) c (env st) in
  (set_env e (set_cd c st),
   Action (SiteSwitchOff ID) (FloatSwitch.OffAction (ConfigData.sw ID c)) e).

(** What [bcm2835_gpio_lev] returns for a pin that reads high or low. *)
Definition lev (b : bool) : Z := if b then HIGH else LOW.

(** One pass of the body of [for (ID=0;ID<100;ID++)]; [gpio] gives the level
    every pin reads at this pass. *)
Definition scan_switch (t : time_t) (gpio : Z -> bool) (ID : nat) (st : Sys)
  : Sys * list Event :=
  let s := ConfigData.sw ID (cd st) in
  if negb (FloatSwitch.initialized s =? 0)
  then
    let raw := lev (gpio (FloatSwitch.pin s)) in
    if negb (raw =? FloatSwitch.state s)
    then
      if raw =? HIGH
      then
        if t - FloatSwitch.LastOff s <? FloatSwitch.bouncedelay s
        then (st, [])
        else switch_on ID t st
      else
        if t - FloatSwitch.LastOff s <? FloatSwitch.bouncedelay s
        then (st, [])
        else switch_off ID t raw st
    else (st, [])
  else (st, []).

Definition scan_from (t : time_t) (gpio : Z -> bool) (IDs : list nat) (st : Sys)
  : Sys * list Event :=
  fold_left
    (fun (acc : Sys * list Event) (ID : nat) =>
       let '(st', ev) := scan_switch t gpio ID (fst acc) in
       (st', snd acc ++ ev))
    IDs (st, []).

Definition scan_switches (t : time_t) (gpio : Z -> bool) (st : Sys) : Sys * list Event :=
  scan_from t gpio (seq 0 100) st.

(** ** Overdue detector *)

(** The first statement of the loop body. *)
Definition overdue_check (t : time_t) (st : Sys) : Sys * list Event :=
  if (FloatSwitch.state (sw0 st) =? HIGH) && negb (overduenotice st)
  then
    let freqtemp := GetFrequency (sw0 st) in
    if (Int.add freqtemp (ConfigData.overduethreshold (cd st))
          <=? t - FloatSwitch.LastOff (sw0 st))
       && negb (freqtemp =? 0)
    then (set_overduenotice true st,
          Action SiteOverdue (ConfigData.overdue (cd st)) (env st))
    else (st, [])
  else (st, []).

(** ** Configuration reload *)

(** The parameter a [Switch<ID>...] line sets. [POn chk val] and
    [POff chk val] carry the two texts the code reads: [chk] at the fixed
    offset used by the emptiness and equality tests, and [val] at the offset
    that accounts for the digits of the ID, which is the text stored. *)
Inductive SwitchParam : Type :=
| PLevel (v : Z)
| PPin (v : Z)
| PBounce (v : Z)
| POn (chk val : string)
| POff (chk val : string)
| PNone.

(** One line of [/etc/sumpalarm.conf] as the chain of tests classifies it. *)
Inductive ConfLine : Type :=
| LSkip                                   (* blank, comment, or no test matches *)
| LLogLevel (v : Z)
| LLogFile (name : string)
| LSumpDepth (v : Z)
| LSumpDiameter (v : Z)
| LLowWater (v : Z)
| LHighWater (v : Z)
| LRateChangeAmt (v : Z)
| LOverdueThreshold (v : Z)
| LRateChange (cmd : string)
| LOverdue (cmd : string)
| LSwitch (c6 c7 : ascii) (p : SwitchParam).  (* [cline[6]], [cline[7]] *)

(** What one call of [RefreshConfig] meets: the answers of the file
    system, and the bytes its local buffer starts with. The buffer is not
    initialised, so [cline0] belongs to the call, not to the files: two
    calls that find the same files need not find the same [cline0]. *)
Record World : Type := mkWorld {
  configsum : option (option string);
    (* [fopen("./configsum","r")]: [None] when it fails; otherwise the line
       [fgets] reads, [None] when there is none *)
  cline0 : string;
    (* what the buffer [cline] holds at this call when [fgets] leaves it
       alone *)
  conffile : option (list ConfLine)
    (* [fopen(CONFIGFILE,"r")]: [None] when it fails *)
}.

(** [cline] after [fgets(cline,64,check); cline[64]=0;] *)
Definition read_sum (w : World) (rd : option string) : string :=
  match rd with
  | Some line => String.substring 0 63 line
  | None => String.substring 0 64 (cline0 w)
  end.

Definition is_digit (c : ascii) : bool :=
  (nat_of_ascii "0" <=? nat_of_ascii c)%nat && (nat_of_ascii c <=? nat_of_ascii "9")%nat.

(** The switch ID of a [Switch...] line; [None] for a non numeric ID. *)
Definition switch_id (c6 c7 : ascii) : option nat :=
  if is_digit c6
  then
    let ID := (nat_of_ascii c6 - nat_of_ascii "0")%nat in
    Some (if is_digit c7
          then (ID * 10 + (nat_of_ascii c7 - nat_of_ascii "0"))%nat
          else ID)
  else None.

(** The shared shape of the four places that install a command string:
    an empty text is ignored, a text equal to the one installed is kept,
    anything else replaces it. *)
Definition install (old : option string) (chk val : string) : option string :=
  if String.eqb chk "" then old
  else
    match old with
    | Some o => if String.eqb o chk then old else Some val
    | None => Some val
    end.

Definition on_cd (f : ConfigData.t -> ConfigData.t) (st : Sys) : Sys :=
  set_cd (f (cd st)) st.

(** The body of the [while (fgets(...))] loop for one line. *)
Definition apply_line (initial : bool) (l : ConfLine) (st : Sys) : result Sys :=
  match l with
  | LSkip => Ret st
  | LLogLevel v =>
      Ret (set_LogLevel (if (3 <? v) || (v <? 0) then 3 else v) st)
  | LLogFile name => Ret (set_LogFileName (String.substring 0 999 name) st)
  | LSumpDepth v =>
      if negb initial then Ret st else Ret (on_cd (ConfigData.set_sumpdepth v) st)
  | LSumpDiameter v =>
      if negb initial then Ret st else Ret (on_cd (ConfigData.set_sumpdiameter v) st)
  | LLowWater v =>
      if negb initial then Ret st else Ret (on_cd (ConfigData.set_lowwater v) st)
  | LHighWater v =>
      if negb initial then Ret st else Ret (on_cd (ConfigData.set_highwater v) st)
  | LRateChangeAmt v => Ret (on_cd (ConfigData.set_ratechangeamt v) st)
  | LOverdueThreshold v => Ret (on_cd (ConfigData.set_overduethreshold v) st)
  | LRateChange cmd =>
      Ret (on_cd (fun c => ConfigData.set_ratechange
                             (install (ConfigData.ratechange c) cmd cmd) c) st)
  | LOverdue cmd =>
      Ret (on_cd (fun c => ConfigData.set_overdue
                             (install (ConfigData.overdue c) cmd cmd) c) st)
  | LSwitch c6 c7 p =>
      match switch_id c6 c7 with
      | None => Ret st
      | Some ID =>
          match p with
          | PLevel v => Ret (on_cd (ConfigData.upd ID (FloatSwitch.set_level v)) st)
          | PPin v =>
              if negb initial then Ret st
              else if negb (v =? 0)
              then Ret (on_cd (ConfigData.upd ID
                                 (fun s => FloatSwitch.set_initialized 1
                                             (FloatSwitch.set_pin v s))) st)
              else Exit 1
          | PBounce v => Ret (on_cd (ConfigData.upd ID (FloatSwitch.set_bouncedelay v)) st)
          | POn chk val =>
              Ret (on_cd (ConfigData.upd ID
                            (fun s => FloatSwitch.set_OnAction
                                        (install (FloatSwitch.OnAction s) chk val) s)) st)
          | POff chk val =>
              Ret (on_cd (ConfigData.upd ID
                            (fun s => FloatSwitch.set_OffAction
                                        (install (FloatSwitch.OffAction s) chk val) s)) st)
          | PNone => Ret st
          end
      end
  end.

Fixpoint apply_lines (initial : bool) (ls : list ConfLine) (st : Sys) : result Sys :=
  match ls with
  | [] => Ret st
  | l :: ls' => st' <- apply_line initial l st ;; apply_lines initial ls' st'
  end.

(** The capacity in litres computed when the file has been read. *)
Definition capacity_of (c : ConfigData.t) : Z :=
  Double.to_int
    ((disc c * (Double.of_int (ConfigData.sumpdepth c) / 10)) / 1000)%float.

(** From [fopen(CONFIGFILE,"r")] to the end of [RefreshConfig]. *)
Definition load_config (w : World) (initial : bool) (st : Sys) : result Sys :=
  match conffile w with
  | None => if initial then Exit 1 else Ret st
  | Some ls =>
      st' <- apply_lines initial ls st ;;
      Ret (on_cd (fun c => ConfigData.set_capacity (capacity_of c) c) st')
  end.

(** [RefreshConfig] *)
Definition RefreshConfig (w : World) (initial : bool) (st : Sys) : result Sys :=
  if negb initial
  then
    match configsum w with
    | None => Ret st
    | Some rd =>
        let cline := read_sum w rd in
        if String.eqb (hash st) cline then Ret st   (* no change to config *)
        else load_config w initial (set_hash cline st)
    end
  else
    match configsum w with
    | None => Ret st
    | Some rd => load_config w initial (set_hash (read_sum w rd) st)
    end.

(** ** The polling loop *)

(** What one pass of the loop reads from outside: the clock, the pins, and
    the file system should the configuration be checked. *)
Record TickInput : Type := mkTick {
  now : time_t;
  gpio : Z -> bool;
  world : World
}.

(** The body of [while (!Terminated)]. *)
Definition tick (i : TickInput) (st : Sys) : result (Sys * list Event) :=
  let t := now i in
  let '(st1, ev1) := overdue_check t st in
  st2 <- (if 180 <? t - LastConfigCheck st1
          then RefreshConfig (world i) false (set_LastConfigCheck t st1)
          else Ret st1) ;;
  let '(st3, ev3) := scan_switches t (gpio i) st2 in
  Ret (st3, ev1 ++ ev3).

(** Successive passes of the loop. *)
Fixpoint run (ins : list TickInput) (st : Sys) : result (Sys * list Event) :=
  match ins with
  | [] => Ret (st, [])
  | i :: ins' =>
      r1 <- tick i st ;;
      r2 <- run ins' (fst r1) ;;
      Ret (fst r2, snd r1 ++ snd r2)
  end.

(** Switch 0 is On after every pass of the run: the run stays inside one
    On-episode. *)
Fixpoint stays_on (ins : list TickInput) (st : Sys) : Prop :=
  match ins with
  | [] => True
  | i :: ins' =>
      match tick i st with
      | Ret (st1, _) => FloatSwitch.state (sw0 st1) = HIGH /\ stays_on ins' st1
      | Exit _ => False
      end
  end.

(** The commands the overdue detector launched. *)
Definition overdue_execs (evs : list Event) : list Event :=
  List.filter (fun ev => match ev with Exec SiteOverdue _ _ => true | _ => false end) evs.

(** The commands the rate-change detector launched. *)
Definition rate_execs (evs : list Event) : list Event :=
  List.filter (fun ev => match ev with Exec SiteRateChange _ _ => true | _ => false end) evs.

(** The array of switches has its 100 slots and every ring its
    [FREQ_HISTORY] slots. *)
Definition wf_cd (c : ConfigData.t) : Prop :=
  length (ConfigData.switchlist c) = 100%nat /\
  Forall (fun s => length (FloatSwitch.freq s) = FREQ_HISTORY)
         (ConfigData.switchlist c).

Definition wf (st : Sys) : Prop := wf_cd (cd st).

(** ** Vocabulary of the statements *)

(** The slots of a ring that hold an interval. *)
Definition populated (h : list Z) : list Z :=
  List.filter (fun x => negb (x =? 0)) h.

Definition total (h : list Z) : Z := fold_right Z.add 0 h.

(** The integer average, rounded toward zero as C does. *)
Definition average (h : list Z) : Z := total h ÷ Z.of_nat (length h).

(** The condition of the overdue detector, over the integers. *)
Definition overdue_due (t : time_t) (st : Sys) : Prop :=
  GetFrequency (sw0 st) <> 0 /\
  GetFrequency (sw0 st) + ConfigData.overduethreshold (cd st)
    <= t - FloatSwitch.LastOff (sw0 st).

(** The fields of a switch that a reload at run time must not touch: the
    runtime fields and the pin binding. *)
Definition runtime_eq (s s' : FloatSwitch.t) : Prop :=
  FloatSwitch.state s' = FloatSwitch.state s /\
  FloatSwitch.LastOn s' = FloatSwitch.LastOn s /\
  FloatSwitch.LastOff s' = FloatSwitch.LastOff s /\
  FloatSwitch.freq s' = FloatSwitch.freq s /\
  FloatSwitch.lastfreq s' = FloatSwitch.lastfreq s /\
  FloatSwitch.pin s' = FloatSwitch.pin s /\
  FloatSwitch.initialized s' = FloatSwitch.initialized s.

(** The same for the whole of [cd]: every slot keeps those fields, the
    geometry and the values the loop computes are kept, and the capacity is
    the old one or the one the old geometry gives. *)
Definition frame (c c' : ConfigData.t) : Prop :=
  length (ConfigData.switchlist c') = length (ConfigData.switchlist c) /\
  (forall ID : nat, runtime_eq (ConfigData.sw ID c) (ConfigData.sw ID c')) /\
  ConfigData.sumpdepth c' = ConfigData.sumpdepth c /\
  ConfigData.sumpdiameter c' = ConfigData.sumpdiameter c /\
  ConfigData.lowwater c' = ConfigData.lowwater c /\
  ConfigData.highwater c' = ConfigData.highwater c /\
  ConfigData.freq c' = ConfigData.freq c /\
  ConfigData.vol c' = ConfigData.vol c /\
  ConfigData.rate c' = ConfigData.rate c /\
  (ConfigData.capacity c' = ConfigData.capacity c \/
   ConfigData.capacity c' = capacity_of c).

(** What a reload at run time keeps of the state of the process. *)
Definition reload_keeps (st st' : Sys) : Prop :=
  frame (cd st) (cd st') /\
  overduenotice st' = overduenotice st /\
  env st' = env st.

(** A launched command that does not come from the overdue detector. *)
Definition not_overdue (ev : Event) : Prop :=
  match ev with Exec SiteOverdue _ _ => False | _ => True end.

(** A quotient of the rate-change detector with a nonzero divisor. *)
Definition sound_ratio (ev : Event) : Prop :=
  match ev with Ratio _ d => d <> 0 | _ => True end.

(** ** A sample installation *)

(** The installation of the configuration example that heads the source:
    switch 0 between the low and the high water mark on pin 14, switch 1
    above the high water mark on pin 15, a pit 760 deep and 510 across.
    Switch 0 has seen four intervals of 100 seconds. *)
Definition pump : FloatSwitch.t :=
  FloatSwitch.mk 1 200 14 (Some "echo Switch0On") (Some "echo Switch0Off")
                 [100; 100; 100; 100] 0 LOW 1000 1050 5.

Definition alarm : FloatSwitch.t :=
  FloatSwitch.mk 1 300 15 (Some "mail failure") (Some "mail restored")
                 [0; 0; 0; 0] 0 LOW 0 0 5.

Definition slots (s0 s1 : FloatSwitch.t) : list FloatSwitch.t :=
  s0 :: s1 :: replicate 98 FloatSwitch.fresh.

Definition basement (s0 : FloatSwitch.t) : ConfigData.t :=
  ConfigData.mk 760 510 114 222 155 0 0 0 20 (Some "mail rate")
                (slots s0 alarm) 120 (Some "mail overdue").

Definition running (c : ConfigData.t) : Sys :=
  mkSys c false 1000 "" 3 "/var/log/sumpalarm.log" ∅.

(** The pins of [high] read high, the others low. *)
Definition reads (high : list Z) (p : Z) : bool := existsb (Z.eqb p) high.

(** A file system in which nothing can be opened. *)
Definition nofiles : World := mkWorld None "" None.

(** The process after its first load, the checksum of the file remembered. *)
Definition loaded : Sys := set_hash "5d41402abc4b2a76" (running (basement pump)).

(** The file has been edited (a new checksum, a new overdue threshold) and
    cannot be opened. *)
Definition locked : World := mkWorld (Some (Some "9f86d081884c7d65")) "" None.

(** The same file once it can be opened again. *)
Definition readable : World :=
  mkWorld (Some (Some "9f86d081884c7d65")) "" (Some [LOverdueThreshold 300]).

(** The file with only the bounce delay of switch 0 changed. *)
Definition rebounce : World :=
  mkWorld (Some (Some "2c26b46b68ffc68f")) "" (Some [LSwitch "0" "B" (PBounce 9)]).

(** The file with an overdue action added. *)
Definition overdue_added : World :=
  mkWorld (Some (Some "fcde2b2edba56bf4")) "" (Some [LOverdue "mail overdue"]).

(** Switch 0 stuck On since it last went Off at 900. *)
Definition stuck : FloatSwitch.t :=
  FloatSwitch.set_LastOff 900 (FloatSwitch.set_state HIGH pump).

(** The sample installation with the water marks exchanged and switch 0
    running every 150 seconds. *)
Definition exchanged : ConfigData.t :=
  ConfigData.set_freq 150
    (ConfigData.set_highwater 114 (ConfigData.set_lowwater 222 (basement pump))).

(** A launched command whose environment has [SAFREQM] as [v]. *)
Definition inherits (v : option string) (ev : Event) : Prop :=
  match ev with
  | Exec _ _ e => e !! "SAFREQM" = v
  | Ratio _ _ => True
  end.

(** The sample installation with switch 0 stuck On and an overdue margin of
    20 seconds: the frequency is 100, so the action is due at 1020. *)
Definition tight : Sys :=
  running (ConfigData.set_overduethreshold 20 (basement stuck)).

(** The same with no overdue action configured. *)
Definition unconfigured : Sys :=
  running (ConfigData.set_overdue None
             (ConfigData.set_overduethreshold 20 (basement stuck))).

(** Switch 0 before its first activation. *)
Definition idle : FloatSwitch.t :=
  FloatSwitch.set_freq [0; 0; 0; 0] (FloatSwitch.set_LastOn 0 pump).

(** A pass at time [t] with the pins of [high] reading high and no check of
    the configuration succeeding. *)
Definition pass (t : time_t) (high : list Z) : TickInput :=
  mkTick t (reads high) nofiles.

(** The number of overdue commands a run launches. *)
Definition launched (ins : list TickInput) (st : Sys) : nat :=
  match run ins st with
  | Ret (_, evs) => length (overdue_execs evs)
  | Exit _ => 0%nat
  end.

(** ** Startup *)

Definition LOGFILE : string := "/var/log/sumpalarm.log".

(** [cd] after the assignments at the top of [main]. The fields [main]
    leaves unset keep what the stack held, given here by [g]. *)
Definition main_cd (g : ConfigData.t) : ConfigData.t :=
  ConfigData.mk 0 0 0 0 (ConfigData.capacity g) (ConfigData.vol g) (ConfigData.rate g)
                (ConfigData.freq g) 0 None (replicate 100 FloatSwitch.fresh) 0 None.

(** What [main] meets when it starts. *)
Record Boot : Type := mkBoot {
  gpio_ok : bool;            (* [bcm2835_init()] *)
  stack : ConfigData.t;      (* the stack behind the unset fields of [cd] *)
  inherited : Env;           (* the environment of the process *)
  boot_time : time_t;        (* [time(&LastConfigCheck)] *)
  boot_world : World;
  boot_gpio : Z -> bool      (* the levels of the pins at the first read *)
}.

(** One pass of the body of the loop that configures the input pins and
    reads their initial state. *)
Definition read_initial (gpio : Z -> bool) (c : ConfigData.t) (ID : nat) : ConfigData.t :=
  if negb (FloatSwitch.initialized (ConfigData.sw ID c) =? 0)
  then ConfigData.upd ID
         (FloatSwitch.set_state (lev (gpio (FloatSwitch.pin (ConfigData.sw ID c))))) c
  else c.

(** The loop that configures the input pins and reads their initial
    state. *)
Definition read_pins (gpio : Z -> bool) (c : ConfigData.t) : ConfigData.t :=
  fold_left (read_initial gpio) (seq 0 100) c.

(** [main] from the initialisation of the GPIO to the start of the loop. *)
Definition main_start (b : Boot) : result Sys :=
  if negb (gpio_ok b) then Exit 2
  else
    st <- RefreshConfig (boot_world b) true
            (mkSys (main_cd (stack b)) false (boot_time b) "" 3 LOGFILE (inherited b)) ;;
    if FloatSwitch.initialized (sw0 st) =? 0 then Exit 1
    else Ret (on_cd (read_pins (boot_gpio b)) st).

(** ** Vocabulary of the further statements *)

(** A switch that has never been touched since [main] initialised it. *)
Definition dormant (s : FloatSwitch.t) : Prop :=
  FloatSwitch.state s = LOW /\ FloatSwitch.LastOn s = 0 /\ FloatSwitch.LastOff s = 0 /\
  FloatSwitch.freq s = replicate FREQ_HISTORY 0 /\ FloatSwitch.lastfreq s = 0.

(** A slot is either unbound (no pin, not initialised, dormant) or bound to
    a nonzero pin; its ring has its four slots and its state is a level. *)
Definition slot_ok (s : FloatSwitch.t) : Prop :=
  length (FloatSwitch.freq s) = FREQ_HISTORY /\
  (FloatSwitch.state s = LOW \/ FloatSwitch.state s = HIGH) /\
  ((FloatSwitch.initialized s = 0 /\ FloatSwitch.pin s = 0 /\ dormant s) \/
   (FloatSwitch.initialized s = 1 /\ FloatSwitch.pin s <> 0)).

Definition valid (st : Sys) : Prop :=
  length (ConfigData.switchlist (cd st)) = 100%nat /\
  (forall ID : nat, slot_ok (ConfigData.sw ID (cd st))) /\
  (forall ID : nat, ID <> 0%nat -> FloatSwitch.lastfreq (ConfigData.sw ID (cd st)) = 0) /\
  0 <= LogLevel st <= 3.

(** What holds of [cd] and the log level while the first load reads the
    file: every slot is as [main] left it but for the configuration fields,
    and bound exactly when a nonzero pin has been given. *)
Definition booting (st : Sys) : Prop :=
  length (ConfigData.switchlist (cd st)) = 100%nat /\
  (forall ID : nat,
      slot_ok (ConfigData.sw ID (cd st)) /\ dormant (ConfigData.sw ID (cd st))) /\
  0 <= LogLevel st <= 3.

(** The bindings and the geometry, which are read once. *)
Definition same_installation (st st' : Sys) : Prop :=
  (forall ID : nat,
      FloatSwitch.pin (ConfigData.sw ID (cd st')) = FloatSwitch.pin (ConfigData.sw ID (cd st)) /\
      FloatSwitch.initialized (ConfigData.sw ID (cd st'))
        = FloatSwitch.initialized (ConfigData.sw ID (cd st))) /\
  ConfigData.sumpdepth (cd st') = ConfigData.sumpdepth (cd st) /\
  ConfigData.sumpdiameter (cd st') = ConfigData.sumpdiameter (cd st) /\
  ConfigData.lowwater (cd st') = ConfigData.lowwater (cd st) /\
  ConfigData.highwater (cd st') = ConfigData.highwater (cd st).

(** The fields of [cd] outside the array of switches that a pass over one
    switch keeps. *)
Definition pit_eq (c c' : ConfigData.t) : Prop :=
  length (ConfigData.switchlist c') = length (ConfigData.switchlist c) /\
  ConfigData.sumpdepth c' = ConfigData.sumpdepth c /\
  ConfigData.sumpdiameter c' = ConfigData.sumpdiameter c /\
  ConfigData.lowwater c' = ConfigData.lowwater c /\
  ConfigData.highwater c' = ConfigData.highwater c.

(** Every command that is configured in [st] is configured in [st']. *)
Definition commands_kept (st st' : Sys) : Prop :=
  (is_set (ConfigData.ratechange (cd st)) = true ->
   is_set (ConfigData.ratechange (cd st')) = true) /\
  (is_set (ConfigData.overdue (cd st)) = true ->
   is_set (ConfigData.overdue (cd st')) = true) /\
  (forall ID : nat,
      (is_set (FloatSwitch.OnAction (ConfigData.sw ID (cd st))) = true ->
       is_set (FloatSwitch.OnAction (ConfigData.sw ID (cd st'))) = true) /\
      (is_set (FloatSwitch.OffAction (ConfigData.sw ID (cd st))) = true ->
       is_set (FloatSwitch.OffAction (ConfigData.sw ID (cd st'))) = true)).

(** The lines that carry a command. *)
Definition sets_command (l : ConfLine) : bool :=
  match l with
  | LRateChange _ | LOverdue _ => true
  | LSwitch _ _ (POn _ _) | LSwitch _ _ (POff _ _) => true
  | _ => false
  end.

(** The commands of [st'] are those of [st]. *)
Definition same_commands (st st' : Sys) : Prop :=
  ConfigData.ratechange (cd st') = ConfigData.ratechange (cd st) /\
  ConfigData.overdue (cd st') = ConfigData.overdue (cd st) /\
  (forall ID : nat,
      FloatSwitch.OnAction (ConfigData.sw ID (cd st'))
        = FloatSwitch.OnAction (ConfigData.sw ID (cd st)) /\
      FloatSwitch.OffAction (ConfigData.sw ID (cd st'))
        = FloatSwitch.OffAction (ConfigData.sw ID (cd st))).

(** A command of a switch comes from a switch that is monitored in [st]. *)
Definition from_monitored (st : Sys) (ev : Event) : Prop :=
  match ev with
  | Exec (SiteSwitchOn ID) _ _ | Exec (SiteSwitchOff ID) _ _ =>
      FloatSwitch.initialized (ConfigData.sw ID (cd st)) <> 0
  | _ => True
  end.

(** The six names [SetEnvironment] writes. *)
Definition published : list string :=
  ["SAFREQ"; "SAFREQF"; "SAVOLUME"; "SARATE"; "SATIMELEFT"; "SATIMELEFTM"].

(** A command other than the overdue one finds the six names set. *)
Definition fully_published (ev : Event) : Prop :=
  match ev with
  | Exec SiteOverdue _ _ => True
  | Exec _ _ e => Forall (fun name => is_Some (e !! name)) published
  | Ratio _ _ => True
  end.

(** The configuration file of the example that heads the source. *)
Definition sample_conf : list ConfLine :=
  [ LSkip;
    LLogFile "/var/log/sumpalarm.log"; LLogLevel 3;
    LSumpDepth 760; LSumpDiameter 510; LLowWater 114; LHighWater 222;
    LSwitch "0" "L" (PLevel 200); LSwitch "0" "P" (PPin 14);
    LSwitch "0" "B" (PBounce 5);
    LSwitch "0" "O" (POn "=echo Switch0On" "echo Switch0On");
    LSwitch "0" "O" (POff "=echo Switch0Off" "echo Switch0Off");
    LSwitch "1" "L" (PLevel 300); LSwitch "1" "P" (PPin 15);
    LSwitch "1" "B" (PBounce 5);
    LSwitch "1" "O" (POn "=mail failure" "mail failure");
    LSwitch "1" "O" (POff "=mail restored" "mail restored");
    LRateChangeAmt 20; LRateChange "mail rate";
    LOverdueThreshold 120; LOverdue "mail overdue" ].

(** A start with that file, the pump switch reading low and the alarm
    switch reading low. *)
Definition sample_boot : Boot :=
  mkBoot true (basement pump) ∅ 1000
         (mkWorld (Some (Some "5d41402abc4b2a76")) "" (Some sample_conf))
         (reads []).

(** ** The helpers of the configuration reader *)

(** A C string is carried by the [string] of its characters before the
    terminator. *)

(** [s[i]], for [i] up to the length of [s]. *)
Definition char_at (s : string) (i : nat) : ascii :=
  match String.get i s with
  | Some c => c
  | None => "000"%char
  end.

(** [s+k], for [k] up to the length of [s]. *)
Fixpoint str_from (k : nat) (s : string) : string :=
  match k, s with
  | S k', String _ s' => str_from k' s'
  | _, _ => s
  end.

(** The parameter of a switch that a line sets. *)
Inductive Param : Type := KLevel | KPin | KBounce | KOn | KOff | KNone.

Section Chars.

(** Whether a plain [char] is signed is left to the platform. *)
Variable char_signed : bool.

(** The value of a [char] once promoted to [int]. *)
Definition char_val (c : ascii) : Z :=
  let n := Z.of_nat (nat_of_ascii c) in
  if char_signed && (127 <? n) then n - 256 else n.

(** The body of the loop of [sa_strcmp] at index [i]: [None] when the loop
    continues, the value returned otherwise. *)
Definition sa_step (s1 s2 : string) (i : nat) : option Z :=
  let diff := char_val (char_at s1 i) - char_val (char_at s2 i) in
  if (diff =? 0)
     || ((diff =? 32) && (char_val "a" <=? char_val (char_at s1 i))
                      && (char_val (char_at s1 i) <=? char_val "z"))
     || ((diff =? -32) && (char_val "A" <=? char_val (char_at s1 i))
                       && (char_val (char_at s1 i) <=? char_val "Z"))
  then None
  else Some (char_val (char_at s1 i) - char_val (char_at s2 i)).

Fixpoint sa_loop (s1 s2 : string) (idx : list nat) : Z :=
  match idx with
  | [] => 0
  | i :: idx' =>
      match sa_step s1 s2 i with
      | None => sa_loop s1 s2 idx'
      | Some d => d
      end
  end.

(** [sa_strcmp] *)
Definition sa_strcmp (s1 s2 : string) : Z :=
  let len := String.length s1 in
  let len := if (String.length s2 <? len)%nat then String.length s2 else len in
  sa_loop s1 s2 (seq 0 len).

(** The branch of the loop body of [RefreshConfig] that a line selects. *)
Inductive Directive : Type :=
| DBlank | DComment
| DLogLevel | DLogFile | DSumpDepth | DSumpDiameter | DLowWater | DHighWater
| DRateChangeAmt | DOverdueThreshold | DRateChange | DOverdue | DSwitch
| DUnknown.

(** The tests at the head of the body of [while (fgets(...))], applied to
    the line that [trim] has left in [cline]. *)
Definition directive (cline : string) : Directive :=
  if (String.length cline <? 1)%nat then DBlank
  else if Ascii.eqb (char_at cline 0) "#" then DComment
  else if sa_strcmp cline "LogLevel" =? 0 then DLogLevel
  else if sa_strcmp cline "LogFile" =? 0 then DLogFile
  else if sa_strcmp cline "SumpDepth" =? 0 then DSumpDepth
  else if sa_strcmp cline "SumpDiameter" =? 0 then DSumpDiameter
  else if sa_strcmp cline "LowWater" =? 0 then DLowWater
  else if sa_strcmp cline "HighWater" =? 0 then DHighWater
  else if sa_strcmp cline "RateChangeAmt" =? 0 then DRateChangeAmt
  else if sa_strcmp cline "OverdueThreshold" =? 0 then DOverdueThreshold
  else if sa_strcmp cline "RateChange" =? 0 then DRateChange
  else if (sa_strcmp cline "Overdue" =? 0) && negb (sa_strcmp cline "OverdueT" =? 0)
  then DOverdue
  else if sa_strcmp cline "Switch" =? 0 then DSwitch
  else DUnknown.

(** The tests of the [Switch] branch on the text that follows the ID. *)
Definition switch_param (rest : string) : Param :=
  if sa_strcmp rest "Level" =? 0 then KLevel
  else if sa_strcmp rest "Pin" =? 0 then KPin
  else if sa_strcmp rest "Bounce" =? 0 then KBounce
  else if sa_strcmp rest "On" =? 0 then KOn
  else if sa_strcmp rest "Off" =? 0 then KOff
  else KNone.

(** The head of the [Switch] branch, for a line of six characters or
    more: the ID, the number of digits the offsets account for, and the
    parameter selected; [None] when the ID is not numeric. *)
Definition switch_branch (cline : string) : option (nat * nat * Param) :=
  match switch_id (char_at cline 6) (char_at cline 7) with
  | None => None
  | Some ID =>
      let digits := if (9 <? ID)%nat then 2%nat else 1%nat in
      Some (ID, digits, switch_param (str_from (6 + digits) cline))
  end.

End Chars.

(** The keyword of a branch. *)
Definition keyword (d : Directive) : option string :=
  match d with
  | DLogLevel => Some "LogLevel"
  | DLogFile => Some "LogFile"
  | DSumpDepth => Some "SumpDepth"
  | DSumpDiameter => Some "SumpDiameter"
  | DLowWater => Some "LowWater"
  | DHighWater => Some "HighWater"
  | DRateChangeAmt => Some "RateChangeAmt"
  | DOverdueThreshold => Some "OverdueThreshold"
  | DRateChange => Some "RateChange"
  | DOverdue => Some "Overdue"
  | DSwitch => Some "Switch"
  | _ => None
  end.

(** The keyword of a parameter of a switch. *)
Definition param_keyword (k : Param) : option string :=
  match k with
  | KLevel => Some "Level"
  | KPin => Some "Pin"
  | KBounce => Some "Bounce"
  | KOn => Some "On"
  | KOff => Some "Off"
  | KNone => None
  end.

(** The character of a decimal digit. *)
Definition digit (d : nat) : ascii := ascii_of_nat (48 + d).

(** A capital letter of ASCII becomes the small one. *)
Definition to_lower (c : ascii) : ascii :=
  let n := nat_of_ascii c in
  if (65 <=? n)%nat && (n <=? 90)%nat then ascii_of_nat (n + 32) else c.

(** Two strings agree when, up to the case of letters, they are equal as
    far as the shorter one goes. *)
Definition agree (s1 s2 : string) : Prop :=
  forall i : nat,
    (i < String.length s1)%nat -> (i < String.length s2)%nat ->
    to_lower (char_at s1 i) = to_lower (char_at s2 i).

(** Two strings are the same text up to the case of letters. *)
Definition same_text (s1 s2 : string) : Prop :=
  String.length s1 = String.length s2 /\
  forall i : nat, to_lower (char_at s1 i) = to_lower (char_at s2 i).

(** Every character. *)
Definition all_ascii : list ascii := map ascii_of_nat (seq 0 256).

(** ** [trim] *)

(** A buffer is carried by the list of its bytes; the string it holds ends
    before its first NUL. *)
Definition NUL : ascii := "000"%char.

#[export] Instance ascii_inhabited : Inhabited ascii := populate NUL.

Fixpoint strlen (s : list ascii) : nat :=
  match s with
  | [] => 0
  | c :: s' => if Ascii.eqb c NUL then 0 else S (strlen s')
  end.

(** The string a buffer holds. *)
Definition cstr (s : list ascii) : list ascii := take (strlen s) s.

(** [s[i]=='\t'||s[i]=='\n'||s[i]=='\r'||s[i]==' '||s[i]=='\t'] *)
Definition is_space (c : ascii) : bool :=
  Ascii.eqb c "009" || Ascii.eqb c "010" || Ascii.eqb c "013" || Ascii.eqb c " "
  || Ascii.eqb c "009".

(** The loop that finds where the printable text starts; [None] stands
    for the [-1] that [textstart] keeps when there is none. *)
Fixpoint find_text (s : list ascii) (idx : list nat) : option nat :=
  match idx with
  | [] => None
  | i :: idx' => if is_space (s !!! i) then find_text s idx' else Some i
  end.

(** [for (i=0;i<len-textstart;i++) s[i]=s[i+textstart];] *)
Definition shift_text (textstart len : nat) (s : list ascii) : list ascii :=
  fold_left (fun (s : list ascii) (i : nat) => <[i := s !!! (i + textstart)%nat]> s)
            (seq 0 (len - textstart)) s.

(** The loop that works back from the end to the last printable
    character. *)
Fixpoint cut_back (s : list ascii) (idx : list nat) : list ascii :=
  match idx with
  | [] => s
  | i :: idx' => if is_space (s !!! i) then cut_back s idx' else <[S i := NUL]> s
  end.

(** [trim] *)
Definition trim (s : list ascii) : list ascii :=
  let len := strlen s in
  match find_text s (seq 0 len) with
  | None => <[0%nat := NUL]> s
  | Some textstart =>
      let s := if (0 <? textstart)%nat
               then <[(len - textstart)%nat := NUL]> (shift_text textstart len s)
               else s in
      cut_back s (rev (seq 1 (len - 1)))
  end.

(** [trim(cline+k)] *)
Definition trim_at (k : nat) (buf : list ascii) : list ascii :=
  take k buf ++ trim (drop k buf).

(** The text at [cline+n+1] once the branch of a key of [n] characters has
    called [trim(cline+n)] and [trim(cline+n+1)] on the line that
    [trim(cline)] left: the operand that [atoi], [strncpy] or [strcpy]
    reads there. *)
Definition operand (n : nat) (buf : list ascii) : list ascii :=
  cstr (drop (S n) (trim_at (S n) (trim_at n (trim buf)))).

(** The text at [cline+off] once the branch of a key of [n] characters has
    called [trim(cline+n)] and [trim(cline+n+1)] on the line that
    [trim(cline)] left. *)
Definition text_at (off n : nat) (buf : list ascii) : list ascii :=
  cstr (drop off (trim_at (S n) (trim_at n (trim buf)))).

(** The [On] branch of a switch whose ID has [digits] digits: the text
    that is tested for emptiness and against the installed command, and
    the text that is installed. *)
Definition on_check (digits : nat) (buf : list ascii) : list ascii :=
  text_at 9 (8 + digits) buf.
Definition on_value (digits : nat) (buf : list ascii) : list ascii :=
  text_at (9 + digits) (8 + digits) buf.

(** The same for the [Off] branch. *)
Definition off_check (digits : nat) (buf : list ascii) : list ascii :=
  text_at 10 (9 + digits) buf.
Definition off_value (digits : nat) (buf : list ascii) : list ascii :=
  text_at (10 + digits) (9 + digits) buf.

(** * Proofs *)

(** ** Machine integers *)

Lemma wrap_in_range z : Int.in_range (Int.wrap z).
Proof.
  unfold Int.in_range, Int.wrap, Int.min_int, Int.max_int.
  pose proof (Z.mod_pos_bound (z + 2 ^ 31) (2 ^ 32) ltac:(lia)). lia.
Qed.

Lemma wrap_small z : Int.in_range z -> Int.wrap z = z.
Proof.
  unfold Int.in_range, Int.wrap, Int.min_int, Int.max_int; intros H.
  rewrite Z.mod_small by lia. lia.
Qed.

Lemma wrap_add_l a b : Int.wrap (Int.wrap a + b) = Int.wrap (a + b).
Proof.
  unfold Int.wrap.
  replace ((a + 2 ^ 31) mod 2 ^ 32 - 2 ^ 31 + b + 2 ^ 31)
    with ((a + 2 ^ 31) mod 2 ^ 32 + b) by lia.
  rewrite Zplus_mod_idemp_l. f_equal. f_equal. lia.
Qed.

Lemma add4 a b c d :
  Int.add (Int.add (Int.add (Int.add 0 a) b) c) d = Int.wrap (a + b + c + d).
Proof.
  unfold Int.add.
  rewrite (wrap_add_l (0 + a) b), (wrap_add_l (0 + a + b) c),
    (wrap_add_l (0 + a + b + c) d).
  f_equal; lia.
Qed.

(** A quotient by a positive count stays in range. *)
Lemma div_small x k : Int.in_range x -> 1 <= k -> Int.wrap (x ÷ k) = x ÷ k.
Proof.
  intros Hx Hk. apply wrap_small.
  unfold Int.in_range, Int.min_int, Int.max_int in *.
  destruct (Z.le_gt_cases 0 x).
  - pose proof (Z.quot_pos x k ltac:(lia) ltac:(lia)).
    pose proof (Z.quot_le_upper_bound x k x ltac:(lia) ltac:(nia)). lia.
  - rewrite <- (Z.opp_involutive x), Z.quot_opp_l by lia.
    pose proof (Z.quot_pos (- x) k ltac:(lia) ltac:(lia)).
    pose proof (Z.quot_le_upper_bound (- x) k (- x) ltac:(lia) ltac:(nia)). lia.
Qed.

(** ** The frequency tracker *)

Lemma ring4 (h : list Z) :
  length h = FREQ_HISTORY -> exists a b c d, h = [a; b; c; d].
Proof.
  destruct h as [|a [|b [|c [|d [|]]]]]; simpl; intros H; try discriminate.
  eauto.
Qed.

Lemma GetFrequency_ring a b c d s :
  FloatSwitch.freq s = [a; b; c; d] ->
  GetFrequency s =
    let k := Z.of_nat (length (populated [a; b; c; d])) in
    if k =? 0 then 0 else Int.wrap (a + b + c + d) ÷ k.
Proof.
  intros E. unfold GetFrequency. rewrite E. cbn [seq FREQ_HISTORY fold_left].
  change ([a; b; c; d] !!! 0%nat) with a.
  change ([a; b; c; d] !!! 1%nat) with b.
  change ([a; b; c; d] !!! 2%nat) with c.
  change ([a; b; c; d] !!! 3%nat) with d.
  rewrite add4. unfold Int.div, populated. cbn [List.filter].
  destruct (Z.eqb_spec a 0), (Z.eqb_spec b 0), (Z.eqb_spec c 0), (Z.eqb_spec d 0);
    subst;
    cbn [negb length Z.of_nat Z.eqb Pos.of_succ_nat Pos.succ Z.add Pos.add Pos.eqb
         Z.sub Z.opp Z.pos_sub Pos.pred_double Z.double Z.succ_double Z.pred_double];
    try reflexivity;
    apply div_small; try apply wrap_in_range; lia.
Qed.

(** C4: [GetFrequency] returns the average of the nonzero entries of the
    four-slot ring (the integer average, the sum of the ring fitting an
    [int]) and 0 when all four entries are zero; the rings [0,0,0,0],
    [100,0,0,0] and [100,200,0,0] give 0, 100 and 150. *)
Theorem GetFrequency_average :
  (forall s : FloatSwitch.t,
      length (FloatSwitch.freq s) = FREQ_HISTORY ->
      (populated (FloatSwitch.freq s) = [] -> GetFrequency s = 0) /\
      (populated (FloatSwitch.freq s) <> [] ->
       Int.in_range (total (FloatSwitch.freq s)) ->
       GetFrequency s = average (populated (FloatSwitch.freq s)))) /\
  (forall s, FloatSwitch.freq s = [0; 0; 0; 0] -> GetFrequency s = 0) /\
  (forall s, FloatSwitch.freq s = [100; 0; 0; 0] -> GetFrequency s = 100) /\
  (forall s, FloatSwitch.freq s = [100; 200; 0; 0] -> GetFrequency s = 150).
Proof.
  split;
    [|repeat split; intros s E; rewrite (GetFrequency_ring _ _ _ _ s E); reflexivity].
  intros s Hlen. destruct (ring4 _ Hlen) as (a & b & c & d & E).
  rewrite (GetFrequency_ring a b c d s E), E. split.
  - intros Hp. rewrite Hp. reflexivity.
  - intros Hp Hr. cbv zeta.
    destruct (Z.eqb_spec (Z.of_nat (length (populated [a; b; c; d]))) 0) as [Hz|Hz].
    { destruct (populated [a; b; c; d]); [congruence | simpl in Hz; lia]. }
    rewrite wrap_small
      by (simpl in Hr; replace (a + b + c + d) with (a + (b + (c + (d + 0)))) by lia;
          exact Hr).
    unfold average. f_equal. clear. unfold populated, total. cbn [List.filter].
    destruct (Z.eqb_spec a 0), (Z.eqb_spec b 0), (Z.eqb_spec c 0), (Z.eqb_spec d 0);
      subst; cbn [negb fold_right]; lia.
Qed.

(** ** The array of switches *)

Lemma sw_lookup ID c s :
  ConfigData.switchlist c !! ID = Some s -> ConfigData.sw ID c = s.
Proof. apply list_lookup_total_correct. Qed.

Lemma sw_upd_eq ID f c :
  (ID < length (ConfigData.switchlist c))%nat ->
  ConfigData.sw ID (ConfigData.upd ID f c) = f (ConfigData.sw ID c).
Proof. intros H. unfold ConfigData.sw, ConfigData.upd; simpl. by apply list_lookup_total_insert_eq. Qed.

Lemma sw_upd_ne ID ID' f c :
  ID <> ID' -> ConfigData.sw ID' (ConfigData.upd ID f c) = ConfigData.sw ID' c.
Proof. intros H. unfold ConfigData.sw, ConfigData.upd; simpl. by apply list_lookup_total_insert_ne. Qed.

Lemma sw_upd_ge ID f c :
  (length (ConfigData.switchlist c) <= ID)%nat -> ConfigData.upd ID f c = c.
Proof.
  intros H. unfold ConfigData.upd. rewrite list_insert_ge by exact H.
  destruct c; reflexivity.
Qed.

(** Reading a slot after a write to a slot. *)
Lemma sw_upd ID ID' f c :
  ConfigData.sw ID' (ConfigData.upd ID f c) =
    if decide (ID = ID' /\ (ID < length (ConfigData.switchlist c))%nat)
    then f (ConfigData.sw ID c) else ConfigData.sw ID' c.
Proof.
  case_decide as H.
  - destruct H as [-> H]. by apply sw_upd_eq.
  - destruct (decide (ID = ID')) as [->|Hne]; [|by apply sw_upd_ne].
    rewrite sw_upd_ge; [done | lia].
Qed.

Lemma length_upd ID f c :
  length (ConfigData.switchlist (ConfigData.upd ID f c)) = length (ConfigData.switchlist c).
Proof. unfold ConfigData.upd; simpl. apply length_insert. Qed.

Lemma sw_ring ID c :
  wf_cd c -> length (FloatSwitch.freq (ConfigData.sw ID c)) = FREQ_HISTORY.
Proof.
  intros [_ H]. unfold ConfigData.sw.
  destruct (ConfigData.switchlist c !! ID) as [s|] eqn:E.
  - rewrite (list_lookup_total_correct _ _ _ E).
    rewrite Forall_forall in H. apply H. apply list_elem_of_lookup. eauto.
  - rewrite list_lookup_total_alt, E. reflexivity.
Qed.

Lemma wf_upd ID f c :
  wf_cd c ->
  (forall s, length (FloatSwitch.freq s) = FREQ_HISTORY ->
             length (FloatSwitch.freq (f s)) = FREQ_HISTORY) ->
  wf_cd (ConfigData.upd ID f c).
Proof.
  intros Hwf Hf. pose proof (sw_ring ID c Hwf) as Hr. destruct Hwf as [Hl HF].
  split; [by rewrite length_upd|].
  unfold ConfigData.upd; simpl. apply Forall_insert; auto.
Qed.

Lemma length_shift_history h : length (shift_history h) = length h.
Proof.
  unfold shift_history. generalize (seq 0 (FREQ_HISTORY - 1)). intros l.
  revert h. induction l as [|i l IH]; intros h; simpl; [done|].
  rewrite IH. apply length_insert.
Qed.

Lemma ring_activate t s :
  length (FloatSwitch.freq s) = FREQ_HISTORY ->
  length (FloatSwitch.freq (activate t s)) = FREQ_HISTORY.
Proof.
  intros H. unfold activate; simpl.
  destruct (negb _); simpl; rewrite ?length_insert, length_shift_history; exact H.
Qed.

Lemma set_cd_id st : set_cd (cd st) st = st.
Proof. by destruct st. Qed.

(** ** The rate-change detector and the two branches of a transition *)

Ltac break_if :=
  match goal with
  | |- context [if ?b then _ else _] => destruct b eqn:?
  end.

(** Apart from the baseline of switch 0 the detector writes nothing. *)
Lemma rate_change_fields ID ID' st :
  let s := ConfigData.sw ID' (cd st) in
  let s' := ConfigData.sw ID' (cd (fst (rate_change ID st))) in
  FloatSwitch.state s' = FloatSwitch.state s /\
  FloatSwitch.LastOn s' = FloatSwitch.LastOn s /\
  FloatSwitch.LastOff s' = FloatSwitch.LastOff s /\
  FloatSwitch.freq s' = FloatSwitch.freq s /\
  FloatSwitch.OnAction s' = FloatSwitch.OnAction s.
Proof.
  unfold rate_change. repeat break_if; simpl; auto;
    rewrite sw_upd; case_decide as H; auto; destruct H as [<- _]; simpl; auto.
Qed.

Lemma rate_change_other ID ID' st :
  ID' <> 0%nat ->
  ConfigData.sw ID' (cd (fst (rate_change ID st))) = ConfigData.sw ID' (cd st).
Proof.
  intros Hne. unfold rate_change.
  destruct (Nat.eqb_spec ID 0) as [->|]; simpl; [|done].
  repeat break_if; simpl; auto; by rewrite sw_upd_ne.
Qed.

Lemma rate_change_rest ID st :
  let st' := fst (rate_change ID st) in
  overduenotice st' = overduenotice st /\ env st' = env st /\
  LastConfigCheck st' = LastConfigCheck st /\ hash st' = hash st /\
  LogLevel st' = LogLevel st /\ LogFileName st' = LogFileName st /\
  (wf st -> wf st').
Proof.
  unfold rate_change.
  repeat break_if; simpl; (do 6 (split; [reflexivity|])); auto;
    intros Hwf; apply wf_upd; auto.
Qed.

Lemma rate_change_skip ID st :
  ID <> 0%nat \/ ConfigData.freq (cd st) = 0 \/ ConfigData.ratechange (cd st) = None ->
  rate_change ID st = (st, []).
Proof.
  intros H. unfold rate_change.
  destruct H as [H|[H|H]].
  - apply Nat.eqb_neq in H. by rewrite H.
  - rewrite H. by rewrite andb_false_r.
  - rewrite H. by rewrite andb_false_r.
Qed.

(** After an accepted change to On the slot holds what [activate] wrote,
    up to the baseline. *)
Lemma switch_on_eq ID t st :
  switch_on ID t st =
    (fst (rate_change ID (on_entry ID t st)),
     Action (SiteSwitchOn ID)
            (FloatSwitch.OnAction (ConfigData.sw ID (cd (on_entry ID t st))))
            (env (on_entry ID t st))
     ++ snd (rate_change ID (on_entry ID t st))).
Proof.
  unfold switch_on. cbv zeta.
  destruct (rate_change ID (on_entry ID t st)). reflexivity.
Qed.

Lemma on_entry_slot ID t st :
  (ID < length (ConfigData.switchlist (cd st)))%nat ->
  ConfigData.sw ID (cd (on_entry ID t st)) = activate t (ConfigData.sw ID (cd st)).
Proof.
  intros Hlt. unfold on_entry; simpl.
  change (ConfigData.sw ID (ConfigData.set_freq ?v ?c)) with (ConfigData.sw ID c).
  by rewrite sw_upd_eq.
Qed.

Lemma on_entry_other ID ID' t st :
  ID <> ID' ->
  ConfigData.sw ID' (cd (on_entry ID t st)) = ConfigData.sw ID' (cd st).
Proof.
  intros Hne. unfold on_entry; simpl.
  change (ConfigData.sw ID' (ConfigData.set_freq ?v ?c)) with (ConfigData.sw ID' c).
  by rewrite sw_upd_ne.
Qed.

Lemma on_entry_rest ID t st :
  let st' := on_entry ID t st in
  overduenotice st' = overduenotice st /\
  LastConfigCheck st' = LastConfigCheck st /\ hash st' = hash st /\
  LogLevel st' = LogLevel st /\ LogFileName st' = LogFileName st /\
  ConfigData.freq (cd st') = GetFrequency (sw0 st') /\
  ConfigData.ratechange (cd st') = ConfigData.ratechange (cd st) /\
  ConfigData.overdue (cd st') = ConfigData.overdue (cd st) /\
  (wf st -> wf st').
Proof.
  unfold on_entry; simpl. do 8 (split; [reflexivity|]).
  intros Hwf. unfold wf; simpl.
  apply (wf_upd ID (activate t) (cd st) Hwf (ring_activate t)).
Qed.

(** After an accepted change to On the slot holds what [activate] wrote,
    up to the baseline. *)
Lemma switch_on_slot ID t st :
  (ID < length (ConfigData.switchlist (cd st)))%nat ->
  let s := ConfigData.sw ID (cd st) in
  let s' := ConfigData.sw ID (cd (fst (switch_on ID t st))) in
  FloatSwitch.state s' = HIGH /\
  FloatSwitch.LastOn s' = t /\
  FloatSwitch.LastOff s' = FloatSwitch.LastOff s /\
  FloatSwitch.freq s' = FloatSwitch.freq (activate t s).
Proof.
  intros Hlt. rewrite switch_on_eq. simpl.
  destruct (rate_change_fields ID ID (on_entry ID t st)) as (H1 & H2 & H3 & H4 & _).
  rewrite H1, H2, H3, H4, (on_entry_slot ID t st Hlt).
  unfold activate; simpl. destruct (negb _); auto.
Qed.

Lemma switch_off_slot ID t raw st :
  (ID < length (ConfigData.switchlist (cd st)))%nat ->
  ConfigData.sw ID (cd (fst (switch_off ID t raw st))) =
    deactivate t raw (ConfigData.sw ID (cd st)).
Proof.
  intros Hlt. unfold switch_off; simpl.
  destruct (ID =? 0)%nat; simpl; by rewrite sw_upd_eq.
Qed.

(** C3: for a monitored switch whose sampled level differs from the stored
    state, the change is accepted exactly when [now - LastOff] has reached
    the bounce delay, in both directions; an accepted change stores the new
    state and stamps [LastOn] (to On) or [LastOff] (to Off), and a rejected
    one leaves the whole state of the process as it was. *)
Theorem debounce_gate (t : time_t) (gpio : Z -> bool) (ID : nat) (st : Sys)
    (s : FloatSwitch.t) :
  ConfigData.switchlist (cd st) !! ID = Some s ->
  FloatSwitch.initialized s <> 0 ->
  lev (gpio (FloatSwitch.pin s)) <> FloatSwitch.state s ->
  let raw := lev (gpio (FloatSwitch.pin s)) in
  let r := scan_switch t gpio ID st in
  let s' := ConfigData.sw ID (cd (fst r)) in
  (FloatSwitch.state s' = raw <->
     FloatSwitch.bouncedelay s <= t - FloatSwitch.LastOff s) /\
  (FloatSwitch.bouncedelay s <= t - FloatSwitch.LastOff s ->
     (raw = HIGH ->
        FloatSwitch.LastOn s' = t /\ FloatSwitch.LastOff s' = FloatSwitch.LastOff s) /\
     (raw = LOW ->
        FloatSwitch.LastOff s' = t /\ FloatSwitch.LastOn s' = FloatSwitch.LastOn s)) /\
  (t - FloatSwitch.LastOff s < FloatSwitch.bouncedelay s -> r = (st, [])).
Proof.
  intros Hs Hinit Hraw raw r s'.
  pose proof (sw_lookup _ _ _ Hs) as Hsw.
  pose proof (lookup_lt_Some _ _ _ Hs) as Hlt.
  assert (Er : r = if t - FloatSwitch.LastOff s <? FloatSwitch.bouncedelay s
                   then (st, [])
                   else if raw =? HIGH then switch_on ID t st
                        else switch_off ID t raw st).
  { subst r. unfold scan_switch. rewrite Hsw. fold raw.
    apply Z.eqb_neq in Hinit. rewrite Hinit.
    destruct (Z.eqb_spec raw (FloatSwitch.state s)) as [E|_]; [contradiction|].
    simpl. destruct (raw =? HIGH), (_ <? _); reflexivity. }
  destruct (Z.ltb_spec (t - FloatSwitch.LastOff s) (FloatSwitch.bouncedelay s)) as [Hb|Hb].
  - (* bounce *)
    subst s'. rewrite Er. simpl. rewrite Hsw.
    repeat split; try lia; try congruence.
  - subst s'. rewrite Er. clear Er.
    destruct (Z.eqb_spec raw HIGH) as [Eh|Eh].
    + destruct (switch_on_slot ID t st Hlt) as (H1 & H2 & H3 & _).
      rewrite Hsw in H3. rewrite H1, H2, H3.
      repeat split; try lia; try congruence;
        unfold HIGH, LOW in *; congruence.
    + rewrite (switch_off_slot ID t raw st Hlt), Hsw. simpl.
      repeat split; try lia; try congruence.
Qed.

(** ** Warm-up of the rate-change baseline *)

Lemma GetFrequency_ext s s' :
  FloatSwitch.freq s = FloatSwitch.freq s' -> GetFrequency s = GetFrequency s'.
Proof. intros E. unfold GetFrequency. rewrite E. reflexivity. Qed.

Lemma empty_slots_ext s s' :
  FloatSwitch.freq s = FloatSwitch.freq s' -> empty_slots s = empty_slots s'.
Proof. intros E. unfold empty_slots. rewrite E. reflexivity. Qed.

Lemma empty_slots_zero s :
  length (FloatSwitch.freq s) = FREQ_HISTORY ->
  (empty_slots s = 0 <-> Forall (fun x => x <> 0) (FloatSwitch.freq s)).
Proof.
  intros Hlen. destruct (ring4 _ Hlen) as (a & b & c & d & E).
  unfold empty_slots. rewrite E. cbn [seq FREQ_HISTORY fold_left].
  change ([a; b; c; d] !!! 0%nat) with a.
  change ([a; b; c; d] !!! 1%nat) with b.
  change ([a; b; c; d] !!! 2%nat) with c.
  change ([a; b; c; d] !!! 3%nat) with d.
  split.
  - intros H.
    destruct (Z.eqb_spec a 0), (Z.eqb_spec b 0), (Z.eqb_spec c 0), (Z.eqb_spec d 0);
      try discriminate H.
    repeat constructor; assumption.
  - intros H. inversion H as [|? ? Ha H1]; subst. inversion H1 as [|? ? Hb H2]; subst.
    inversion H2 as [|? ? Hc H3]; subst. inversion H3 as [|? ? Hd _]; subst.
    apply Z.eqb_neq in Ha, Hb, Hc, Hd. rewrite Ha, Hb, Hc, Hd. reflexivity.
Qed.

Lemma rate_execs_app a b : rate_execs (a ++ b) = rate_execs a ++ rate_execs b.
Proof. apply List.filter_app. Qed.

Lemma rate_execs_Action site a e :
  site <> SiteRateChange -> rate_execs (Action site a e) = [].
Proof. intros H. destruct a; simpl; [|done]. destruct site; simpl; congruence. Qed.

(** The warm-up branch of the detector. *)
Lemma rate_change_warmup st a :
  wf st ->
  ConfigData.ratechange (cd st) = Some a ->
  FloatSwitch.lastfreq (sw0 st) = 0 ->
  let r := rate_change 0 st in
  (ConfigData.freq (cd st) <> 0 /\ Forall (fun x => x <> 0) (FloatSwitch.freq (sw0 st)) ->
   sw0 (fst r) = FloatSwitch.set_lastfreq (ConfigData.freq (cd st)) (sw0 st) /\
   snd r = [Exec SiteRateChange a (env st)] /\ env (fst r) = env st) /\
  (~ (ConfigData.freq (cd st) <> 0 /\ Forall (fun x => x <> 0) (FloatSwitch.freq (sw0 st))) ->
   r = (st, [])).
Proof.
  intros Hwf Ha Hl r. subst r. unfold rate_change. unfold sw0 in *.
  rewrite Ha, Hl. simpl.
  pose proof (empty_slots_zero (ConfigData.sw 0 (cd st)) (sw_ring 0 _ Hwf)) as Hz.
  destruct (Z.eqb_spec (ConfigData.freq (cd st)) 0) as [Ef|Ef]; simpl.
  { split; [intros [? _]; contradiction | reflexivity]. }
  destruct (Z.eqb_spec (empty_slots (ConfigData.sw 0 (cd st))) 0) as [Ez|Ez]; simpl.
  - split; [|intros Hn; exfalso; apply Hn; split; [exact Ef | by apply Hz]].
    intros _. destruct Hwf as [Hlen _].
    rewrite sw_upd_eq by lia. auto.
  - split; [|reflexivity]. intros [_ HF]. exfalso. apply Ez. by apply Hz.
Qed.

Lemma scan_switch_accept_on t gpio ID st s :
  ConfigData.switchlist (cd st) !! ID = Some s ->
  FloatSwitch.initialized s <> 0 ->
  lev (gpio (FloatSwitch.pin s)) = HIGH ->
  FloatSwitch.state s <> HIGH ->
  FloatSwitch.bouncedelay s <= t - FloatSwitch.LastOff s ->
  scan_switch t gpio ID st = switch_on ID t st.
Proof.
  intros Hs Hi Hr Hst Hb. unfold scan_switch.
  rewrite (sw_lookup _ _ _ Hs), Hr.
  apply Z.eqb_neq in Hi. rewrite Hi.
  destruct (Z.eqb_spec HIGH (FloatSwitch.state s)) as [E|_]; [congruence|].
  change (HIGH =? HIGH) with true. cbn [negb].
  destruct (Z.ltb_spec (t - FloatSwitch.LastOff s) (FloatSwitch.bouncedelay s));
    [lia|reflexivity].
Qed.


Lemma classic_full st :
  (ConfigData.freq (cd st) <> 0 /\ Forall (fun x => x <> 0) (FloatSwitch.freq (sw0 st))) \/
  ~ (ConfigData.freq (cd st) <> 0 /\ Forall (fun x => x <> 0) (FloatSwitch.freq (sw0 st))).
Proof.
  destruct (decide (ConfigData.freq (cd st) = 0)) as [E|E]; [right; tauto|].
  destruct (decide (Forall (fun x : Z => x <> 0) (FloatSwitch.freq (sw0 st))))
    as [H|H]; [left|right]; tauto.
Qed.

(** C2, as the code has it: on an accepted change of switch 0 to On, with a
    rate-change action configured and no baseline yet, a baseline is recorded
    only when the ring has no empty slot, it is the current frequency, and
    the rate-change action is launched on that very pass; when no baseline
    is recorded no rate-change action is launched. A full ring with a
    nonzero frequency always records the baseline. *)
Theorem baseline_needs_full_ring (t : time_t) (gpio : Z -> bool) (st : Sys)
    (s : FloatSwitch.t) (a : string) :
  wf st ->
  ConfigData.switchlist (cd st) !! 0%nat = Some s ->
  FloatSwitch.initialized s <> 0 ->
  lev (gpio (FloatSwitch.pin s)) = HIGH ->
  FloatSwitch.state s <> HIGH ->
  FloatSwitch.bouncedelay s <= t - FloatSwitch.LastOff s ->
  ConfigData.ratechange (cd st) = Some a ->
  FloatSwitch.lastfreq s = 0 ->
  let r := scan_switch t gpio 0 st in
  let s' := sw0 (fst r) in
  (FloatSwitch.lastfreq s' <> 0 ->
     Forall (fun x => x <> 0) (FloatSwitch.freq s') /\
     FloatSwitch.lastfreq s' = GetFrequency s' /\
     rate_execs (snd r) = [Exec SiteRateChange a (env (fst r))]) /\
  (FloatSwitch.lastfreq s' = 0 -> rate_execs (snd r) = []) /\
  (Forall (fun x => x <> 0) (FloatSwitch.freq s') -> GetFrequency s' <> 0 ->
     FloatSwitch.lastfreq s' <> 0).
Proof.
  intros Hwf Hs Hi Hr Hst Hb Ha Hl r s'. subst s' r.
  rewrite (scan_switch_accept_on t gpio 0 st s Hs Hi Hr Hst Hb), switch_on_eq.
  pose proof (lookup_lt_Some _ _ _ Hs) as Hlt.
  pose proof (on_entry_slot 0 t st Hlt) as Hslot. rewrite (sw_lookup _ _ _ Hs) in Hslot.
  destruct (on_entry_rest 0 t st) as (_ & _ & _ & _ & _ & Hf & Hrc & _ & Hwf').
  specialize (Hwf' Hwf). rewrite Ha in Hrc.
  set (st1 := on_entry 0 t st) in *.
  assert (Hl1 : FloatSwitch.lastfreq (sw0 st1) = 0).
  { unfold sw0. rewrite Hslot. unfold activate; simpl. destruct (negb _); exact Hl. }
  destruct (rate_change_warmup st1 a Hwf' Hrc Hl1) as [Hyes Hno].
  cbv zeta in Hyes, Hno. cbn [fst snd].
  rewrite rate_execs_app, rate_execs_Action by discriminate. cbn [app].
  destruct (classic_full st1) as [Hfull|Hnot].
  - destruct (Hyes Hfull) as (E1 & E2 & E3). rewrite E1, E2, E3.
    destruct Hfull as [Hne HF].
    change (FloatSwitch.lastfreq (FloatSwitch.set_lastfreq ?v ?x)) with v.
    change (FloatSwitch.freq (FloatSwitch.set_lastfreq ?v ?x)) with (FloatSwitch.freq x).
    split; [|split].
    + intros _. split; [exact HF|]. split; [|reflexivity].
      rewrite Hf. apply GetFrequency_ext. reflexivity.
    + intros E. contradiction.
    + intros _ _. exact Hne.
  - rewrite (Hno Hnot). cbn [fst snd]. rewrite Hl1. split; [|split].
    + intros E. congruence.
    + reflexivity.
    + intros HF Hg. exfalso. apply Hnot. split; [|exact HF]. by rewrite Hf.
Qed.

(** ** One pass over the switches *)

Lemma scan_switch_cases t gpio ID st :
  scan_switch t gpio ID st = (st, []) \/
  scan_switch t gpio ID st = switch_on ID t st \/
  scan_switch t gpio ID st = switch_off ID t LOW st.
Proof.
  unfold scan_switch.
  destruct (gpio (FloatSwitch.pin (ConfigData.sw ID (cd st)))); cbn [lev];
    [change (HIGH =? HIGH) with true | change (LOW =? HIGH) with false];
    cbv iota; repeat break_if; auto.
Qed.

Lemma scan_fold_prefix t gpio IDs st pre :
  fold_left
    (fun (acc : Sys * list Event) (ID : nat) =>
       let '(st', ev) := scan_switch t gpio ID (fst acc) in (st', snd acc ++ ev))
    IDs (st, pre)
  = (fst (scan_from t gpio IDs st), pre ++ snd (scan_from t gpio IDs st)).
Proof.
  unfold scan_from. revert st pre. induction IDs as [|ID IDs IH]; intros st pre.
  - simpl. by rewrite app_nil_r.
  - cbn [fold_left fst snd]. destruct (scan_switch t gpio ID st) as [st1 ev1].
    rewrite (IH st1 (pre ++ ev1)), (IH st1 ([] ++ ev1)). cbn [fst snd app].
    by rewrite app_assoc.
Qed.

Lemma scan_from_cons t gpio ID IDs st :
  scan_from t gpio (ID :: IDs) st =
    (fst (scan_from t gpio IDs (fst (scan_switch t gpio ID st))),
     snd (scan_switch t gpio ID st)
     ++ snd (scan_from t gpio IDs (fst (scan_switch t gpio ID st)))).
Proof.
  unfold scan_from at 1. cbn [fold_left fst snd].
  destruct (scan_switch t gpio ID st) as [st1 ev1]. cbn [app fst snd].
  apply scan_fold_prefix.
Qed.

(** An invariant of the state and a property of the launched commands
    carry over from one switch to the whole pass. *)
Lemma scan_from_ind (I : Sys -> Prop) (P : Event -> Prop) t gpio IDs :
  (forall ID st, In ID IDs -> I st ->
     I (fst (scan_switch t gpio ID st)) /\ Forall P (snd (scan_switch t gpio ID st))) ->
  forall st, I st ->
    I (fst (scan_from t gpio IDs st)) /\ Forall P (snd (scan_from t gpio IDs st)).
Proof.
  induction IDs as [|ID IDs IH]; intros Hstep st HI.
  - split; [exact HI | constructor].
  - rewrite scan_from_cons. cbn [fst snd].
    destruct (Hstep ID st (or_introl eq_refl) HI) as [HI1 HP1].
    destruct (IH (fun ID' st' H => Hstep ID' st' (or_intror H)) _ HI1) as [HI2 HP2].
    split; [exact HI2 | by apply Forall_app].
Qed.

(** *** What the two branches leave alone *)

Lemma switch_off_rest ID t raw st :
  let st' := fst (switch_off ID t raw st) in
  overduenotice st' = (if (ID =? 0)%nat then false else overduenotice st) /\
  LastConfigCheck st' = LastConfigCheck st /\ hash st' = hash st /\
  LogLevel st' = LogLevel st /\ LogFileName st' = LogFileName st /\
  ConfigData.overdue (cd st') = ConfigData.overdue (cd st) /\
  (wf st -> wf st').
Proof.
  unfold switch_off. destruct (ID =? 0)%nat; cbn [fst]; simpl;
    (do 6 (split; [reflexivity|])); intros Hwf; apply wf_upd; auto.
Qed.

Lemma switch_off_other ID ID' t raw st :
  ID <> ID' ->
  ConfigData.sw ID' (cd (fst (switch_off ID t raw st))) = ConfigData.sw ID' (cd st).
Proof.
  intros Hne. unfold switch_off. destruct (ID =? 0)%nat; simpl; by rewrite sw_upd_ne.
Qed.

Lemma switch_on_rest ID t st :
  let st' := fst (switch_on ID t st) in
  overduenotice st' = overduenotice st /\
  LastConfigCheck st' = LastConfigCheck st /\ hash st' = hash st /\
  LogLevel st' = LogLevel st /\ LogFileName st' = LogFileName st /\
  (wf st -> wf st').
Proof.
  rewrite switch_on_eq. cbn [fst].
  destruct (rate_change_rest ID (on_entry ID t st)) as (H1 & _ & H3 & H4 & H5 & H6 & H7).
  destruct (on_entry_rest ID t st) as (G1 & G2 & G3 & G4 & G5 & _ & _ & _ & G9).
  cbv zeta in *. rewrite H1, H3, H4, H5, H6, G1, G2, G3, G4, G5.
  do 5 (split; [reflexivity|]). auto.
Qed.

Lemma switch_on_other ID ID' t st :
  ID <> ID' -> ID' <> 0%nat ->
  ConfigData.sw ID' (cd (fst (switch_on ID t st))) = ConfigData.sw ID' (cd st).
Proof.
  intros Hne H0. rewrite switch_on_eq. cbn [fst].
  rewrite rate_change_other by exact H0. by apply on_entry_other.
Qed.

(** A switch other than switch 0 leaves switch 0 and the overdue flag
    alone. *)
Lemma scan_switch_keeps_sw0 t gpio ID st :
  ID <> 0%nat ->
  sw0 (fst (scan_switch t gpio ID st)) = sw0 st /\
  overduenotice (fst (scan_switch t gpio ID st)) = overduenotice st.
Proof.
  intros Hne. unfold sw0.
  destruct (scan_switch_cases t gpio ID st) as [E|[E|E]]; rewrite E.
  - done.
  - rewrite switch_on_eq. cbn [fst].
    rewrite (rate_change_skip ID) by auto. cbn [fst].
    split; [by apply on_entry_other | apply on_entry_rest].
  - split; [by apply switch_off_other|].
    destruct (switch_off_rest ID t LOW st) as [H _]. rewrite H.
    apply Nat.eqb_neq in Hne. by rewrite Hne.
Qed.

Lemma scan_switch_wf t gpio ID st : wf st -> wf (fst (scan_switch t gpio ID st)).
Proof.
  intros Hwf. destruct (scan_switch_cases t gpio ID st) as [E|[E|E]]; rewrite E.
  - done.
  - by apply switch_on_rest.
  - by apply switch_off_rest.
Qed.

(** Switch 0 itself either leaves the overdue flag alone or goes Off. *)
Lemma scan_switch_0_flag t gpio st :
  (0 < length (ConfigData.switchlist (cd st)))%nat ->
  overduenotice (fst (scan_switch t gpio 0 st)) = overduenotice st \/
  (overduenotice (fst (scan_switch t gpio 0 st)) = false /\
   FloatSwitch.state (sw0 (fst (scan_switch t gpio 0 st))) = LOW /\
   FloatSwitch.LastOff (sw0 (fst (scan_switch t gpio 0 st))) = t).
Proof.
  intros Hlt. destruct (scan_switch_cases t gpio 0 st) as [E|[E|E]]; rewrite E.
  - by left.
  - left. apply switch_on_rest.
  - right. destruct (switch_off_rest 0 t LOW st) as [H _]. cbv zeta in H.
    rewrite H. unfold sw0. rewrite switch_off_slot by exact Hlt. done.
Qed.

(** *** The commands a pass can launch *)

Lemma Action_not_overdue site a e :
  site <> SiteOverdue -> Forall not_overdue (Action site a e).
Proof.
  intros H. destruct a; simpl; [|constructor].
  constructor; [|constructor]. destruct site; simpl; auto.
Qed.

Lemma Action_sound_ratio site a e : Forall sound_ratio (Action site a e).
Proof. destruct a; simpl; repeat constructor. Qed.

Lemma rate_change_events ID st :
  Forall not_overdue (snd (rate_change ID st)) /\
  Forall sound_ratio (snd (rate_change ID st)).
Proof.
  unfold rate_change.
  destruct (Nat.eqb_spec ID 0); cbn [andb]; [|split; constructor].
  destruct (Z.eqb_spec (ConfigData.freq (cd st)) 0) as [|Hf]; cbn [andb negb];
    [split; constructor|].
  repeat break_if; cbn [snd]; split;
    repeat (first [ apply Forall_cons; split; [simpl; auto|]
                  | apply Action_not_overdue; discriminate
                  | apply Action_sound_ratio
                  | apply Forall_nil_2 ]).
Qed.

Lemma scan_switch_events t gpio ID st :
  Forall not_overdue (snd (scan_switch t gpio ID st)) /\
  Forall sound_ratio (snd (scan_switch t gpio ID st)).
Proof.
  destruct (scan_switch_cases t gpio ID st) as [E|[E|E]]; rewrite E.
  - split; constructor.
  - rewrite switch_on_eq. cbn [snd].
    destruct (rate_change_events ID (on_entry ID t st)).
    split; apply Forall_app; split; auto using Action_sound_ratio.
    apply Action_not_overdue; discriminate.
  - unfold switch_off. cbn [snd]. split; [|apply Action_sound_ratio].
    apply Action_not_overdue; discriminate.
Qed.

Lemma overdue_execs_none evs : Forall not_overdue evs -> overdue_execs evs = [].
Proof.
  induction 1 as [|ev evs H _ IH]; [done|].
  unfold overdue_execs in *. simpl. rewrite IH.
  destruct ev as [[] ? ?|]; simpl in *; auto; contradiction.
Qed.

Lemma overdue_execs_app a b : overdue_execs (a ++ b) = overdue_execs a ++ overdue_execs b.
Proof. apply List.filter_app. Qed.

(** ** Reload of the configuration at run time *)

Lemma runtime_eq_refl s : runtime_eq s s.
Proof. repeat split. Qed.

Lemma frame_refl c : frame c c.
Proof. repeat split. by left. Qed.

Lemma capacity_of_ext c c' :
  ConfigData.sumpdiameter c' = ConfigData.sumpdiameter c ->
  ConfigData.sumpdepth c' = ConfigData.sumpdepth c ->
  capacity_of c' = capacity_of c.
Proof. intros H1 H2. unfold capacity_of, disc. by rewrite H1, H2. Qed.

Lemma frame_trans c1 c2 c3 : frame c1 c2 -> frame c2 c3 -> frame c1 c3.
Proof.
  intros (A0 & A1 & A2 & A3 & A4 & A5 & A6 & A7 & A8 & A9)
         (B0 & B1 & B2 & B3 & B4 & B5 & B6 & B7 & B8 & B9).
  split; [congruence|]. split; [|do 7 (split; [congruence|])].
  2:{ rewrite (capacity_of_ext c1 c2 A3 A2) in B9.
      destruct A9, B9; [left|right|right|right]; congruence. }
  intros ID. destruct (A1 ID) as (a1 & a2 & a3 & a4 & a5 & a6 & a7).
  destruct (B1 ID) as (b1 & b2 & b3 & b4 & b5 & b6 & b7).
  repeat split; congruence.
Qed.

Lemma frame_upd ID f c :
  (forall s, runtime_eq s (f s)) -> frame c (ConfigData.upd ID f c).
Proof.
  intros Hf. split; [apply length_upd|]. split; [|repeat split; by left].
  intros ID'. rewrite sw_upd. case_decide as H.
  - destruct H as [<- _]. apply Hf.
  - apply runtime_eq_refl.
Qed.

Lemma frame_wf c c' : frame c c' -> wf_cd c -> wf_cd c'.
Proof.
  intros (Hlen & Hsw & _) Hwf. split; [destruct Hwf; congruence|].
  apply Forall_lookup_2. intros i s' Hi.
  destruct (Hsw i) as (_ & _ & _ & Hfreq & _).
  rewrite (sw_lookup _ _ _ Hi) in Hfreq. rewrite Hfreq. by apply sw_ring.
Qed.

Lemma reload_keeps_refl st : reload_keeps st st.
Proof. split; [apply frame_refl | done]. Qed.

Lemma reload_keeps_trans st1 st2 st3 :
  reload_keeps st1 st2 -> reload_keeps st2 st3 -> reload_keeps st1 st3.
Proof.
  intros (A & A1 & A2) (B & B1 & B2).
  split; [by eapply frame_trans | split; congruence].
Qed.

Lemma on_cd_keeps f st :
  frame (cd st) (f (cd st)) -> reload_keeps st (on_cd f st).
Proof. intros H. split; [exact H | done]. Qed.

Lemma apply_line_runtime l st :
  exists st', apply_line false l st = Ret st' /\ reload_keeps st st'.
Proof.
  destruct l as [| | | | | | | | | | |c6 c7 p]; cbn [apply_line negb];
    try (eexists; split; [reflexivity|];
         first [apply reload_keeps_refl | apply on_cd_keeps; repeat split; by left]).
  - eexists; split; [reflexivity|]. split; [apply frame_refl | done].
  - eexists; split; [reflexivity|]. split; [apply frame_refl | done].
  - destruct (switch_id c6 c7) as [ID|]; [|eexists; split; [reflexivity | apply reload_keeps_refl]].
    destruct p; eexists; (split; [reflexivity|]);
      try apply reload_keeps_refl;
      apply on_cd_keeps, frame_upd; intros s; repeat split.
Qed.

Lemma apply_lines_runtime ls st :
  exists st', apply_lines false ls st = Ret st' /\ reload_keeps st st'.
Proof.
  revert st. induction ls as [|l ls IH]; intros st.
  - exists st. split; [reflexivity | apply reload_keeps_refl].
  - cbn [apply_lines]. destruct (apply_line_runtime l st) as (st1 & E1 & K1).
    rewrite E1. cbn [bind]. destruct (IH st1) as (st2 & E2 & K2).
    exists st2. split; [exact E2 | by eapply reload_keeps_trans].
Qed.

Lemma set_hash_keeps h st : reload_keeps st (set_hash h st).
Proof. split; [apply frame_refl | done]. Qed.

Lemma load_config_runtime w st :
  exists st', load_config w false st = Ret st' /\ reload_keeps st st'.
Proof.
  unfold load_config. destruct (conffile w) as [ls|].
  - destruct (apply_lines_runtime ls st) as (st1 & E1 & K1). rewrite E1. cbn [bind].
    eexists. split; [reflexivity|]. eapply reload_keeps_trans; [exact K1|].
    apply on_cd_keeps. repeat split. by right.
  - exists st. split; [reflexivity | apply reload_keeps_refl].
Qed.

(** A reload at run time always returns, and keeps the runtime fields. *)
Lemma RefreshConfig_runtime w st :
  exists st', RefreshConfig w false st = Ret st' /\ reload_keeps st st'.
Proof.
  unfold RefreshConfig. cbn [negb].
  destruct (configsum w) as [rd|]; [|exists st; split; [done | apply reload_keeps_refl]].
  destruct (String.eqb (hash st) (read_sum w rd));
    [exists st; split; [done | apply reload_keeps_refl]|].
  destruct (load_config_runtime w (set_hash (read_sum w rd) st)) as (st' & E & K).
  exists st'. split; [exact E|]. eapply reload_keeps_trans; [apply set_hash_keeps | exact K].
Qed.

(** ** One pass of the loop *)

Lemma overdue_check_rest t st :
  let st' := fst (overdue_check t st) in
  cd st' = cd st /\ env st' = env st /\ LastConfigCheck st' = LastConfigCheck st.
Proof. unfold overdue_check. repeat break_if; done. Qed.

Lemma overdue_check_notified t st :
  overduenotice st = true -> overdue_check t st = (st, []).
Proof. intros H. unfold overdue_check. rewrite H. by rewrite andb_false_r. Qed.

Lemma overdue_check_off t st :
  FloatSwitch.state (sw0 st) <> HIGH -> overdue_check t st = (st, []).
Proof. intros H. unfold overdue_check. apply Z.eqb_neq in H. by rewrite H. Qed.


Lemma seq_tail_nonzero n ID : In ID (seq 1 n) -> ID <> 0%nat.
Proof. rewrite in_seq. lia. Qed.

Lemma scan_tail_keeps t gpio IDs st :
  (forall ID, In ID IDs -> ID <> 0%nat) ->
  sw0 (fst (scan_from t gpio IDs st)) = sw0 st /\
  overduenotice (fst (scan_from t gpio IDs st)) = overduenotice st.
Proof.
  intros Hnz.
  apply (scan_from_ind
           (fun st' => sw0 st' = sw0 st /\ overduenotice st' = overduenotice st)
           (fun _ => True) t gpio IDs); [|done].
  intros ID st' Hin [H1 H2].
  destruct (scan_switch_keeps_sw0 t gpio ID st' (Hnz _ Hin)) as [E1 E2].
  split; [split; congruence|]. apply Forall_forall. done.
Qed.

(** The pass over the hundred slots, switch 0 first. *)
Lemma scan_switches_unfold t gpio st :
  scan_switches t gpio st = scan_from t gpio (0%nat :: seq 1 99) st.
Proof. reflexivity. Qed.

Lemma scan_switches_events t gpio st :
  wf st ->
  wf (fst (scan_switches t gpio st)) /\
  Forall (fun ev => not_overdue ev /\ sound_ratio ev) (snd (scan_switches t gpio st)).
Proof.
  rewrite scan_switches_unfold.
  apply (scan_from_ind wf (fun ev => not_overdue ev /\ sound_ratio ev)).
  intros ID st' _ Hwf. split; [by apply scan_switch_wf|].
  destruct (scan_switch_events t gpio ID st') as [H1 H2].
  rewrite Forall_forall in *. auto.
Qed.

Lemma scan_from_flag t gpio IDs st :
  (forall ID, In ID IDs -> ID <> 0%nat) ->
  (0 < length (ConfigData.switchlist (cd st)))%nat ->
  overduenotice (fst (scan_from t gpio (0%nat :: IDs) st)) = overduenotice st \/
  (overduenotice (fst (scan_from t gpio (0%nat :: IDs) st)) = false /\
   FloatSwitch.state (sw0 (fst (scan_from t gpio (0%nat :: IDs) st))) = LOW /\
   FloatSwitch.LastOff (sw0 (fst (scan_from t gpio (0%nat :: IDs) st))) = t).
Proof.
  intros Hnz Hlen. rewrite scan_from_cons. cbn [fst].
  destruct (scan_tail_keeps t gpio IDs (fst (scan_switch t gpio 0 st)) Hnz) as [E1 E2].
  rewrite E1, E2. by apply scan_switch_0_flag.
Qed.

(** Over a whole pass the overdue flag is kept unless switch 0 went Off. *)
Lemma scan_switches_flag t gpio st :
  wf st ->
  overduenotice (fst (scan_switches t gpio st)) = overduenotice st \/
  (overduenotice (fst (scan_switches t gpio st)) = false /\
   FloatSwitch.state (sw0 (fst (scan_switches t gpio st))) = LOW /\
   FloatSwitch.LastOff (sw0 (fst (scan_switches t gpio st))) = t).
Proof.
  intros [Hlen _]. rewrite scan_switches_unfold.
  apply scan_from_flag; [apply seq_tail_nonzero|].
  rewrite Hlen. apply Nat.lt_0_succ.
Qed.

(** The shape of one pass: the overdue check, a reload that keeps the
    runtime fields, the scan. *)
Lemma tick_shape i st :
  exists st2,
    reload_keeps (fst (overdue_check (now i) st)) st2 /\
    tick i st =
      Ret (fst (scan_switches (now i) (gpio i) st2),
           snd (overdue_check (now i) st) ++ snd (scan_switches (now i) (gpio i) st2)).
Proof.
  unfold tick. destruct (overdue_check (now i) st) as [st1 ev1]. cbn [fst snd].
  destruct (180 <? now i - LastConfigCheck st1).
  - destruct (RefreshConfig_runtime (world i) (set_LastConfigCheck (now i) st1))
      as (st2 & E & K).
    rewrite E. cbn [bind]. exists st2. split.
    + eapply reload_keeps_trans; [|exact K]. split; [apply frame_refl | done].
    + by destruct (scan_switches (now i) (gpio i) st2).
  - cbn [bind]. exists st1. split; [apply reload_keeps_refl|].
    by destruct (scan_switches (now i) (gpio i) st1).
Qed.

Lemma reload_keeps_wf st st' : reload_keeps st st' -> wf st -> wf st'.
Proof. intros [H _]. unfold wf. by apply frame_wf. Qed.

(** One pass always completes. Its overdue commands are those of the
    overdue check, its quotients have nonzero divisors, and the flag the
    check leaves is kept unless switch 0 goes Off. *)
Lemma tick_spec i st :
  wf st ->
  exists st' ev,
    tick i st = Ret (st', ev) /\ wf st' /\
    Forall sound_ratio ev /\
    overdue_execs ev = overdue_execs (snd (overdue_check (now i) st)) /\
    (overduenotice st' = overduenotice (fst (overdue_check (now i) st)) \/
     (overduenotice st' = false /\ FloatSwitch.state (sw0 st') = LOW)).
Proof.
  intros Hwf. destruct (tick_shape i st) as (st2 & K & E).
  destruct (overdue_check_rest (now i) st) as (Hcd & _ & _). cbv zeta in Hcd.
  assert (Hwf1 : wf (fst (overdue_check (now i) st))) by (unfold wf; by rewrite Hcd).
  pose proof (reload_keeps_wf _ _ K Hwf1) as Hwf2.
  destruct (scan_switches_events (now i) (gpio i) st2 Hwf2) as [Hwf3 Hev].
  eexists _, _. split; [exact E|]. split; [exact Hwf3|].
  split; [|split].
  - apply Forall_app. split.
    + unfold overdue_check. repeat break_if; cbn [snd];
        auto using Action_sound_ratio, Forall_nil_2.
    + eapply Forall_impl; [exact Hev|]. by intros ? [_ ?].
  - rewrite overdue_execs_app.
    rewrite (overdue_execs_none (snd (scan_switches (now i) (gpio i) st2))).
    + by rewrite app_nil_r.
    + eapply Forall_impl; [exact Hev|]. by intros ? [? _].
  - destruct K as (_ & Kf & _).
    destruct (scan_switches_flag (now i) (gpio i) st2 Hwf2) as [H|(H1 & H2 & _)].
    + left. congruence.
    + right. done.
Qed.

(** ** Runs *)

Lemma HIGH_not_LOW : HIGH <> LOW.
Proof. discriminate. Qed.

(** Once the flag is up, no pass inside the same On-episode launches an
    overdue command, whatever the clock, the pins and the reloads do. *)
Lemma run_notified ins st :
  wf st -> overduenotice st = true -> stays_on ins st ->
  exists st' evs,
    run ins st = Ret (st', evs) /\ overdue_execs evs = [] /\
    overduenotice st' = true /\ wf st'.
Proof.
  revert st. induction ins as [|i ins IH]; intros st Hwf Hflag Hon.
  - exists st, []. done.
  - cbn [run stays_on] in *.
    destruct (tick_spec i st Hwf) as (st1 & ev1 & E & Hwf1 & _ & Hov & Hfl).
    rewrite E in *. cbn [bind fst snd]. destruct Hon as [Hhigh Hon].
    rewrite (overdue_check_notified _ _ Hflag) in Hov, Hfl. cbn [fst snd] in Hov, Hfl.
    assert (Hflag1 : overduenotice st1 = true).
    { destruct Hfl as [H|[_ H]]; [congruence|]. rewrite Hhigh in H. discriminate. }
    destruct (IH st1 Hwf1 Hflag1 Hon) as (st' & evs & E' & Hnone & Hflag' & Hwf').
    rewrite E'. cbn [bind fst snd]. exists st', (ev1 ++ evs).
    split; [reflexivity|]. rewrite overdue_execs_app, Hov, Hnone. done.
Qed.


(** Every quotient a run evaluates has a nonzero divisor. *)
Lemma run_sound_ratio ins st :
  wf st ->
  exists st' evs, run ins st = Ret (st', evs) /\ Forall sound_ratio evs.
Proof.
  revert st. induction ins as [|i ins IH]; intros st Hwf.
  - exists st, []. split; [reflexivity | constructor].
  - cbn [run]. destruct (tick_spec i st Hwf) as (st1 & ev1 & E & Hwf1 & Hr & _).
    rewrite E. cbn [bind fst snd]. destruct (IH st1 Hwf1) as (st' & evs & E' & Hr').
    rewrite E'. cbn [bind fst snd]. exists st', (ev1 ++ evs).
    split; [reflexivity | by apply Forall_app].
Qed.

(** ** The overdue detector *)

(** The comparison of the code agrees with the condition over the integers
    when the sum fits an [int]. *)
Lemma overdue_test t st :
  Int.in_range (GetFrequency (sw0 st) + ConfigData.overduethreshold (cd st)) ->
  ((Int.add (GetFrequency (sw0 st)) (ConfigData.overduethreshold (cd st))
      <=? t - FloatSwitch.LastOff (sw0 st))
   && negb (GetFrequency (sw0 st) =? 0)) = true <-> overdue_due t st.
Proof.
  intros Hr. unfold Int.add, overdue_due. rewrite (wrap_small _ Hr).
  rewrite andb_true_iff, negb_true_iff, Z.leb_le, Z.eqb_neq. tauto.
Qed.

Lemma overdue_check_fire t st :
  FloatSwitch.state (sw0 st) = HIGH -> overduenotice st = false ->
  Int.in_range (GetFrequency (sw0 st) + ConfigData.overduethreshold (cd st)) ->
  (overdue_due t st ->
   overdue_check t st =
     (set_overduenotice true st, Action SiteOverdue (ConfigData.overdue (cd st)) (env st))) /\
  (~ overdue_due t st -> overdue_check t st = (st, [])).
Proof.
  intros Hs Hf Hr. unfold overdue_check. rewrite Hs, Hf.
  change ((HIGH =? HIGH) && negb false) with true. cbv iota.
  pose proof (overdue_test t st Hr) as Ht.
  destruct (_ && _); split; intros H; try reflexivity.
  - exfalso. apply H. by apply Ht.
  - apply Ht in H. discriminate.
Qed.





(** C10: when the condition is met and no overdue action is configured,
    nothing is launched but the episode is marked as notified; whatever
    the later passes of the same On-episode reload, they launch no overdue
    action. *)
Theorem overdue_flag_without_action :
  (forall (t : time_t) (st : Sys),
      FloatSwitch.state (sw0 st) = HIGH ->
      overduenotice st = false ->
      ConfigData.overdue (cd st) = None ->
      Int.in_range (GetFrequency (sw0 st) + ConfigData.overduethreshold (cd st)) ->
      overdue_due t st ->
      overdue_check t st = (set_overduenotice true st, [])) /\
  (forall (i : TickInput) (ins : list TickInput) (st : Sys),
      wf st ->
      FloatSwitch.state (sw0 st) = HIGH ->
      overduenotice st = false ->
      ConfigData.overdue (cd st) = None ->
      Int.in_range (GetFrequency (sw0 st) + ConfigData.overduethreshold (cd st)) ->
      overdue_due (now i) st ->
      stays_on (i :: ins) st ->
      exists st' evs,
        run (i :: ins) st = Ret (st', evs) /\ overdue_execs evs = [] /\
        overduenotice st' = true).
Proof.
  assert (H0 : forall (t : time_t) (st : Sys),
      FloatSwitch.state (sw0 st) = HIGH -> overduenotice st = false ->
      ConfigData.overdue (cd st) = None ->
      Int.in_range (GetFrequency (sw0 st) + ConfigData.overduethreshold (cd st)) ->
      overdue_due t st ->
      overdue_check t st = (set_overduenotice true st, [])).
  { intros t st Hs Hf Ha Hr Hd.
    destruct (overdue_check_fire t st Hs Hf Hr) as [H1 _]. rewrite Ha in H1. by apply H1. }
  split; [exact H0|].
  intros i ins st Hwf Hs Hf Ha Hr Hd Hon. cbn [run stays_on] in *.
  destruct (tick_spec i st Hwf) as (st1 & ev1 & E & Hwf1 & _ & Hov & Hfl).
  rewrite E in *. cbn [bind fst snd]. destruct Hon as [Hhigh Hon].
  rewrite (H0 (now i) st Hs Hf Ha Hr Hd) in Hov, Hfl. cbn [fst snd] in Hov, Hfl.
  assert (Hflag1 : overduenotice st1 = true).
  { destruct Hfl as [H|[_ H]]; [exact H|]. rewrite Hhigh in H. discriminate. }
  destruct (run_notified ins st1 Hwf1 Hflag1 Hon) as (st' & evs & E' & Hnone & Hflag' & _).
  rewrite E'. cbn [bind fst snd]. exists st', (ev1 ++ evs).
  split; [reflexivity|]. rewrite overdue_execs_app, Hov, Hnone. done.
Qed.

(** ** The guard of the rate-change detector *)

Lemma rate_change_ratio ID st n d :
  In (Ratio n d) (snd (rate_change ID st)) ->
  d = ConfigData.freq (cd st) /\ d <> 0.
Proof.
  unfold rate_change.
  destruct (Nat.eqb_spec ID 0); cbn [andb]; [|intros []].
  destruct (Z.eqb_spec (ConfigData.freq (cd st)) 0) as [|Hf]; cbn [andb negb];
    [intros []|].
  destruct (ConfigData.ratechange (cd st)); cbn [is_set]; [|intros []].
  repeat break_if; cbn [snd Action]; intros H;
    repeat (destruct H as [H|H]; try discriminate H;
            try (injection H as _ <-; split; [reflexivity | exact Hf]));
    try contradiction.
Qed.

(** C9: with a frequency of 0 the detector does nothing at all, so an
    accepted change of switch 0 to On then only runs the On action; the
    quotient baseline/frequency is only evaluated with the nonzero current
    frequency as divisor, in every run of the loop. *)
Theorem rate_change_guard :
  (forall (ID : nat) (st : Sys),
      ConfigData.freq (cd st) = 0 -> rate_change ID st = (st, [])) /\
  (forall (t : time_t) (gpio : Z -> bool) (st : Sys) (s : FloatSwitch.t),
      ConfigData.switchlist (cd st) !! 0%nat = Some s ->
      FloatSwitch.initialized s <> 0 ->
      lev (gpio (FloatSwitch.pin s)) = HIGH ->
      FloatSwitch.state s <> HIGH ->
      FloatSwitch.bouncedelay s <= t - FloatSwitch.LastOff s ->
      GetFrequency (activate t s) = 0 ->
      scan_switch t gpio 0 st =
        (on_entry 0 t st,
         Action (SiteSwitchOn 0) (FloatSwitch.OnAction s) (env (on_entry 0 t st))) /\
      FloatSwitch.lastfreq (sw0 (on_entry 0 t st)) = FloatSwitch.lastfreq s) /\
  (forall (ID : nat) (st : Sys) (n d : Z),
      In (Ratio n d) (snd (rate_change ID st)) ->
      d = ConfigData.freq (cd st) /\ d <> 0) /\
  (forall (ins : list TickInput) (st : Sys),
      wf st ->
      exists st' evs,
        run ins st = Ret (st', evs) /\
        forall n d : Z, In (Ratio n d) evs -> d <> 0).
Proof.
  split; [|split; [|split]].
  - intros ID st H. apply rate_change_skip. auto.
  - intros t gpio st s Hs Hi Hr Hst Hb Hz.
    rewrite (scan_switch_accept_on t gpio 0 st s Hs Hi Hr Hst Hb), switch_on_eq.
    pose proof (on_entry_slot 0 t st (lookup_lt_Some _ _ _ Hs)) as Hslot.
    rewrite (sw_lookup _ _ _ Hs) in Hslot.
    destruct (on_entry_rest 0 t st) as (_ & _ & _ & _ & _ & Hf & _).
    unfold sw0 in *. rewrite Hslot in Hf. rewrite Hz in Hf.
    rewrite (rate_change_skip 0 (on_entry 0 t st)) by auto.
    cbn [fst snd]. rewrite app_nil_r, Hslot. split.
    + do 2 f_equal. unfold activate; simpl. by destruct (negb _).
    + unfold activate; simpl. by destruct (negb _).
  - apply rate_change_ratio.
  - intros ins st Hwf. destruct (run_sound_ratio ins st Hwf) as (st' & evs & E & H).
    exists st', evs. split; [exact E|]. intros n d Hin.
    rewrite List.Forall_forall in H. exact (H _ Hin).
Qed.

(** ** The runtime reload *)

(** C5: a reload at run time always returns, and it keeps, for every
    switch, the state, both timestamps, the interval history, the baseline,
    the pin and the initialised mark, and for the pit the depth, the
    diameter and both water marks; the capacity stays what the geometry
    gives. What is left to change is the level, the bounce delay and the
    actions of the switches, the two thresholds and their actions. *)
Theorem reload_keeps_runtime_state (w : World) (st : Sys) :
  exists st', RefreshConfig w false st = Ret st' /\ frame (cd st) (cd st').
Proof.
  destruct (RefreshConfig_runtime w st) as (st' & E & K & _). by exists st'.
Qed.

(** A change of the bounce delay alone: the new delay is installed and the
    history, the state and the timestamps of a switch that is On are kept. *)
Example reload_bounce_only :
  exists st',
    RefreshConfig rebounce false (running (basement stuck)) = Ret st' /\
    FloatSwitch.bouncedelay (sw0 st') = 9 /\
    FloatSwitch.freq (sw0 st') = [100; 100; 100; 100] /\
    FloatSwitch.state (sw0 st') = HIGH /\
    FloatSwitch.LastOn (sw0 st') = 1000 /\
    FloatSwitch.LastOff (sw0 st') = 900.
Proof. eexists. split; [reflexivity|]. repeat split. Qed.

(** A reload that cannot read its files returns and changes nothing in
    [cd], the log level or the name of the log file. *)
Lemma reload_failure_nonfatal w st :
  configsum w = None \/ conffile w = None ->
  exists st',
    RefreshConfig w false st = Ret st' /\ cd st' = cd st /\
    LogLevel st' = LogLevel st /\ LogFileName st' = LogFileName st /\
    overduenotice st' = overduenotice st /\ env st' = env st.
Proof.
  intros H. unfold RefreshConfig, load_config. cbn [negb].
  destruct (configsum w) as [rd|]; [|by exists st].
  destruct H as [H|H]; [discriminate|]. rewrite H.
  destruct (String.eqb _ _); eexists; (split; [reflexivity|]); done.
Qed.

(** C6, at the input where it fails: the edited file cannot be opened at
    the first check, so nothing is loaded, but its checksum is already
    remembered; at the next check the file can be opened and has the same
    checksum, so it is taken as unchanged and is not parsed. The same file,
    met readable at the first check, is loaded. *)
Theorem failed_reload_forgets_change :
  RefreshConfig locked false loaded = Ret (set_hash "9f86d081884c7d65" loaded) /\
  RefreshConfig readable false (set_hash "9f86d081884c7d65" loaded)
    = Ret (set_hash "9f86d081884c7d65" loaded) /\
  (exists st' evs,
      run [mkTick 1200 (reads []) locked; mkTick 1400 (reads []) readable] loaded
        = Ret (st', evs) /\
      ConfigData.overduethreshold (cd st') = 120) /\
  (exists st' evs,
      run [mkTick 1200 (reads []) readable] loaded = Ret (st', evs) /\
      ConfigData.overduethreshold (cd st') = 300).
Proof.
  split; [reflexivity|]. split; [reflexivity|].
  split; eexists _, _; (split; [vm_compute; reflexivity | reflexivity]).
Qed.

(** ** The published metrics *)


Lemma SetEnvironment_lookup s c e :
  let e' := SetEnvironment s c e in
  e' !! "SAFREQ" = Some (pretty (ConfigData.freq c)) /\
  e' !! "SAFREQF" =
    Some (pretty (Int.div (ConfigData.freq c) 60) +:+ "m "
          +:+ pretty (Int.rem (ConfigData.freq c) 60) +:+ "s") /\
  e' !! "SAVOLUME" = Some (pretty (env_vol s c)) /\
  e' !! "SARATE" = Some (pretty (env_rate c)) /\
  e' !! "SATIMELEFT" = Some (pretty (env_timeleft s c)) /\
  e' !! "SATIMELEFTM" = Some (pretty (Int.div (env_timeleft s c) 60)) /\
  e' !! "SAFREQM" = e !! "SAFREQM".
Proof.
  unfold SetEnvironment. cbv zeta.
  repeat split;
    repeat (rewrite lookup_insert_ne by discriminate);
    try reflexivity; apply lookup_insert_eq.
Qed.



(** The end-to-end figures: pit 760 deep and 510 across, marks at 114 and
    222, switch 0 every 150 seconds. The rate of 529 is the integer part of
    the exact value of the formula, and the time left follows from it. *)
Example metrics_end_to_end :
  let c := ConfigData.set_freq 150 (basement pump) in
  capacity_of c = 155 /\ env_vol pump c = 40 /\ env_rate c = 529 /\
  env_timeleft pump c = 782 /\
  529 * (100000000 * 400 * 10 * 1000 * 150)
    <= 314159265 * (510 * 510) * (222 - 114) * 3600
    < 530 * (100000000 * 400 * 10 * 1000 * 150).
Proof. cbv zeta. repeat split; try (vm_compute; reflexivity); lia. Qed.


(** That installation stays inside the arithmetic C defines: the negative
    figures are what the program publishes. *)
Example exchanged_defined : SetEnvironment_defined pump exchanged.
Proof.
  split; [|split].
  - vm_compute. split; discriminate.
  - intros _. split; [split; vm_compute; discriminate|].
    vm_compute. split; discriminate.
  - intros _. split; [|split].
    + split; vm_compute; discriminate.
    + split; vm_compute; discriminate.
    + split; [vm_compute; discriminate|].
      intros [_ H]. vm_compute in H. discriminate.
Qed.

(** ** The published names *)

Lemma SetEnvironment_inherits s c e : SetEnvironment s c e !! "SAFREQM" = e !! "SAFREQM".
Proof. apply SetEnvironment_lookup. Qed.

Lemma Action_inherits v site a e : e !! "SAFREQM" = v -> Forall (inherits v) (Action site a e).
Proof. intros H. destruct a; simpl; repeat constructor. exact H. Qed.

Lemma rate_change_inherits v ID st :
  env st !! "SAFREQM" = v ->
  env (fst (rate_change ID st)) !! "SAFREQM" = v /\
  Forall (inherits v) (snd (rate_change ID st)).
Proof.
  intros H. destruct (rate_change_rest ID st) as (_ & He & _). cbv zeta in He.
  rewrite He. split; [exact H|].
  unfold rate_change. repeat break_if; cbn [snd];
    repeat (first [ apply Forall_cons; split; [exact I|]
                  | by apply Action_inherits
                  | apply Forall_nil_2 ]).
Qed.

Lemma scan_switch_inherits v t gpio ID st :
  env st !! "SAFREQM" = v ->
  env (fst (scan_switch t gpio ID st)) !! "SAFREQM" = v /\
  Forall (inherits v) (snd (scan_switch t gpio ID st)).
Proof.
  intros H. destruct (scan_switch_cases t gpio ID st) as [E|[E|E]]; rewrite E.
  - split; [exact H | constructor].
  - rewrite switch_on_eq. cbn [fst snd].
    assert (H1 : env (on_entry ID t st) !! "SAFREQM" = v).
    { unfold on_entry; simpl. by rewrite SetEnvironment_inherits. }
    destruct (rate_change_inherits v ID (on_entry ID t st) H1) as [H2 H3].
    split; [exact H2|]. apply Forall_app. split; [by apply Action_inherits | exact H3].
  - unfold switch_off. cbn [fst snd]. destruct (ID =? 0)%nat; simpl;
      rewrite SetEnvironment_inherits; (split; [exact H|]);
      apply Action_inherits; by rewrite SetEnvironment_inherits.
Qed.

Lemma tick_inherits v i st :
  env st !! "SAFREQM" = v ->
  exists st' ev,
    tick i st = Ret (st', ev) /\ env st' !! "SAFREQM" = v /\ Forall (inherits v) ev.
Proof.
  intros H. destruct (tick_shape i st) as (st2 & (_ & _ & Ke) & E).
  destruct (overdue_check_rest (now i) st) as (_ & He & _). cbv zeta in He.
  assert (H2 : env st2 !! "SAFREQM" = v) by (rewrite Ke, He; exact H).
  destruct (scan_from_ind (fun st' => env st' !! "SAFREQM" = v) (inherits v)
              (now i) (gpio i) (seq 0 100)
              (fun ID st' _ H' => scan_switch_inherits v (now i) (gpio i) ID st' H')
              st2 H2) as [H3 H4].
  eexists _, _. split; [exact E|]. split; [exact H3|].
  apply Forall_app. split; [|exact H4].
  unfold overdue_check. repeat break_if; cbn [snd];
    first [by apply Action_inherits | constructor].
Qed.

(** C8, at what the code does: [SetEnvironment] publishes [SAFREQ] and
    [SAFREQF] and never writes [SAFREQM]; every command launched in any run
    of the loop finds [SAFREQM] as the process itself inherited it. In the
    sample installation the On action of switch 0 sees [SAFREQ] and
    [SAFREQF] and no [SAFREQM]. *)
Theorem SAFREQM_never_published :
  (forall (s : FloatSwitch.t) (c : ConfigData.t) (e : Env),
      SetEnvironment s c e !! "SAFREQ" = Some (pretty (ConfigData.freq c)) /\
      SetEnvironment s c e !! "SAFREQF" =
        Some (pretty (Int.div (ConfigData.freq c) 60) +:+ "m "
              +:+ pretty (Int.rem (ConfigData.freq c) 60) +:+ "s") /\
      SetEnvironment s c e !! "SAFREQM" = e !! "SAFREQM") /\
  (forall (ins : list TickInput) (st : Sys),
      exists st' evs,
        run ins st = Ret (st', evs) /\
        Forall (inherits (env st !! "SAFREQM")) evs) /\
  (exists e : Env,
      snd (scan_switch 1100 (reads [14]) 0 (running (basement pump))) =
        [Exec (SiteSwitchOn 0) "echo Switch0On" e; Exec SiteRateChange "mail rate" e] /\
      e !! "SAFREQ" = Some "100" /\ e !! "SAFREQF" = Some "1m 40s" /\
      e !! "SAFREQM" = None).
Proof.
  split; [|split].
  - intros s c e. destruct (SetEnvironment_lookup s c e) as (H1 & H2 & _ & _ & _ & _ & H3).
    auto.
  - intros ins st. generalize (eq_refl (env st !! "SAFREQM")).
    generalize (env st !! "SAFREQM") at 2 3. intros v. revert st.
    induction ins as [|i ins IH]; intros st Hv.
    + exists st, []. split; [reflexivity | constructor].
    + cbn [run]. destruct (tick_inherits v i st Hv) as (st1 & ev1 & E & Hv1 & H1).
      rewrite E. cbn [bind fst snd]. destruct (IH st1 Hv1) as (st' & evs & E' & H').
      rewrite E'. cbn [bind fst snd]. exists st', (ev1 ++ evs).
      split; [reflexivity | by apply Forall_app].
  - eexists. split; [vm_compute; reflexivity|]. repeat split.
Qed.

(** ** The sample installation at work *)

Lemma wf_basement s0 :
  length (FloatSwitch.freq s0) = FREQ_HISTORY -> wf_cd (basement s0).
Proof.
  intros H. split; [reflexivity|].
  unfold basement, slots. cbn [ConfigData.switchlist].
  apply Forall_cons. split; [exact H|].
  apply Forall_cons. split; [reflexivity|].
  apply Forall_replicate. reflexivity.
Qed.


Lemma wf_unconfigured : wf unconfigured.
Proof. split; [reflexivity|]. apply (wf_basement stuck eq_refl). Qed.

Lemma wf_running_pump : wf (running (basement pump)).
Proof. apply (wf_basement pump eq_refl). Qed.

(** The overdue scenario: due at 1020 and launched once; still On at 1100,
    nothing more; Off at 1101 and On again at 1110, the new frequency is
    102, and the action is launched a second time at 1223 and not before. *)
Example overdue_scenario :
  launched [pass 1019 [14]] tight = 0%nat /\
  launched [pass 1019 [14]; pass 1020 [14]] tight = 1%nat /\
  launched [pass 1019 [14]; pass 1020 [14]; pass 1100 [14]] tight = 1%nat /\
  launched [pass 1019 [14]; pass 1020 [14]; pass 1100 [14];
            pass 1101 []; pass 1110 [14]; pass 1222 [14]] tight = 1%nat /\
  launched [pass 1019 [14]; pass 1020 [14]; pass 1100 [14];
            pass 1101 []; pass 1110 [14]; pass 1222 [14]; pass 1223 [14]] tight = 2%nat.
Proof. repeat split; vm_compute; reflexivity. Qed.


Lemma overdue_flag_without_action_witness :
  exists st' evs,
    run [pass 1020 [14]; mkTick 1300 (reads [14]) overdue_added; pass 1400 [14]]
        unconfigured = Ret (st', evs) /\
    overdue_execs evs = [] /\ overduenotice st' = true.
Proof.
  apply (proj2 overdue_flag_without_action).
  - exact wf_unconfigured.
  - reflexivity.
  - reflexivity.
  - reflexivity.
  - split; vm_compute; discriminate.
  - split; vm_compute; discriminate.
  - vm_compute. repeat split.
Defined.

(** The reload of that run did install the overdue action. *)
Example overdue_added_mid_episode :
  exists st' evs,
    run [pass 1020 [14]; mkTick 1300 (reads [14]) overdue_added; pass 1400 [14]]
        unconfigured = Ret (st', evs) /\
    ConfigData.overdue (cd st') = Some "mail overdue" /\
    FloatSwitch.state (sw0 st') = HIGH.
Proof. eexists _, _. split; [vm_compute; reflexivity|]. split; reflexivity. Qed.

Lemma debounce_gate_witness :
  FloatSwitch.LastOn (sw0 (fst (scan_switch 1100 (reads [14]) 0 (running (basement pump)))))
    = 1100 /\
  scan_switch 1052 (reads [14]) 0 (running (basement pump)) = (running (basement pump), []).
Proof.
  split.
  - destruct (debounce_gate 1100 (reads [14]) 0 (running (basement pump)) pump)
      as (_ & H & _).
    + reflexivity.
    + simpl; lia.
    + vm_compute; discriminate.
    + destruct H as [Hon _]; [simpl; lia|]. exact (proj1 (Hon eq_refl)).
  - destruct (debounce_gate 1052 (reads [14]) 0 (running (basement pump)) pump)
      as (_ & _ & H).
    + reflexivity.
    + simpl; lia.
    + vm_compute; discriminate.
    + apply H. simpl; lia.
Defined.

Lemma GetFrequency_average_witness :
  GetFrequency (FloatSwitch.set_freq [100; 201; 0; 0] pump) = average [100; 201].
Proof.
  destruct (proj1 GetFrequency_average (FloatSwitch.set_freq [100; 201; 0; 0] pump))
    as [_ H].
  - reflexivity.
  - apply H.
    + discriminate.
    + split; vm_compute; discriminate.
Defined.

(** The pass that records the first baseline also launches the rate-change
    action. *)
Lemma baseline_pass_launches_action :
  exists st' ev,
    tick (pass 1100 [14]) (running (basement pump)) = Ret (st', ev) /\
    FloatSwitch.lastfreq (sw0 (running (basement pump))) = 0 /\
    FloatSwitch.lastfreq (sw0 st') = 100 /\
    exists e, rate_execs ev = [Exec SiteRateChange "mail rate" e].
Proof.
  eexists _, _. split; [vm_compute; reflexivity|].
  split; [reflexivity|]. split; [reflexivity|].
  eexists. vm_compute. reflexivity.
Qed.

Lemma baseline_needs_full_ring_witness :
  rate_execs (snd (scan_switch 1100 (reads [14]) 0 (running (basement pump)))) =
    [Exec SiteRateChange "mail rate"
          (env (fst (scan_switch 1100 (reads [14]) 0 (running (basement pump)))))].
Proof.
  destruct (baseline_needs_full_ring 1100 (reads [14]) (running (basement pump)) pump
              "mail rate") as (H & _).
  - exact wf_running_pump.
  - reflexivity.
  - simpl; lia.
  - reflexivity.
  - vm_compute; discriminate.
  - simpl; lia.
  - reflexivity.
  - reflexivity.
  - destruct H as (_ & _ & H); [vm_compute; discriminate | exact H].
Defined.

Lemma rate_change_guard_witness :
  snd (scan_switch 1100 (reads [14]) 0 (running (basement idle))) =
    [Exec (SiteSwitchOn 0) "echo Switch0On"
          (env (on_entry 0 1100 (running (basement idle))))].
Proof.
  destruct (proj1 (proj2 rate_change_guard) 1100 (reads [14])
              (running (basement idle)) idle) as [H _].
  - reflexivity.
  - simpl; lia.
  - reflexivity.
  - vm_compute; discriminate.
  - simpl; lia.
  - reflexivity.
  - rewrite H. reflexivity.
Defined.

(** With a baseline of 100 and a frequency of 100 the quotient is evaluated
    and stays inside the band: nothing is launched but the On action. *)
Example ratio_evaluated :
  exists e,
    snd (scan_switch 1100 (reads [14]) 0
           (running (basement (FloatSwitch.set_lastfreq 100 pump)))) =
      [Exec (SiteSwitchOn 0) "echo Switch0On" e; Ratio 100 100].
Proof. eexists. vm_compute. reflexivity. Qed.


(** * Further properties of the loop *)

(** ** The ring of intervals *)

Lemma shift_history_ring a b c d : shift_history [a; b; c; d] = [b; c; d; d].
Proof. reflexivity. Qed.

(** X1: an accepted change to On pushes the interval since the last On into the
    ring and evicts the oldest entry; on the first activation, with no
    last On, nothing is pushed and the newest entry is repeated, so an
    empty ring stays empty. The switch is On, stamped [t], and its other
    fields are kept. *)
Theorem activate_pushes_interval (t : time_t) (s : FloatSwitch.t) :
  length (FloatSwitch.freq s) = FREQ_HISTORY ->
  (FloatSwitch.LastOn s <> 0 ->
     FloatSwitch.freq (activate t s)
       = drop 1 (FloatSwitch.freq s) ++ [Int.wrap (t - FloatSwitch.LastOn s)]) /\
  (FloatSwitch.LastOn s <> 0 -> Int.in_range (t - FloatSwitch.LastOn s) ->
     FloatSwitch.freq (activate t s)
       = drop 1 (FloatSwitch.freq s) ++ [t - FloatSwitch.LastOn s]) /\
  (FloatSwitch.LastOn s = 0 ->
     FloatSwitch.freq (activate t s)
       = drop 1 (FloatSwitch.freq s) ++ drop 3 (FloatSwitch.freq s)) /\
  (FloatSwitch.LastOn s = 0 -> FloatSwitch.freq s = replicate FREQ_HISTORY 0 ->
     GetFrequency (activate t s) = 0) /\
  FloatSwitch.state (activate t s) = HIGH /\
  FloatSwitch.LastOn (activate t s) = t /\
  FloatSwitch.LastOff (activate t s) = FloatSwitch.LastOff s /\
  FloatSwitch.lastfreq (activate t s) = FloatSwitch.lastfreq s /\
  FloatSwitch.pin (activate t s) = FloatSwitch.pin s.
Proof.
  intros Hlen. destruct (ring4 _ Hlen) as (a & b & c & d & E).
  assert (Hon : FloatSwitch.LastOn s <> 0 ->
     FloatSwitch.freq (activate t s)
       = drop 1 (FloatSwitch.freq s) ++ [Int.wrap (t - FloatSwitch.LastOn s)]).
  { intros Hne. unfold activate. cbn [FloatSwitch.LastOn FloatSwitch.set_state
      FloatSwitch.set_freq FloatSwitch.freq FloatSwitch.set_LastOn].
    apply Z.eqb_neq in Hne. rewrite Hne. cbn [negb FloatSwitch.freq FloatSwitch.set_freq
      FloatSwitch.set_LastOn FloatSwitch.LastOn].
    rewrite E, shift_history_ring. reflexivity. }
  assert (Hfirst : FloatSwitch.LastOn s = 0 ->
     FloatSwitch.freq (activate t s)
       = drop 1 (FloatSwitch.freq s) ++ drop 3 (FloatSwitch.freq s)).
  { intros He. unfold activate. cbn [FloatSwitch.LastOn FloatSwitch.set_state
      FloatSwitch.set_freq FloatSwitch.freq FloatSwitch.set_LastOn].
    rewrite He. cbn [Z.eqb negb FloatSwitch.freq FloatSwitch.set_LastOn].
    rewrite E, shift_history_ring. reflexivity. }
  split; [exact Hon|]. split.
  { intros Hne Hr. rewrite (Hon Hne), (wrap_small _ Hr). reflexivity. }
  split; [exact Hfirst|]. split.
  { intros He Hz.
    rewrite (GetFrequency_ring 0 0 0 0 (activate t s)); [reflexivity|].
    rewrite (Hfirst He), Hz. reflexivity. }
  unfold activate; simpl. destruct (negb _); repeat split.
Qed.

Lemma activate_pushes_interval_witness :
  FloatSwitch.freq (activate 1130 pump) = [100; 100; 100; 130] /\
  GetFrequency (activate 1130 idle) = 0.
Proof.
  destruct (activate_pushes_interval 1130 pump eq_refl) as (_ & H & _).
  destruct (activate_pushes_interval 1130 idle eq_refl) as (_ & _ & _ & H' & _).
  split.
  - apply H; [vm_compute; discriminate | split; vm_compute; discriminate].
  - apply H'; reflexivity.
Defined.

(** The quotient of a sum of [k] values between [lo] and [hi] lies between
    [lo] and [hi]. *)
Lemma quot_between S k lo hi :
  0 < k -> k * lo <= S <= k * hi -> 0 <= lo -> lo <= S ÷ k <= hi.
Proof.
  intros Hk [H1 H2] Hlo. split.
  - apply Z.quot_le_lower_bound; lia.
  - apply Z.quot_le_upper_bound; [lia | nia].
Qed.

(** X2: when every populated slot holds an interval between [lo] and [hi], so
    does the frequency: the average of positive intervals is never the 0
    that stands for no history. *)
Theorem GetFrequency_between (s : FloatSwitch.t) (lo hi : Z) :
  length (FloatSwitch.freq s) = FREQ_HISTORY ->
  0 < lo -> hi < 2 ^ 29 ->
  Forall (fun x => x = 0 \/ lo <= x <= hi) (FloatSwitch.freq s) ->
  populated (FloatSwitch.freq s) <> [] ->
  lo <= GetFrequency s <= hi.
Proof.
  intros Hlen Hlo Hhi HF Hp. destruct (ring4 _ Hlen) as (a & b & c & d & E).
  rewrite (GetFrequency_ring a b c d s E). rewrite E in HF, Hp.
  inversion HF as [|? ? Ha H1]; subst. inversion H1 as [|? ? Hb H2]; subst.
  inversion H2 as [|? ? Hc H3]; subst. inversion H3 as [|? ? Hd _]; subst.
  clear HF H1 H2 H3.
  assert (Hr : Int.in_range (a + b + c + d)).
  { unfold Int.in_range, Int.min_int, Int.max_int. lia. }
  rewrite (wrap_small _ Hr). cbv zeta.
  unfold populated in *. cbn [List.filter] in *.
  destruct (Z.eqb_spec a 0), (Z.eqb_spec b 0), (Z.eqb_spec c 0), (Z.eqb_spec d 0);
    subst; cbn [negb length] in *; try congruence;
    cbn [Z.of_nat Pos.of_succ_nat Pos.succ Z.eqb];
    apply quot_between; lia.
Qed.

Lemma GetFrequency_between_witness :
  95 <= GetFrequency (FloatSwitch.set_freq [0; 95; 100; 130] pump) <= 130.
Proof.
  apply GetFrequency_between.
  - reflexivity.
  - lia.
  - lia.
  - repeat constructor; lia.
  - discriminate.
Defined.

(** ** What the switches other than switch 0 cannot do *)

Lemma on_entry_lastfreq ID ID' t st :
  FloatSwitch.lastfreq (ConfigData.sw ID' (cd (on_entry ID t st)))
    = FloatSwitch.lastfreq (ConfigData.sw ID' (cd st)).
Proof.
  unfold on_entry; simpl.
  change (ConfigData.sw ID' (ConfigData.set_freq ?v ?c)) with (ConfigData.sw ID' c).
  rewrite sw_upd. case_decide as H; [|reflexivity].
  destruct H as [<- _]. unfold activate; simpl. by destruct (negb _).
Qed.

Lemma switch_off_lastfreq ID ID' t raw st :
  FloatSwitch.lastfreq (ConfigData.sw ID' (cd (fst (switch_off ID t raw st))))
    = FloatSwitch.lastfreq (ConfigData.sw ID' (cd st)).
Proof.
  unfold switch_off. destruct (ID =? 0)%nat; simpl;
    rewrite sw_upd; case_decide as H; try reflexivity; by destruct H as [<- _].
Qed.

(** X3: a switch other than switch 0 never launches the rate-change action and
    never changes a baseline, whatever it does. *)
Theorem rate_change_only_switch0 (t : time_t) (gpio : Z -> bool) (ID : nat) (st : Sys) :
  ID <> 0%nat ->
  rate_execs (snd (scan_switch t gpio ID st)) = [] /\
  forall ID' : nat,
    FloatSwitch.lastfreq (ConfigData.sw ID' (cd (fst (scan_switch t gpio ID st))))
      = FloatSwitch.lastfreq (ConfigData.sw ID' (cd st)).
Proof.
  intros Hne. destruct (scan_switch_cases t gpio ID st) as [E|[E|E]]; rewrite E.
  - split; reflexivity.
  - rewrite switch_on_eq. cbn [fst snd].
    rewrite (rate_change_skip ID (on_entry ID t st)) by auto. cbn [fst snd].
    rewrite app_nil_r. split.
    + apply rate_execs_Action. discriminate.
    + intros ID'. apply on_entry_lastfreq.
  - split.
    + unfold switch_off. cbn [snd]. apply rate_execs_Action. discriminate.
    + intros ID'. apply switch_off_lastfreq.
Qed.

Lemma rate_change_only_switch0_witness :
  rate_execs (snd (scan_switch 1100 (reads [15]) 1 (running (basement pump)))) = [].
Proof.
  apply (rate_change_only_switch0 1100 (reads [15]) 1 (running (basement pump))).
  discriminate.
Defined.

(** ** A pass in which nothing happens *)

Lemma scan_switch_steady t gpio ID st :
  (FloatSwitch.initialized (ConfigData.sw ID (cd st)) <> 0 ->
   lev (gpio (FloatSwitch.pin (ConfigData.sw ID (cd st))))
     = FloatSwitch.state (ConfigData.sw ID (cd st))) ->
  scan_switch t gpio ID st = (st, []).
Proof.
  intros H. unfold scan_switch.
  destruct (Z.eqb_spec (FloatSwitch.initialized (ConfigData.sw ID (cd st))) 0) as [|Hi];
    [reflexivity|].
  cbn [negb]. rewrite (H Hi), Z.eqb_refl. reflexivity.
Qed.

Lemma scan_from_steady t gpio IDs st :
  (forall ID : nat,
      FloatSwitch.initialized (ConfigData.sw ID (cd st)) <> 0 ->
      lev (gpio (FloatSwitch.pin (ConfigData.sw ID (cd st))))
        = FloatSwitch.state (ConfigData.sw ID (cd st))) ->
  scan_from t gpio IDs st = (st, []).
Proof.
  intros H. induction IDs as [|ID IDs IH]; [reflexivity|].
  rewrite scan_from_cons, (scan_switch_steady t gpio ID st (H ID)). cbn [fst snd].
  rewrite IH. reflexivity.
Qed.

(** X4: when no configuration check is due, the overdue action is not due and
    every monitored switch reads the level it is stored with, the pass
    changes nothing and launches nothing. *)
Theorem quiet_pass (i : TickInput) (st : Sys) :
  now i - LastConfigCheck st <= 180 ->
  (FloatSwitch.state (sw0 st) <> HIGH \/ overduenotice st = true \/
   GetFrequency (sw0 st) = 0 \/
   now i - FloatSwitch.LastOff (sw0 st)
     < Int.add (GetFrequency (sw0 st)) (ConfigData.overduethreshold (cd st))) ->
  (forall ID : nat,
      FloatSwitch.initialized (ConfigData.sw ID (cd st)) <> 0 ->
      lev (gpio i (FloatSwitch.pin (ConfigData.sw ID (cd st))))
        = FloatSwitch.state (ConfigData.sw ID (cd st))) ->
  tick i st = Ret (st, []).
Proof.
  intros Hc Ho Hs.
  assert (E : overdue_check (now i) st = (st, [])).
  { destruct Ho as [H|[H|[H|H]]].
    - by apply overdue_check_off.
    - by apply overdue_check_notified.
    - unfold overdue_check. rewrite H. cbn [Z.eqb negb]. rewrite andb_false_r.
      by destruct (_ && _).
    - unfold overdue_check.
      destruct (Z.leb_spec (Int.add (GetFrequency (sw0 st))
                              (ConfigData.overduethreshold (cd st)))
                           (now i - FloatSwitch.LastOff (sw0 st))); [lia|].
      cbn [andb]. by destruct (_ && _). }
  unfold tick. rewrite E.
  destruct (Z.ltb_spec 180 (now i - LastConfigCheck st)); [lia|].
  cbn [bind]. unfold scan_switches. rewrite (scan_from_steady _ _ _ _ Hs). reflexivity.
Qed.

Lemma quiet_pass_witness :
  tick (pass 1060 []) (running (basement pump)) = Ret (running (basement pump), []).
Proof.
  apply quiet_pass.
  - simpl; lia.
  - left. vm_compute; discriminate.
  - intros ID. destruct ID as [|[|ID]].
    + intros _. reflexivity.
    + intros _. reflexivity.
    + intros H. exfalso. apply H.
      unfold ConfigData.sw, basement, slots. cbn [cd running ConfigData.switchlist].
      destruct (decide (ID < 98)%nat) as [Hlt|Hge].
      * change ((pump :: alarm :: replicate 98 FloatSwitch.fresh) !!! S (S ID))
          with (replicate 98 FloatSwitch.fresh !!! ID).
        rewrite lookup_total_replicate_2 by exact Hlt. reflexivity.
      * change ((pump :: alarm :: replicate 98 FloatSwitch.fresh) !!! S (S ID))
          with (replicate 98 FloatSwitch.fresh !!! ID).
        rewrite list_lookup_total_alt, lookup_ge_None_2; [reflexivity|].
        rewrite length_replicate. lia.
Defined.

(** ** The frequency that is published *)

Lemma rate_change_keeps_freq ID st :
  ConfigData.freq (cd (fst (rate_change ID st))) = ConfigData.freq (cd st).
Proof. unfold rate_change. repeat break_if; reflexivity. Qed.

Lemma switch_off_keeps_freq ID t raw st :
  ConfigData.freq (cd (fst (switch_off ID t raw st))) = ConfigData.freq (cd st) /\
  FloatSwitch.freq (sw0 (fst (switch_off ID t raw st))) = FloatSwitch.freq (sw0 st).
Proof.
  unfold switch_off, sw0. destruct (ID =? 0)%nat; simpl; (split; [reflexivity|]);
    rewrite sw_upd; case_decide as H; try reflexivity; by destruct H as [<- _].
Qed.

(** After an accepted change to On, [cd.freq] is the frequency of
    switch 0. *)
Lemma switch_on_syncs ID t st :
  ConfigData.freq (cd (fst (switch_on ID t st)))
    = GetFrequency (sw0 (fst (switch_on ID t st))).
Proof.
  rewrite switch_on_eq. cbn [fst]. rewrite rate_change_keeps_freq.
  destruct (on_entry_rest ID t st) as (_ & _ & _ & _ & _ & H & _). cbv zeta in H.
  rewrite H. apply GetFrequency_ext. symmetry.
  apply (rate_change_fields ID 0 (on_entry ID t st)).
Qed.

Lemma scan_switch_synced t gpio ID st :
  ConfigData.freq (cd st) = GetFrequency (sw0 st) ->
  ConfigData.freq (cd (fst (scan_switch t gpio ID st)))
    = GetFrequency (sw0 (fst (scan_switch t gpio ID st))).
Proof.
  intros H. destruct (scan_switch_cases t gpio ID st) as [E|[E|E]]; rewrite E.
  - exact H.
  - apply switch_on_syncs.
  - destruct (switch_off_keeps_freq ID t LOW st) as [H1 H2]. rewrite H1, H.
    apply GetFrequency_ext. symmetry. exact H2.
Qed.

Lemma tick_synced i st :
  ConfigData.freq (cd st) = GetFrequency (sw0 st) ->
  exists st' ev,
    tick i st = Ret (st', ev) /\ ConfigData.freq (cd st') = GetFrequency (sw0 st').
Proof.
  intros H. destruct (tick_shape i st) as (st2 & ((_ & Hsw & _ & _ & _ & _ & Hf & _) & _) & E).
  destruct (overdue_check_rest (now i) st) as (Hcd & _). cbv zeta in Hcd.
  rewrite Hcd in Hsw, Hf.
  assert (H2 : ConfigData.freq (cd st2) = GetFrequency (sw0 st2)).
  { rewrite Hf, H. apply GetFrequency_ext. symmetry. apply (Hsw 0%nat). }
  destruct (scan_from_ind
              (fun st' => ConfigData.freq (cd st') = GetFrequency (sw0 st'))
              (fun _ => True) (now i) (gpio i) (seq 0 100)) with (st := st2) as [H3 _].
  - intros ID st' _ H'. split; [by apply scan_switch_synced|].
    apply List.Forall_forall. done.
  - exact H2.
  - eexists _, _. split; [exact E|]. exact H3.
Qed.

(** X5: once [cd.freq] is the frequency of switch 0 it stays so through every
    pass, reloads included; every accepted change to On makes it so. Hence
    the [SAFREQ] a transition publishes is the current running average. *)
Theorem published_frequency_is_current :
  (forall (ID : nat) (t : time_t) (st : Sys),
      ConfigData.freq (cd (fst (switch_on ID t st)))
        = GetFrequency (sw0 (fst (switch_on ID t st)))) /\
  (forall (ins : list TickInput) (st : Sys),
      ConfigData.freq (cd st) = GetFrequency (sw0 st) ->
      exists st' evs,
        run ins st = Ret (st', evs) /\
        ConfigData.freq (cd st') = GetFrequency (sw0 st')) /\
  (forall (ID : nat) (t : time_t) (st : Sys),
      env (fst (switch_on ID t st)) !! "SAFREQ"
        = Some (pretty (GetFrequency (sw0 (fst (switch_on ID t st)))))).
Proof.
  split; [exact switch_on_syncs|]. split.
  - intros ins. induction ins as [|i ins IH]; intros st H.
    + exists st, []. done.
    + cbn [run]. destruct (tick_synced i st H) as (st1 & ev1 & E & H1).
      rewrite E. cbn [bind fst snd]. destruct (IH st1 H1) as (st' & evs & E' & H').
      rewrite E'. cbn [bind fst snd]. by exists st', (ev1 ++ evs).
  - intros ID t st. rewrite <- switch_on_syncs.
    rewrite switch_on_eq. cbn [fst].
    destruct (rate_change_rest ID (on_entry ID t st)) as (_ & He & _). cbv zeta in He.
    rewrite He, rate_change_keeps_freq. unfold on_entry. cbn [env set_env cd set_cd].
    apply SetEnvironment_lookup.
Qed.

Lemma published_frequency_is_current_witness :
  exists st' evs,
    run [pass 1100 [14]; pass 1200 []; pass 1230 [14]]
        (running (ConfigData.set_freq 100 (basement pump)))
      = Ret (st', evs) /\
    ConfigData.freq (cd st') = GetFrequency (sw0 st').
Proof.
  apply (proj1 (proj2 published_frequency_is_current)).
  vm_compute. reflexivity.
Defined.

(** ** What the launched commands find in the environment *)

Lemma SetEnvironment_published s c e :
  Forall (fun name => is_Some (SetEnvironment s c e !! name)) published.
Proof.
  destruct (SetEnvironment_lookup s c e) as (H1 & H2 & H3 & H4 & H5 & H6 & _).
  cbv zeta in *. unfold published.
  repeat (apply Forall_cons; split; [eauto|]). apply Forall_nil_2.
Qed.

Lemma Action_published site a e :
  Forall (fun name => is_Some (e !! name)) published ->
  Forall fully_published (Action site a e).
Proof.
  intros H. destruct a; simpl; [|constructor].
  constructor; [|constructor]. destruct site; simpl; auto.
Qed.

Lemma rate_change_published ID st :
  Forall (fun name => is_Some (env st !! name)) published ->
  Forall fully_published (snd (rate_change ID st)).
Proof.
  intros H. unfold rate_change. repeat break_if; cbn [snd];
    repeat (first [ apply Forall_cons; split; [exact I|]
                  | by apply Action_published
                  | apply Forall_nil_2 ]).
Qed.

Lemma scan_switch_published t gpio ID st :
  Forall fully_published (snd (scan_switch t gpio ID st)).
Proof.
  destruct (scan_switch_cases t gpio ID st) as [E|[E|E]]; rewrite E.
  - constructor.
  - rewrite switch_on_eq. cbn [snd].
    assert (H : Forall (fun name => is_Some (env (on_entry ID t st) !! name)) published).
    { unfold on_entry. cbn [env set_env]. apply SetEnvironment_published. }
    apply Forall_app. split; [by apply Action_published | by apply rate_change_published].
  - unfold switch_off. cbn [snd]. apply Action_published, SetEnvironment_published.
Qed.

(** X6: every command of a switch and every rate-change command a pass
    launches is launched with the six names freshly set. The overdue
    command is launched without a call of [SetEnvironment]: it runs with
    the environment as the last transition left it. In the sample
    installation the pass in which switch 0 goes On launches its On
    command and the rate-change command, both with the six names set. *)
Theorem environment_at_launch :
  (forall (i : TickInput) (st st' : Sys) (ev : list Event),
      tick i st = Ret (st', ev) -> Forall fully_published ev) /\
  (forall (t : time_t) (gpio : Z -> bool) (ID : nat) (st : Sys),
      Forall fully_published (snd (scan_switch t gpio ID st))) /\
  (forall (t : time_t) (st : Sys),
      env (fst (overdue_check t st)) = env st /\
      (snd (overdue_check t st) = [] \/
       exists a, snd (overdue_check t st) = [Exec SiteOverdue a (env st)])) /\
  (exists (st' : Sys) (e : Env),
      tick (pass 1100 [14]) (running (basement pump))
        = Ret (st', [Exec (SiteSwitchOn 0) "echo Switch0On" e;
                     Exec SiteRateChange "mail rate" e]) /\
      Forall (fun name => is_Some (e !! name)) published).
Proof.
  split; [|split; [|split]].
  - intros i st st' ev Hret. destruct (tick_shape i st) as (st2 & _ & E).
    assert (Hev : Forall fully_published
                    (snd (overdue_check (now i) st)
                     ++ snd (scan_switches (now i) (gpio i) st2))).
    { apply Forall_app. split.
      - unfold overdue_check. repeat break_if; cbn [snd]; try constructor.
        destruct (ConfigData.overdue (cd st)); simpl; repeat constructor.
      - rewrite scan_switches_unfold.
        apply (scan_from_ind (fun _ => True) fully_published); [|exact I].
        intros ID s _ _. split; [exact I | apply scan_switch_published]. }
    revert E Hev.
    generalize (fst (scan_switches (now i) (gpio i) st2)),
      (snd (overdue_check (now i) st) ++ snd (scan_switches (now i) (gpio i) st2)).
    intros st1 ev1 E Hev. rewrite E in Hret. injection Hret as <- <-. exact Hev.
  - intros t gpio ID st. apply scan_switch_published.
  - intros t st. split; [apply overdue_check_rest|].
    unfold overdue_check. repeat break_if; cbn [snd]; auto.
    destruct (ConfigData.overdue (cd st)); simpl; eauto.
  - eexists _, _. split; [vm_compute; reflexivity|].
    unfold published. repeat (apply Forall_cons; split; [by eexists|]). apply Forall_nil_2.
Qed.

(** On a fresh process the first overdue command finds none of the names. *)
Example overdue_before_any_transition :
  snd (overdue_check 1020 tight) = [Exec SiteOverdue "mail overdue" ∅].
Proof. vm_compute. reflexivity. Qed.

(** ** Startup *)

Lemma slot_upd (Q : FloatSwitch.t -> Prop) ID f c :
  (forall ID', Q (ConfigData.sw ID' c)) -> (forall s, Q s -> Q (f s)) ->
  forall ID', Q (ConfigData.sw ID' (ConfigData.upd ID f c)).
Proof.
  intros H Hf ID'. rewrite sw_upd. case_decide; [apply Hf|]; apply H.
Qed.

Lemma fresh_booting g b t e :
  booting (mkSys (main_cd g) false t "" 3 LOGFILE e) /\
  overduenotice (mkSys (main_cd g) b t "" 3 LOGFILE e) = b.
Proof.
  split; [|reflexivity]. split; [reflexivity|]. split; [|simpl; lia].
  intros ID. cbn [cd]. unfold ConfigData.sw, main_cd. cbn [ConfigData.switchlist].
  assert (E : replicate 100 FloatSwitch.fresh !!! ID = FloatSwitch.fresh).
  { destruct (decide (ID < 100)%nat).
    - by apply lookup_total_replicate_2.
    - rewrite list_lookup_total_alt, lookup_ge_None_2; [reflexivity|].
      rewrite length_replicate. lia. }
  rewrite E. unfold slot_ok, dormant, FloatSwitch.fresh; simpl.
  repeat split; auto. left. repeat split.
Qed.

Lemma booting_on_cd f st :
  booting st ->
  length (ConfigData.switchlist (f (cd st))) = length (ConfigData.switchlist (cd st)) ->
  (forall ID, slot_ok (ConfigData.sw ID (f (cd st))) /\ dormant (ConfigData.sw ID (f (cd st)))) ->
  booting (on_cd f st).
Proof. intros (H1 & H2 & H3) Hl Hs. split; [simpl; congruence|]. split; [exact Hs | exact H3]. Qed.

Lemma booting_upd ID f st :
  booting st ->
  (forall s, slot_ok s /\ dormant s -> slot_ok (f s) /\ dormant (f s)) ->
  booting (on_cd (ConfigData.upd ID f) st).
Proof.
  intros Hb Hf. apply booting_on_cd; [exact Hb | apply length_upd|].
  apply (slot_upd (fun s => slot_ok s /\ dormant s)); [apply Hb | exact Hf].
Qed.

(** One line of the first load either ends the process with code 1 or
    keeps the slots as they must be. *)
Lemma apply_line_boot l st :
  booting st ->
  apply_line true l st = Exit 1 \/
  exists st', apply_line true l st = Ret st' /\ booting st' /\
              overduenotice st' = overduenotice st /\ env st' = env st /\
              LastConfigCheck st' = LastConfigCheck st /\ hash st' = hash st.
Proof.
  intros Hb.
  assert (Hkeep : forall f,
     (forall c, ConfigData.switchlist (f c) = ConfigData.switchlist c) ->
     booting (on_cd f st)).
  { intros f Hf. destruct Hb as (H1 & H2 & H3).
    split; [simpl; by rewrite Hf|]. split; [|exact H3].
    intros ID. unfold ConfigData.sw; simpl. rewrite Hf. apply H2. }
  destruct l as [| v | | | | | | | | | |c6 c7 p]; cbn [apply_line negb];
    try (right; eexists; split; [reflexivity|]; split; [|done];
         first [exact Hb | apply Hkeep; reflexivity]).
  - right. eexists; split; [reflexivity|]. split; [|done].
    destruct Hb as (H1 & H2 & H3). split; [exact H1|]. split; [exact H2|].
    cbn [LogLevel set_LogLevel].
    destruct (Z.ltb_spec 3 v), (Z.ltb_spec v 0); cbn [orb]; lia.
  - destruct (switch_id c6 c7) as [ID|];
      [|right; eexists; split; [reflexivity|]; split; [exact Hb | done]].
    destruct p as [v|v|v|chk val|chk val|].
    + right. eexists; split; [reflexivity|]. split; [|done].
      apply booting_upd; [exact Hb|]. intros s [Hs Hd]. split; assumption.
    + destruct (Z.eqb_spec v 0) as [|Hv]; cbn [negb]; [by left|].
      right. eexists; split; [reflexivity|]. split; [|done].
      apply booting_upd; [exact Hb|]. intros s [(Hs1 & Hs2 & _) Hd].
      split; [|exact Hd]. split; [exact Hs1|]. split; [exact Hs2|]. right. by split.
    + right. eexists; split; [reflexivity|]. split; [|done].
      apply booting_upd; [exact Hb|]. intros s [Hs Hd]. split; assumption.
    + right. eexists; split; [reflexivity|]. split; [|done].
      apply booting_upd; [exact Hb|]. intros s [Hs Hd]. split; assumption.
    + right. eexists; split; [reflexivity|]. split; [|done].
      apply booting_upd; [exact Hb|]. intros s [Hs Hd]. split; assumption.
    + right. eexists; split; [reflexivity|]. split; [exact Hb | done].
Qed.

Lemma apply_lines_boot ls st :
  booting st ->
  apply_lines true ls st = Exit 1 \/
  exists st', apply_lines true ls st = Ret st' /\ booting st' /\
              overduenotice st' = overduenotice st /\ env st' = env st /\
              LastConfigCheck st' = LastConfigCheck st /\ hash st' = hash st.
Proof.
  revert st. induction ls as [|l ls IH]; intros st Hb.
  - right. exists st. done.
  - cbn [apply_lines].
    destruct (apply_line_boot l st Hb) as [E|(st1 & E & Hb1 & H1 & H2 & H3 & H4)];
      rewrite E; cbn [bind]; [by left|].
    destruct (IH st1 Hb1) as [E'|(st2 & E' & Hb2 & G1 & G2 & G3 & G4)]; [by left|].
    right. exists st2. split; [exact E'|]. split; [exact Hb2|].
    repeat split; congruence.
Qed.

(** A pin of 0 on a line of a valid switch ends the first load. *)
Lemma apply_lines_bad_pin ls st c6 c7 ID :
  booting st ->
  In (LSwitch c6 c7 (PPin 0)) ls -> switch_id c6 c7 = Some ID ->
  apply_lines true ls st = Exit 1.
Proof.
  revert st. induction ls as [|l ls IH]; intros st Hb Hin Hid; [destruct Hin|].
  cbn [apply_lines]. destruct Hin as [->|Hin].
  - cbn [apply_line]. rewrite Hid. reflexivity.
  - destruct (apply_line_boot l st Hb) as [E|(st1 & E & Hb1 & _)]; rewrite E; cbn [bind];
      [reflexivity | by apply IH].
Qed.

(** A slot is bound after the first load only if a line gave it a nonzero
    pin. *)
Lemma apply_lines_bound ls st st' ID :
  apply_lines true ls st = Ret st' ->
  FloatSwitch.initialized (ConfigData.sw ID (cd st)) = 0 ->
  FloatSwitch.initialized (ConfigData.sw ID (cd st')) <> 0 ->
  exists c6 c7 v,
    In (LSwitch c6 c7 (PPin v)) ls /\ switch_id c6 c7 = Some ID /\ v <> 0.
Proof.
  revert st. induction ls as [|l ls IH]; intros st E H0 H1.
  - injection E as <-. congruence.
  - cbn [apply_lines] in E. destruct (apply_line true l st) as [st1|] eqn:El; [|discriminate].
    cbn [bind] in E.
    destruct (Z.eq_dec (FloatSwitch.initialized (ConfigData.sw ID (cd st1))) 0) as [Hz|Hnz].
    + destruct (IH st1 E Hz H1) as (c6 & c7 & v & Hin & Hid & Hv).
      exists c6, c7, v. split; [by right | done].
    + assert (Hl : exists c6 c7 v, l = LSwitch c6 c7 (PPin v) /\
                      switch_id c6 c7 = Some ID /\ v <> 0).
      { destruct l as [| | | | | | | | | | |c6 c7 p]; cbn [apply_line negb] in El;
          try (injection El as <-; exfalso; apply Hnz; exact H0).
        destruct (switch_id c6 c7) as [ID0|] eqn:Hid;
          [|injection El as <-; exfalso; apply Hnz; exact H0].
        destruct p as [v|v|v|chk val|chk val|];
          try (injection El as <-; cbn [cd on_cd set_cd] in Hnz;
               rewrite sw_upd in Hnz; case_decide as Hc;
               [destruct Hc as [<- _]; simpl in Hnz; congruence | congruence]).
        * destruct (Z.eqb_spec v 0) as [|Hv]; cbn [negb] in El; [discriminate|].
          injection El as <-. cbn [cd on_cd set_cd] in Hnz.
          rewrite sw_upd in Hnz. case_decide as Hc; [|congruence].
          destruct Hc as [<- _]. exists c6, c7, v. done.
        * injection El as <-. exfalso. apply Hnz. exact H0. }
      destruct Hl as (c6 & c7 & v & -> & Hid & Hv).
      exists c6, c7, v. split; [by left | done].
Qed.

(** *** The first read of the pins *)

(** What the first read keeps of a slot. *)
Lemma read_initial_slot gpio c ID0 ID :
  let s := ConfigData.sw ID c in
  let s' := ConfigData.sw ID (read_initial gpio c ID0) in
  length (ConfigData.switchlist (read_initial gpio c ID0))
    = length (ConfigData.switchlist c) /\
  FloatSwitch.pin s' = FloatSwitch.pin s /\
  FloatSwitch.initialized s' = FloatSwitch.initialized s /\
  FloatSwitch.LastOn s' = FloatSwitch.LastOn s /\
  FloatSwitch.LastOff s' = FloatSwitch.LastOff s /\
  FloatSwitch.freq s' = FloatSwitch.freq s /\
  FloatSwitch.lastfreq s' = FloatSwitch.lastfreq s /\
  (FloatSwitch.state s' = FloatSwitch.state s \/
   (FloatSwitch.initialized s <> 0 /\
    FloatSwitch.state s' = lev (gpio (FloatSwitch.pin s)))) /\
  (ID = ID0 -> (ID < length (ConfigData.switchlist c))%nat ->
   FloatSwitch.initialized s <> 0 ->
   FloatSwitch.state s' = lev (gpio (FloatSwitch.pin s))).
Proof.
  cbv zeta. unfold read_initial.
  destruct (Z.eqb_spec (FloatSwitch.initialized (ConfigData.sw ID0 c)) 0) as [Hz|Hnz];
    cbn [negb].
  - repeat split; auto. intros -> _ H. contradiction.
  - rewrite length_upd, sw_upd. case_decide as Hc.
    + destruct Hc as [<- Hlt]. cbn. repeat split; auto.
    + repeat split; auto. intros -> Hlt _. exfalso. apply Hc. by split.
Qed.

Lemma classic_in (ID : nat) (IDs : list nat) : In ID IDs \/ ~ In ID IDs.
Proof. destruct (in_dec Nat.eq_dec ID IDs); auto. Qed.

Lemma read_all_slots gpio IDs c ID :
  let c' := fold_left (read_initial gpio) IDs c in
  let s := ConfigData.sw ID c in
  let s' := ConfigData.sw ID c' in
  length (ConfigData.switchlist c') = length (ConfigData.switchlist c) /\
  FloatSwitch.pin s' = FloatSwitch.pin s /\
  FloatSwitch.initialized s' = FloatSwitch.initialized s /\
  FloatSwitch.LastOn s' = FloatSwitch.LastOn s /\
  FloatSwitch.LastOff s' = FloatSwitch.LastOff s /\
  FloatSwitch.freq s' = FloatSwitch.freq s /\
  FloatSwitch.lastfreq s' = FloatSwitch.lastfreq s /\
  (FloatSwitch.state s' = FloatSwitch.state s \/
   (FloatSwitch.initialized s <> 0 /\
    FloatSwitch.state s' = lev (gpio (FloatSwitch.pin s)))) /\
  (In ID IDs -> (ID < length (ConfigData.switchlist c))%nat ->
   FloatSwitch.initialized s <> 0 ->
   FloatSwitch.state s' = lev (gpio (FloatSwitch.pin s))).
Proof.
  cbv zeta. revert c. induction IDs as [|ID0 IDs IH]; intros c.
  - cbn [fold_left]. repeat split; auto. intros [].
  - cbn [fold_left].
    destruct (read_initial_slot gpio c ID0 ID) as (A0 & A1 & A2 & A3 & A4 & A5 & A6 & A7 & A8).
    destruct (IH (read_initial gpio c ID0)) as (B0 & B1 & B2 & B3 & B4 & B5 & B6 & B7 & B8).
    cbv zeta in *. rewrite A0, A1, A2 in *.
    split; [congruence|]. do 6 (split; [congruence|]). split.
    + destruct B7 as [B7|[Bi B7]]; [|right; split; [exact Bi | exact B7]].
      rewrite B7. exact A7.
    + intros Hin Hlt Hi.
      destruct (classic_in ID IDs) as [Hin'|Hnin].
      * by apply B8.
      * destruct Hin as [->|Hin]; [|contradiction].
        destruct B7 as [B7|[_ B7]]; [|exact B7]. rewrite B7. by apply A8.
Qed.

Lemma read_pins_slots gpio c ID :
  let s := ConfigData.sw ID c in
  let s' := ConfigData.sw ID (read_pins gpio c) in
  length (ConfigData.switchlist (read_pins gpio c)) = length (ConfigData.switchlist c) /\
  FloatSwitch.pin s' = FloatSwitch.pin s /\
  FloatSwitch.initialized s' = FloatSwitch.initialized s /\
  FloatSwitch.LastOn s' = FloatSwitch.LastOn s /\
  FloatSwitch.LastOff s' = FloatSwitch.LastOff s /\
  FloatSwitch.freq s' = FloatSwitch.freq s /\
  FloatSwitch.lastfreq s' = FloatSwitch.lastfreq s /\
  (FloatSwitch.state s' = FloatSwitch.state s \/
   (FloatSwitch.initialized s <> 0 /\
    FloatSwitch.state s' = lev (gpio (FloatSwitch.pin s)))) /\
  ((ID < 100)%nat -> (ID < length (ConfigData.switchlist c))%nat ->
   FloatSwitch.initialized s <> 0 ->
   FloatSwitch.state s' = lev (gpio (FloatSwitch.pin s))).
Proof.
  pose proof (read_all_slots gpio (seq 0 100) c ID) as H. cbv zeta in *.
  destruct H as (A0 & A1 & A2 & A3 & A4 & A5 & A6 & A7 & A8).
  unfold read_pins. do 8 (split; [assumption|]).
  intros Hlt. apply A8. apply in_seq. lia.
Qed.

(** The first read of the pins leaves the pit alone. *)
Lemma read_pins_pit gpio c :
  ConfigData.capacity (read_pins gpio c) = ConfigData.capacity c /\
  ConfigData.sumpdiameter (read_pins gpio c) = ConfigData.sumpdiameter c /\
  ConfigData.sumpdepth (read_pins gpio c) = ConfigData.sumpdepth c.
Proof.
  unfold read_pins. generalize (seq 0 100). intros IDs. revert c.
  induction IDs as [|i IDs IH]; intros c; [done|]. cbn [fold_left].
  destruct (IH (read_initial gpio c i)) as (G1 & G2 & G3).
  rewrite G1, G2, G3. unfold read_initial. destruct (negb _); done.
Qed.

(** *** The outcome of the start *)

(** The shape of a start that succeeds: the GPIO came up, both files could
    be opened, and the lines of the file kept the slots as they must be. *)
Lemma main_start_shape b st :
  main_start b = Ret st ->
  gpio_ok b = true /\
  exists rd ls st1,
    configsum (boot_world b) = Some rd /\ conffile (boot_world b) = Some ls /\
    apply_lines true ls
      (set_hash (read_sum (boot_world b) rd)
         (mkSys (main_cd (stack b)) false (boot_time b) "" 3 LOGFILE (inherited b)))
      = Ret st1 /\
    booting st1 /\ overduenotice st1 = false /\ env st1 = inherited b /\
    LastConfigCheck st1 = boot_time b /\
    hash st1 = read_sum (boot_world b) rd /\
    FloatSwitch.initialized (ConfigData.sw 0 (cd st1)) <> 0 /\
    st = on_cd (read_pins (boot_gpio b))
               (on_cd (fun c => ConfigData.set_capacity (capacity_of c) c) st1).
Proof.
  unfold main_start. destruct (gpio_ok b); cbn [negb]; [|discriminate].
  intros E. split; [reflexivity|].
  set (st0 := mkSys (main_cd (stack b)) false (boot_time b) "" 3 LOGFILE (inherited b)) in *.
  unfold RefreshConfig in E. cbn [negb] in E.
  destruct (configsum (boot_world b)) as [rd|] eqn:Hsum.
  2:{ cbn [bind] in E. exfalso. revert E. unfold st0, sw0. cbn. discriminate. }
  unfold load_config in E.
  destruct (conffile (boot_world b)) as [ls|] eqn:Hconf; [|discriminate].
  destruct (fresh_booting (stack b) false (boot_time b) (inherited b)) as [Hb0 _].
  fold st0 in Hb0.
  assert (Hb0' : booting (set_hash (read_sum (boot_world b) rd) st0)) by exact Hb0.
  destruct (apply_lines_boot ls _ Hb0') as [Ex|(st1 & E1 & Hb1 & H1 & H2 & H3 & H4)].
  { rewrite Ex in E. discriminate. }
  rewrite E1 in E. cbn [bind] in E.
  destruct (Z.eqb_spec
              (FloatSwitch.initialized
                 (sw0 (on_cd (fun c => ConfigData.set_capacity (capacity_of c) c) st1))) 0)
    as [|Hi]; [discriminate|].
  assert (Est : on_cd (read_pins (boot_gpio b))
                  (on_cd (fun c => ConfigData.set_capacity (capacity_of c) c) st1) = st).
  { exact (f_equal (fun r => match r with Ret x => x | Exit _ => st end) E). }
  exists rd, ls, st1.
  split; [reflexivity|]. split; [reflexivity|]. split; [exact E1|].
  split; [exact Hb1|]. split; [exact H1|]. split; [exact H2|].
  split; [exact H3|]. split; [exact H4|]. split; [exact Hi | by symmetry].
Qed.

(** X7: a start ends the process with code 2 when the GPIO does not come up,
    and with code 1 when [./configsum] or the configuration file cannot be
    opened or when a line gives some switch the pin 0. A start that
    succeeds has read a line that binds switch 0 to a nonzero pin. *)
Theorem startup_requirements (b : Boot) :
  (gpio_ok b = false -> main_start b = Exit 2) /\
  (gpio_ok b = true -> configsum (boot_world b) = None -> main_start b = Exit 1) /\
  (gpio_ok b = true -> conffile (boot_world b) = None -> main_start b = Exit 1) /\
  (forall ls c6 c7 ID,
      gpio_ok b = true -> configsum (boot_world b) <> None ->
      conffile (boot_world b) = Some ls ->
      In (LSwitch c6 c7 (PPin 0)) ls -> switch_id c6 c7 = Some ID ->
      main_start b = Exit 1) /\
  (forall st,
      main_start b = Ret st ->
      FloatSwitch.initialized (sw0 st) = 1 /\ FloatSwitch.pin (sw0 st) <> 0 /\
      exists ls c6 c7 v,
        conffile (boot_world b) = Some ls /\
        In (LSwitch c6 c7 (PPin v)) ls /\ switch_id c6 c7 = Some 0%nat /\ v <> 0).
Proof.
  split; [|split; [|split; [|split]]].
  - intros H. unfold main_start. by rewrite H.
  - intros H1 H2. unfold main_start, RefreshConfig. rewrite H1, H2. reflexivity.
  - intros H1 H2. unfold main_start, RefreshConfig, load_config. rewrite H1, H2.
    cbn [negb]. destruct (configsum (boot_world b)); reflexivity.
  - intros ls c6 c7 ID H1 H2 H3 Hin Hid.
    unfold main_start, RefreshConfig, load_config. rewrite H1, H3. cbn [negb].
    destruct (configsum (boot_world b)) as [rd|]; [|congruence].
    destruct (fresh_booting (stack b) false (boot_time b) (inherited b)) as [Hb0 _].
    rewrite (apply_lines_bad_pin ls _ c6 c7 ID); [reflexivity | exact Hb0 | exact Hin | exact Hid].
  - intros st E.
    destruct (main_start_shape b st E)
      as (_ & rd & ls & st1 & Hsum & Hconf & E1 & Hb1 & _ & _ & _ & _ & Hi & ->).
    destruct (read_pins_slots (boot_gpio b)
                (ConfigData.set_capacity (capacity_of (cd st1)) (cd st1)) 0)
      as (_ & Hp & Hin & _).
    cbv zeta in Hp, Hin. unfold sw0. cbn [cd on_cd set_cd].
    rewrite Hp, Hin.
    change (ConfigData.sw 0 (ConfigData.set_capacity ?v ?c)) with (ConfigData.sw 0 c).
    destruct Hb1 as (_ & Hslots & _). destruct (Hslots 0%nat) as [(_ & _ & Hbind) _].
    destruct Hbind as [(Hz & _)|[H1 Hpin]]; [contradiction|].
    split; [exact H1|]. split; [exact Hpin|].
    destruct (apply_lines_bound ls _ st1 0 E1) as (c6 & c7 & v & Hl & Hid & Hv);
      [reflexivity | exact Hi|].
    exists ls, c6, c7, v. done.
Qed.

Lemma startup_requirements_witness :
  main_start (mkBoot true (basement pump) ∅ 1000
                     (mkWorld (Some None) "" (Some [LSwitch "0" "P" (PPin 0)]))
                     (reads [])) = Exit 1 /\
  (exists st, main_start sample_boot = Ret st /\ FloatSwitch.pin (sw0 st) <> 0).
Proof.
  split.
  - apply (proj1 (proj2 (proj2 (proj2 (startup_requirements _))))
             [LSwitch "0" "P" (PPin 0)] "0"%char "P"%char 0%nat).
    + reflexivity.
    + discriminate.
    + reflexivity.
    + left. reflexivity.
    + reflexivity.
  - destruct (main_start sample_boot) as [st|] eqn:E; [|vm_compute in E; discriminate].
    exists st. split; [reflexivity|].
    apply (proj2 (proj2 (proj2 (proj2 (startup_requirements sample_boot)))) st E).
Defined.

(** X8: after a start that succeeds there are 100 well formed slots; no switch
    has a history, a baseline or a timestamp; every bound switch has a
    nonzero pin and is stored with the level its pin read, every other
    switch is Off; the overdue flag is down, the environment is the
    inherited one, the log level is between 0 and 3 and the capacity is
    the one of the geometry. *)
Theorem startup_state (b : Boot) (st : Sys) :
  main_start b = Ret st ->
  valid st /\
  (forall ID : nat,
      let s := ConfigData.sw ID (cd st) in
      FloatSwitch.freq s = replicate FREQ_HISTORY 0 /\
      FloatSwitch.lastfreq s = 0 /\
      FloatSwitch.LastOn s = 0 /\ FloatSwitch.LastOff s = 0 /\
      (FloatSwitch.initialized s = 0 -> FloatSwitch.state s = LOW) /\
      ((ID < 100)%nat -> FloatSwitch.initialized s <> 0 ->
       FloatSwitch.state s = lev (boot_gpio b (FloatSwitch.pin s)))) /\
  GetFrequency (sw0 st) = 0 /\
  overduenotice st = false /\ env st = inherited b /\
  LastConfigCheck st = boot_time b /\
  ConfigData.capacity (cd st) = capacity_of (cd st).
Proof.
  intros E.
  destruct (main_start_shape b st E)
    as (_ & rd & ls & st1 & _ & _ & _ & Hb1 & Hf & He & Hc & _ & _ & ->).
  destruct Hb1 as (Hlen & Hslots & Hlog).
  set (c1 := ConfigData.set_capacity (capacity_of (cd st1)) (cd st1)).
  assert (Hsw1 : forall ID, ConfigData.sw ID c1 = ConfigData.sw ID (cd st1))
    by reflexivity.
  assert (Hall : forall ID,
    let s := ConfigData.sw ID (cd st1) in
    let s' := ConfigData.sw ID (read_pins (boot_gpio b) c1) in
    FloatSwitch.pin s' = FloatSwitch.pin s /\
    FloatSwitch.initialized s' = FloatSwitch.initialized s /\
    FloatSwitch.LastOn s' = FloatSwitch.LastOn s /\
    FloatSwitch.LastOff s' = FloatSwitch.LastOff s /\
    FloatSwitch.freq s' = FloatSwitch.freq s /\
    FloatSwitch.lastfreq s' = FloatSwitch.lastfreq s /\
    (FloatSwitch.state s' = FloatSwitch.state s \/
     (FloatSwitch.initialized s <> 0 /\
      FloatSwitch.state s' = lev (boot_gpio b (FloatSwitch.pin s)))) /\
    ((ID < 100)%nat -> FloatSwitch.initialized s <> 0 ->
     FloatSwitch.state s' = lev (boot_gpio b (FloatSwitch.pin s)))).
  { intros ID. cbv zeta.
    destruct (read_pins_slots (boot_gpio b) c1 ID)
      as (_ & A1 & A2 & A3 & A4 & A5 & A6 & A7 & A8).
    cbv zeta in *. rewrite Hsw1 in *. do 7 (split; [assumption|]).
    intros Hlt Hi. apply A8; [exact Hlt | | exact Hi].
    unfold c1. cbn [ConfigData.switchlist ConfigData.set_capacity]. rewrite Hlen. exact Hlt. }
  unfold valid, sw0.
  cbn [cd on_cd set_cd overduenotice env LastConfigCheck LogLevel]. fold c1.
  assert (Hlen' : length (ConfigData.switchlist (read_pins (boot_gpio b) c1)) = 100%nat).
  { destruct (read_pins_slots (boot_gpio b) c1 0) as (A0 & _).
    cbv zeta in A0. rewrite A0. exact Hlen. }
  split; [|split; [|split; [|split; [|split; [|split]]]]]; try assumption.
  - split; [exact Hlen'|]. split; [|split; [|exact Hlog]].
    + intros ID. destruct (Hall ID) as (A1 & A2 & A3 & A4 & A5 & A6 & A7 & _).
      destruct (Hslots ID) as [(S1 & S2 & S3) (D1 & D2 & D3 & D4 & D5)].
      cbv zeta in *. unfold slot_ok, dormant.
      rewrite A1, A2, A3, A4, A5, A6.
      split; [exact S1|]. split.
      * destruct A7 as [->|[_ ->]]; [exact S2|].
        destruct (boot_gpio b _); [by right | by left].
      * destruct S3 as [(Z1 & Z2 & _)|S3]; [|by right].
        left. split; [exact Z1|]. split; [exact Z2|].
        destruct A7 as [->|[Hi _]]; [done | contradiction].
    + intros ID _. destruct (Hall ID) as (_ & _ & _ & _ & _ & A6 & _).
      cbv zeta in A6. rewrite A6. apply Hslots.
  - intros ID. cbv zeta. destruct (Hall ID) as (A1 & A2 & A3 & A4 & A5 & A6 & A7 & A8).
    destruct (Hslots ID) as [_ (D1 & D2 & D3 & D4 & D5)].
    cbv zeta in *. rewrite A1, A2, A3, A4, A5, A6.
    do 4 (split; [assumption|]). split; [|exact A8].
    intros Hz. destruct A7 as [->|[Hi _]]; [exact D1 | contradiction].
  - destruct (Hall 0%nat) as (_ & _ & _ & _ & A5 & _). cbv zeta in A5.
    destruct (Hslots 0%nat) as [_ (_ & _ & _ & D4 & _)].
    unfold sw0. cbn [cd]. apply (GetFrequency_ring 0 0 0 0). rewrite A5, D4. reflexivity.
  - destruct (read_pins_pit (boot_gpio b) c1) as (G1 & G2 & G3).
    unfold capacity_of, disc. rewrite G1, G2, G3. reflexivity.
Qed.

Lemma startup_state_witness :
  exists st, main_start sample_boot = Ret st /\ valid st /\ GetFrequency (sw0 st) = 0.
Proof.
  destruct (main_start sample_boot) as [st|] eqn:E; [|vm_compute in E; discriminate].
  exists st. split; [reflexivity|].
  destruct (startup_state sample_boot st E) as (H1 & _ & H2 & _). by split.
Defined.
(** ** What the loop keeps *)

Lemma same_installation_refl st : same_installation st st.
Proof. by repeat split. Qed.

Lemma same_installation_trans st1 st2 st3 :
  same_installation st1 st2 -> same_installation st2 st3 -> same_installation st1 st3.
Proof.
  intros (A1 & A2 & A3 & A4 & A5) (B1 & B2 & B3 & B4 & B5).
  split; [|repeat split; congruence].
  intros ID. destruct (A1 ID), (B1 ID). split; congruence.
Qed.

Lemma reload_keeps_installation st st' : reload_keeps st st' -> same_installation st st'.
Proof.
  intros [(_ & Hs & H1 & H2 & H3 & H4 & _) _].
  split; [|by repeat split].
  intros ID. destruct (Hs ID) as (_ & _ & _ & _ & _ & Hp & Hi). by split.
Qed.

(** The log level stays between 0 and 3 whatever the file holds. *)
Lemma apply_line_loglevel initial l st st' :
  apply_line initial l st = Ret st' -> 0 <= LogLevel st <= 3 -> 0 <= LogLevel st' <= 3.
Proof.
  intros E H.
  destruct l as [| v | | | | | | | | | |c6 c7 p]; cbn [apply_line] in E;
    try (injection E as <-; exact H);
    try (destruct (negb initial); injection E as <-; exact H).
  - injection E as <-. cbn [LogLevel set_LogLevel].
    destruct (Z.ltb_spec 3 v), (Z.ltb_spec v 0); cbn [orb]; lia.
  - destruct (switch_id c6 c7) as [ID|]; [|injection E as <-; exact H].
    destruct p as [v|v|v|chk val|chk val|];
      try (injection E as <-; exact H).
    destruct (negb initial); [injection E as <-; exact H|].
    destruct (negb (v =? 0)); [injection E as <-; exact H | discriminate].
Qed.

Lemma apply_lines_loglevel initial ls st st' :
  apply_lines initial ls st = Ret st' -> 0 <= LogLevel st <= 3 -> 0 <= LogLevel st' <= 3.
Proof.
  revert st. induction ls as [|l ls IH]; intros st E H; cbn [apply_lines] in E.
  - injection E as <-. exact H.
  - destruct (apply_line initial l st) as [st1|] eqn:E1; [|discriminate].
    cbn [bind] in E. apply (IH st1 E). by apply (apply_line_loglevel initial l st).
Qed.

Lemma RefreshConfig_loglevel w initial st st' :
  RefreshConfig w initial st = Ret st' -> 0 <= LogLevel st <= 3 -> 0 <= LogLevel st' <= 3.
Proof.
  assert (Hload : forall h st',
    load_config w initial (set_hash h st) = Ret st' ->
    0 <= LogLevel st <= 3 -> 0 <= LogLevel st' <= 3).
  { intros h st1 E H. unfold load_config in E.
    destruct (conffile w) as [ls|].
    - destruct (apply_lines initial ls (set_hash h st)) as [st2|] eqn:E2; [|discriminate].
      cbn [bind] in E. injection E as <-.
      apply (apply_lines_loglevel initial ls _ _ E2 H).
    - destruct initial; [discriminate|]. injection E as <-. exact H. }
  unfold RefreshConfig. intros E H.
  destruct (negb initial), (configsum w) as [rd|];
    try (injection E as <-; exact H).
  - destruct (String.eqb _ _); [injection E as <-; exact H|]. by apply (Hload _ _ E).
  - by apply (Hload _ _ E).
Qed.

(** A reload at run time keeps the slots as they must be. *)
Lemma reload_valid w st :
  valid st ->
  exists st', RefreshConfig w false st = Ret st' /\ valid st' /\ same_installation st st' /\
              reload_keeps st st'.
Proof.
  intros (Hlen & Hslots & Hlast & Hlog).
  destruct (RefreshConfig_runtime w st) as (st' & E & K).
  exists st'. split; [exact E|]. split; [|split; [by apply reload_keeps_installation | exact K]].
  destruct K as [(Kl & Ks & _) _].
  split; [congruence|]. split; [|split].
  - intros ID. destruct (Ks ID) as (K1 & K2 & K3 & K4 & K5 & K6 & K7).
    destruct (Hslots ID) as (S1 & S2 & S3).
    unfold slot_ok, dormant. rewrite K1, K2, K3, K4, K5, K6, K7. done.
  - intros ID Hne. destruct (Ks ID) as (_ & _ & _ & _ & K5 & _). rewrite K5. by apply Hlast.
  - by apply (RefreshConfig_loglevel w false st st' E).
Qed.

(** An accepted change comes from a monitored switch. *)
Lemma scan_switch_monitored t gpio ID st :
  scan_switch t gpio ID st = (st, []) \/
  (FloatSwitch.initialized (ConfigData.sw ID (cd st)) <> 0 /\
   (scan_switch t gpio ID st = switch_on ID t st \/
    scan_switch t gpio ID st = switch_off ID t LOW st)).
Proof.
  unfold scan_switch.
  destruct (Z.eqb_spec (FloatSwitch.initialized (ConfigData.sw ID (cd st))) 0) as [|Hi];
    cbn [negb]; [by left|].
  destruct (gpio (FloatSwitch.pin (ConfigData.sw ID (cd st)))); cbn [lev];
    [change (HIGH =? HIGH) with true | change (LOW =? HIGH) with false];
    cbv iota; repeat break_if; auto.
Qed.

Lemma rate_change_binding ID ID' st :
  let s := ConfigData.sw ID' (cd st) in
  let s' := ConfigData.sw ID' (cd (fst (rate_change ID st))) in
  FloatSwitch.pin s' = FloatSwitch.pin s /\
  FloatSwitch.initialized s' = FloatSwitch.initialized s.
Proof.
  unfold rate_change. repeat break_if; simpl; auto;
    rewrite sw_upd; case_decide as H; auto; destruct H as [<- _]; simpl; auto.
Qed.

Lemma rate_change_pit ID st : pit_eq (cd st) (cd (fst (rate_change ID st))).
Proof.
  unfold rate_change, pit_eq. repeat break_if; simpl; rewrite ?length_insert; auto.
Qed.

Lemma scan_switch_pit t gpio ID st :
  pit_eq (cd st) (cd (fst (scan_switch t gpio ID st))) /\
  LogLevel (fst (scan_switch t gpio ID st)) = LogLevel st.
Proof.
  destruct (scan_switch_cases t gpio ID st) as [E|[E|E]]; rewrite E.
  - by repeat split.
  - split; [|apply switch_on_rest].
    rewrite switch_on_eq. cbn [fst].
    destruct (rate_change_pit ID (on_entry ID t st)) as (H0 & H1 & H2 & H3 & H4).
    unfold pit_eq. rewrite H0, H1, H2, H3, H4.
    unfold on_entry; simpl. rewrite length_insert. done.
  - split; [|apply switch_off_rest].
    unfold switch_off, pit_eq. destruct (ID =? 0)%nat; simpl; rewrite length_insert; done.
Qed.

(** What one pass over switch [ID] does to the slot [ID']: nothing, unless
    it is the monitored switch [ID] itself, which keeps its binding, its
    ring size and, away from switch 0, its baseline. *)
Lemma scan_switch_slots t gpio ID st ID' :
  (ID < length (ConfigData.switchlist (cd st)))%nat ->
  let s := ConfigData.sw ID' (cd st) in
  let s' := ConfigData.sw ID' (cd (fst (scan_switch t gpio ID st))) in
  s' = s \/
  (ID' = ID /\ FloatSwitch.initialized s <> 0 /\
   FloatSwitch.pin s' = FloatSwitch.pin s /\
   FloatSwitch.initialized s' = FloatSwitch.initialized s /\
   (length (FloatSwitch.freq s) = FREQ_HISTORY ->
    length (FloatSwitch.freq s') = FREQ_HISTORY) /\
   (FloatSwitch.state s' = LOW \/ FloatSwitch.state s' = HIGH) /\
   (ID' <> 0%nat -> FloatSwitch.lastfreq s' = FloatSwitch.lastfreq s)).
Proof.
  intros Hlt. cbv zeta.
  destruct (scan_switch_monitored t gpio ID st) as [E|[Hi [E|E]]]; rewrite E;
    [by left| |].
  - destruct (decide (ID' = ID)) as [->|Hne].
    + right. split; [reflexivity|]. split; [exact Hi|].
      destruct (switch_on_slot ID t st Hlt) as (H1 & _ & _ & H4). cbv zeta in H1, H4.
      rewrite switch_on_eq in *. cbn [fst] in *.
      destruct (rate_change_binding ID ID (on_entry ID t st)) as [B1 B2].
      cbv zeta in B1, B2. rewrite B1, B2, H1, H4, (on_entry_slot ID t st Hlt).
      split; [unfold activate; simpl; by destruct (negb _)|].
      split; [unfold activate; simpl; by destruct (negb _)|].
      split; [apply ring_activate|]. split; [by right|].
      intros Hnz. rewrite (rate_change_skip ID) by auto. cbn [fst].
      rewrite (on_entry_slot ID t st Hlt).
      unfold activate; simpl; by destruct (negb _).
    + left. destruct (decide (ID' = 0%nat)) as [->|Hnz].
      * rewrite switch_on_eq. cbn [fst].
        rewrite (rate_change_skip ID) by auto. cbn [fst].
        by apply on_entry_other.
      * apply switch_on_other; auto.
  - destruct (decide (ID' = ID)) as [->|Hne].
    + right. split; [reflexivity|]. split; [exact Hi|].
      rewrite (switch_off_slot ID t LOW st Hlt). unfold deactivate; simpl.
      repeat split; auto.
    + left. apply switch_off_other; auto.
Qed.

(** The commands of one pass over a switch come from that switch, when it
    is monitored, or from the rate-change detector. *)
Lemma scan_switch_sites t gpio ID st :
  Forall (fun ev => match ev with
                    | Exec (SiteSwitchOn ID') _ _ | Exec (SiteSwitchOff ID') _ _ =>
                        ID' = ID /\ FloatSwitch.initialized (ConfigData.sw ID (cd st)) <> 0
                    | Exec SiteOverdue _ _ => False
                    | _ => True
                    end)
         (snd (scan_switch t gpio ID st)).
Proof.
  destruct (scan_switch_monitored t gpio ID st) as [E|[Hi [E|E]]]; rewrite E;
    [constructor| |].
  - rewrite switch_on_eq. cbn [snd]. apply Forall_app. split.
    + unfold Action. destruct (FloatSwitch.OnAction _); repeat constructor; exact Hi.
    + unfold rate_change, Action.
      repeat break_if; cbn [snd]; try destruct (ConfigData.ratechange _);
        repeat constructor.
  - unfold switch_off, Action. cbn [snd].
    destruct (FloatSwitch.OffAction _); repeat constructor; exact Hi.
Qed.

Lemma scan_switch_valid t gpio ID st0 st :
  (ID < 100)%nat -> valid st -> same_installation st0 st ->
  (valid (fst (scan_switch t gpio ID st)) /\
   same_installation st0 (fst (scan_switch t gpio ID st))) /\
  Forall (from_monitored st0) (snd (scan_switch t gpio ID st)).
Proof.
  intros Hlt (Hlen & Hslots & Hlast & Hlog) Hsame.
  assert (Hlt' : (ID < length (ConfigData.switchlist (cd st)))%nat) by (rewrite Hlen; exact Hlt).
  destruct (scan_switch_pit t gpio ID st) as [(P0 & P1 & P2 & P3 & P4) PL].
  split; [split|].
  - split; [congruence|]. split; [|split; [|by rewrite PL]].
    + intros ID'. destruct (Hslots ID') as (S1 & S2 & S3).
      destruct (scan_switch_slots t gpio ID st ID' Hlt')
        as [->|(-> & Hi & B1 & B2 & B3 & B4 & B5)]; [by apply Hslots|].
      split; [by apply B3|]. split; [exact B4|].
      right. rewrite B1, B2. destruct S3 as [(Hz & _)|S3]; [contradiction | exact S3].
    + intros ID' Hnz.
      destruct (scan_switch_slots t gpio ID st ID' Hlt')
        as [->|(-> & Hi & B1 & B2 & B3 & B4 & B5)]; [by apply Hlast|].
      rewrite B5 by exact Hnz. by apply Hlast.
  - apply (same_installation_trans st0 st); [exact Hsame|].
    split; [|by repeat split].
    intros ID'.
    destruct (scan_switch_slots t gpio ID st ID' Hlt')
      as [->|(-> & Hi & B1 & B2 & _)]; by split.
  - eapply Forall_impl; [apply scan_switch_sites|].
    intros [[| |ID'|ID'] c e|n d]; cbn [from_monitored]; try done.
    + intros [-> Hi]. destruct Hsame as [Hs _]. destruct (Hs ID) as [_ Hs2]. congruence.
    + intros [-> Hi]. destruct Hsame as [Hs _]. destruct (Hs ID) as [_ Hs2]. congruence.
Qed.

(** One pass of the loop keeps the slots as they must be. *)
Lemma tick_valid i st :
  valid st ->
  exists st' ev,
    tick i st = Ret (st', ev) /\ valid st' /\ same_installation st st' /\
    Forall (from_monitored st) ev.
Proof.
  intros Hv. unfold tick.
  destruct (overdue_check_rest (now i) st) as (Hcd & _ & _). cbv zeta in Hcd.
  assert (Hev1 : Forall (from_monitored st) (snd (overdue_check (now i) st))).
  { unfold overdue_check, Action.
    repeat break_if; cbn [snd]; try destruct (ConfigData.overdue _); repeat constructor. }
  assert (Hlog1 : LogLevel (fst (overdue_check (now i) st)) = LogLevel st).
  { unfold overdue_check. repeat break_if; reflexivity. }
  destruct (overdue_check (now i) st) as [st1 ev1]. cbn [fst snd] in *.
  assert (Hv1 : valid st1).
  { destruct Hv as (V1 & V2 & V3 & V4). unfold valid. rewrite Hcd, Hlog1. done. }
  assert (Hs1 : same_installation st st1).
  { unfold same_installation. rewrite Hcd. by repeat split. }
  assert (Hst2 : exists st2,
    (if 180 <? now i - LastConfigCheck st1
     then RefreshConfig (world i) false (set_LastConfigCheck (now i) st1)
     else Ret st1) = Ret st2 /\ valid st2 /\ same_installation st st2).
  { destruct (180 <? now i - LastConfigCheck st1).
    - destruct (reload_valid (world i) (set_LastConfigCheck (now i) st1) Hv1)
        as (st2 & E & V & S & _).
      exists st2. split; [exact E|]. split; [exact V|].
      by apply (same_installation_trans st st1).
    - by exists st1. }
  destruct Hst2 as (st2 & -> & Hv2 & Hs2). cbn [bind].
  assert (Hscan :
    (valid (fst (scan_switches (now i) (gpio i) st2)) /\
     same_installation st (fst (scan_switches (now i) (gpio i) st2))) /\
    Forall (from_monitored st) (snd (scan_switches (now i) (gpio i) st2))).
  { rewrite scan_switches_unfold.
    apply (scan_from_ind (fun s => valid s /\ same_installation st s) (from_monitored st));
      [|by split].
    intros ID s Hin [V S]. apply scan_switch_valid; [|exact V | exact S].
    destruct Hin as [<-|Hin]; [lia|]. apply in_seq in Hin. lia. }
  destruct Hscan as [[Hv3 Hs3] Hev3].
  destruct (scan_switches (now i) (gpio i) st2) as [st3 ev3]. cbn [fst snd] in *.
  exists st3, (ev1 ++ ev3). split; [reflexivity|]. split; [exact Hv3|].
  split; [exact Hs3 | by apply Forall_app].
Qed.

Lemma from_monitored_same st st' ev :
  same_installation st st' -> from_monitored st' ev -> from_monitored st ev.
Proof.
  intros [Hs _]. destruct ev as [[| |ID|ID] c e|n d]; cbn [from_monitored]; try done;
    destruct (Hs ID) as [_ H]; congruence.
Qed.

(** A run of the loop in the embedding, from such a state. *)
Lemma run_valid ins st :
  valid st ->
  exists st' evs,
    run ins st = Ret (st', evs) /\ valid st' /\ same_installation st st' /\
    Forall (from_monitored st) evs.
Proof.
  revert st. induction ins as [|i ins IH]; intros st Hv.
  - exists st, []. split; [reflexivity|]. split; [exact Hv|].
    split; [apply same_installation_refl | constructor].
  - cbn [run]. destruct (tick_valid i st Hv) as (st1 & ev1 & E & Hv1 & Hs1 & He1).
    rewrite E. cbn [bind fst snd].
    destruct (IH st1 Hv1) as (st' & evs & E' & Hv' & Hs' & He').
    rewrite E'. cbn [bind fst snd].
    exists st', (ev1 ++ evs). split; [reflexivity|]. split; [exact Hv'|].
    split; [by apply (same_installation_trans st st1)|].
    apply Forall_app. split; [exact He1|].
    eapply Forall_impl; [exact He'|]. intros ev. by apply from_monitored_same.
Qed.

(** X9: take a state in which every slot is unbound and untouched, or bound
    to a nonzero pin, with rings of four entries, states that are levels,
    no baseline away from switch 0 and a log level between 0 and 3. The
    state in which a run of the loop from there has left the process after
    any number of passes is such a state again, with every pin binding and
    every dimension of the pit as at the start, and every On and Off
    command launched on the way is one of a switch that is bound. *)
Theorem run_keeps_installation (ins : list TickInput) (st st' : Sys) (evs : list Event) :
  valid st ->
  run ins st = Ret (st', evs) ->
  valid st' /\ same_installation st st' /\ Forall (from_monitored st) evs.
Proof.
  intros Hv E. destruct (run_valid ins st Hv) as (st1 & evs1 & E1 & H).
  rewrite E1 in E. injection E as <- <-. exact H.
Qed.

Lemma valid_running_pump : valid (running (basement pump)).
Proof.
  assert (E : forall ID, replicate 98 FloatSwitch.fresh !!! ID = FloatSwitch.fresh).
  { intros ID. destruct (decide (ID < 98)%nat).
    - by apply lookup_total_replicate_2.
    - rewrite list_lookup_total_alt, lookup_ge_None_2; [reflexivity|].
      rewrite length_replicate. lia. }
  split; [reflexivity|]. split; [|split; [|simpl; lia]].
  - intros [|[|ID]].
    + split; [reflexivity|]. split; [by left|]. right. by split.
    + split; [reflexivity|]. split; [by left|]. right. by split.
    + change (ConfigData.sw (S (S ID)) (cd (running (basement pump))))
        with (replicate 98 FloatSwitch.fresh !!! ID).
      rewrite E. split; [reflexivity|]. split; [by left|]. left. by repeat split.
  - intros [|[|ID]] Hnz; [done | reflexivity|].
    change (ConfigData.sw (S (S ID)) (cd (running (basement pump))))
      with (replicate 98 FloatSwitch.fresh !!! ID).
    by rewrite E.
Qed.

Lemma run_keeps_installation_witness :
  exists st' evs,
    run [pass 1100 [14]; mkTick 1300 (reads [15]) rebounce] (running (basement pump))
      = Ret (st', evs) /\
    FloatSwitch.bouncedelay (sw0 st') = 9 /\
    length evs = 5%nat /\
    valid st' /\ same_installation (running (basement pump)) st' /\
    Forall (from_monitored (running (basement pump))) evs.
Proof.
  destruct (run [pass 1100 [14]; mkTick 1300 (reads [15]) rebounce]
                (running (basement pump))) as [[st' evs]|] eqn:E;
    [|vm_compute in E; discriminate].
  exists st', evs. split; [reflexivity|].
  assert (H : FloatSwitch.bouncedelay (sw0 st') = 9 /\ length evs = 5%nat)
    by (vm_compute in E; injection E as <- <-; split; reflexivity).
  split; [exact (proj1 H)|]. split; [exact (proj2 H)|].
  apply (run_keeps_installation
           [pass 1100 [14]; mkTick 1300 (reads [15]) rebounce]
           (running (basement pump)) st' evs valid_running_pump E).
Defined.

(** X10: once the loop runs, no pass ends the process through [exit]: the line
    that ends a start, a switch given the pin 0, and the files that
    cannot be opened do not end a run, whatever the clock, the pins and
    the files are and whatever state the loop is in. *)
Theorem run_calls_no_exit (ins : list TickInput) (st : Sys) (code : Z) :
  run ins st <> Exit code.
Proof.
  revert st. induction ins as [|i ins IH]; intros st; [discriminate|].
  cbn [run]. destruct (tick_shape i st) as (st2 & _ & E). revert E.
  generalize (fst (scan_switches (now i) (gpio i) st2)),
    (snd (overdue_check (now i) st) ++ snd (scan_switches (now i) (gpio i) st2)).
  intros st1 ev1 E. rewrite E. cbn [bind fst snd].
  specialize (IH st1). destruct (run ins st1) as [r|c]; [discriminate | done].
Qed.

Lemma run_calls_no_exit_witness :
  RefreshConfig (mkWorld (Some (Some "2c26b46b68ffc68f")) "" (Some [LSwitch "0" "P" (PPin 0)]))
                true (running (basement pump)) = Exit 1 /\
  exists st' evs,
    run [mkTick 1300 (reads [14])
           (mkWorld (Some (Some "2c26b46b68ffc68f")) "" (Some [LSwitch "0" "P" (PPin 0)]));
         mkTick 1500 (reads [14]) (mkWorld (Some (Some "fcde2b2edba56bf4")) "" None)]
        (running (basement pump)) = Ret (st', evs).
Proof.
  split; [reflexivity|].
  pose proof (run_calls_no_exit
    [mkTick 1300 (reads [14])
       (mkWorld (Some (Some "2c26b46b68ffc68f")) "" (Some [LSwitch "0" "P" (PPin 0)]));
     mkTick 1500 (reads [14]) (mkWorld (Some (Some "fcde2b2edba56bf4")) "" None)]
    (running (basement pump))) as H.
  destruct (run _ _) as [[st' evs]|code]; [by exists st', evs|].
  by destruct (H code).
Defined.
(** ** The check of the configuration *)

(** What the lines of the file never touch. *)
Lemma apply_line_meta initial l st st' :
  apply_line initial l st = Ret st' ->
  hash st' = hash st /\ LastConfigCheck st' = LastConfigCheck st /\
  overduenotice st' = overduenotice st /\ env st' = env st.
Proof.
  intros E.
  destruct l as [| v | | | | | | | | | |c6 c7 p]; cbn [apply_line] in E;
    try (injection E as <-; done);
    try (destruct (negb initial); injection E as <-; done).
  destruct (switch_id c6 c7) as [ID|]; [|injection E as <-; done].
  destruct p as [v|v|v|chk val|chk val|]; try (injection E as <-; done).
  destruct (negb initial); [injection E as <-; done|].
  destruct (negb (v =? 0)); [injection E as <-; done | discriminate].
Qed.

Lemma apply_lines_meta initial ls st st' :
  apply_lines initial ls st = Ret st' ->
  hash st' = hash st /\ LastConfigCheck st' = LastConfigCheck st /\
  overduenotice st' = overduenotice st /\ env st' = env st.
Proof.
  revert st. induction ls as [|l ls IH]; intros st E; cbn [apply_lines] in E.
  - injection E as <-. done.
  - destruct (apply_line initial l st) as [st1|] eqn:E1; [|discriminate].
    cbn [bind] in E. destruct (IH st1 E) as (H1 & H2 & H3 & H4).
    destruct (apply_line_meta initial l st st1 E1) as (G1 & G2 & G3 & G4).
    repeat split; congruence.
Qed.

Lemma load_config_meta w initial st st' :
  load_config w initial st = Ret st' ->
  hash st' = hash st /\ LastConfigCheck st' = LastConfigCheck st.
Proof.
  unfold load_config. intros E. destruct (conffile w) as [ls|].
  - destruct (apply_lines initial ls st) as [st1|] eqn:E1; [|discriminate].
    cbn [bind] in E. injection E as <-.
    destruct (apply_lines_meta initial ls st st1 E1) as (H1 & H2 & _). by split.
  - destruct initial; [discriminate|]. injection E as <-. done.
Qed.

(** [RefreshConfig] leaves the time of the last check alone, and when
    [./configsum] could be opened it remembers what it read there. *)
Lemma RefreshConfig_meta w initial st st' :
  RefreshConfig w initial st = Ret st' ->
  LastConfigCheck st' = LastConfigCheck st /\
  match configsum w with
  | None => st' = st
  | Some rd => hash st' = read_sum w rd
  end.
Proof.
  unfold RefreshConfig. intros E.
  destruct (configsum w) as [rd|]; [|destruct (negb initial); injection E as <-; done].
  destruct (negb initial).
  - destruct (String.eqb_spec (hash st) (read_sum w rd)) as [Heq|_].
    + injection E as <-. done.
    + destruct (load_config_meta w initial _ st' E) as [H1 H2].
      split; [exact H2 | exact H1].
  - destruct (load_config_meta w initial _ st' E) as [H1 H2].
    split; [exact H2 | exact H1].
Qed.

(** X11: a check that finds in [./configsum] what the last call of
    [RefreshConfig] found there (the file could not be opened, or it gave
    the same line) changes nothing and does not read the configuration
    file, whatever that file holds by then; this is so whether the last
    call was the first load or a reload, and whether or not it could open
    the configuration file. When [./configsum] is empty the text that is
    compared is what the buffer of the call happens to hold, and the check
    does nothing exactly when that is the remembered text. *)
Theorem unchanged_checksum_unchanged_state (w w' : World) (initial : bool) (st st' : Sys) :
  RefreshConfig w initial st = Ret st' ->
  (configsum w <> Some None -> configsum w' = configsum w ->
   RefreshConfig w' false st' = Ret st') /\
  (configsum w' = Some None ->
   String.substring 0 64 (cline0 w') = hash st' ->
   RefreshConfig w' false st' = Ret st') /\
  (configsum w' = Some None ->
   String.substring 0 64 (cline0 w') <> hash st' ->
   RefreshConfig w' false st' =
     load_config w' false (set_hash (String.substring 0 64 (cline0 w')) st')).
Proof.
  intros E. destruct (RefreshConfig_meta w initial st st' E) as [_ H].
  split; [|split].
  - intros Hne Hw'. unfold RefreshConfig. cbn [negb]. rewrite Hw'.
    destruct (configsum w) as [[l|]|]; [|done|reflexivity].
    cbn [read_sum] in *. rewrite H, String.eqb_refl. reflexivity.
  - intros Hw' Hc. unfold RefreshConfig. cbn [negb]. rewrite Hw'. cbn [read_sum].
    rewrite Hc, String.eqb_refl. reflexivity.
  - intros Hw' Hc. unfold RefreshConfig. cbn [negb]. rewrite Hw'. cbn [read_sum].
    destruct (String.eqb_spec (hash st') (String.substring 0 64 (cline0 w'))) as [Heq|_];
      [by destruct Hc|reflexivity].
Qed.

Lemma unchanged_checksum_unchanged_state_witness :
  exists st', RefreshConfig readable false loaded = Ret st' /\
              ConfigData.overduethreshold (cd st') = 300 /\
              RefreshConfig
                (mkWorld (Some (Some "9f86d081884c7d65")) "Overdue=mail"
                         (Some [LOverdueThreshold 500]))
                false st' = Ret st'.
Proof.
  destruct (RefreshConfig readable false loaded) as [st'|] eqn:E;
    [|vm_compute in E; discriminate].
  exists st'. split; [reflexivity|]. split.
  - vm_compute in E. injection E as <-. reflexivity.
  - destruct (unchanged_checksum_unchanged_state readable
                (mkWorld (Some (Some "9f86d081884c7d65")) "Overdue=mail"
                         (Some [LOverdueThreshold 500]))
                false loaded st' E) as (H & _ & _).
    apply H; [cbn; discriminate | reflexivity].
Defined.

(** X12: [fgets] reads 63 characters of the line of [./configsum], so the last
    of the 64 digits of the checksum is never compared: a file whose new
    checksum agrees with the remembered one on the first 63 digits is
    taken to be unchanged and is not read. *)
Theorem checksum_last_digit_ignored (w w' : World) (initial : bool) (st st' : Sys)
    (l l' : string) :
  configsum w = Some (Some l) -> RefreshConfig w initial st = Ret st' ->
  configsum w' = Some (Some l') ->
  String.substring 0 63 l' = String.substring 0 63 l ->
  RefreshConfig w' false st' = Ret st'.
Proof.
  intros Hw E Hw' Hl. destruct (RefreshConfig_meta w initial st st' E) as [_ H].
  rewrite Hw in H. cbn [read_sum] in H.
  unfold RefreshConfig. rewrite Hw'. cbn [negb read_sum].
  rewrite Hl, H, String.eqb_refl. reflexivity.
Qed.

Lemma checksum_last_digit_ignored_witness :
  exists st',
    RefreshConfig
      (mkWorld (Some (Some "9f86d081884c7d659a2feaa0c55ad015a3bf4f1b2b0b822cd15d6c15b0f00a08"))
               "" (Some [LOverdueThreshold 300]))
      false loaded = Ret st' /\
    ConfigData.overduethreshold (cd st') = 300 /\
    RefreshConfig
      (mkWorld (Some (Some "9f86d081884c7d659a2feaa0c55ad015a3bf4f1b2b0b822cd15d6c15b0f00a07"))
               "" (Some [LOverdueThreshold 500]))
      false st' = Ret st'.
Proof.
  destruct (RefreshConfig
      (mkWorld (Some (Some "9f86d081884c7d659a2feaa0c55ad015a3bf4f1b2b0b822cd15d6c15b0f00a08"))
               "" (Some [LOverdueThreshold 300]))
      false loaded) as [st'|] eqn:E; [|vm_compute in E; discriminate].
  exists st'. split; [reflexivity|]. split.
  - vm_compute in E. injection E as <-. reflexivity.
  - apply (checksum_last_digit_ignored
             (mkWorld (Some (Some "9f86d081884c7d659a2feaa0c55ad015a3bf4f1b2b0b822cd15d6c15b0f00a08"))
                      "" (Some [LOverdueThreshold 300]))
             _ false loaded st'
             "9f86d081884c7d659a2feaa0c55ad015a3bf4f1b2b0b822cd15d6c15b0f00a08"
             "9f86d081884c7d659a2feaa0c55ad015a3bf4f1b2b0b822cd15d6c15b0f00a07").
    + reflexivity.
    + exact E.
    + reflexivity.
    + reflexivity.
Defined.

Lemma scan_switch_meta t gpio ID st :
  LastConfigCheck (fst (scan_switch t gpio ID st)) = LastConfigCheck st /\
  hash (fst (scan_switch t gpio ID st)) = hash st.
Proof.
  destruct (scan_switch_cases t gpio ID st) as [E|[E|E]]; rewrite E.
  - done.
  - destruct (switch_on_rest ID t st) as (_ & H1 & H2 & _). by split.
  - destruct (switch_off_rest ID t LOW st) as (_ & H1 & H2 & _). by split.
Qed.

Lemma scan_switches_meta t gpio st :
  LastConfigCheck (fst (scan_switches t gpio st)) = LastConfigCheck st /\
  hash (fst (scan_switches t gpio st)) = hash st.
Proof.
  rewrite scan_switches_unfold.
  apply (scan_from_ind
           (fun s => LastConfigCheck s = LastConfigCheck st /\ hash s = hash st)
           (fun _ => True)); [|done].
  intros ID s _ [H1 H2]. destruct (scan_switch_meta t gpio ID s) as [G1 G2].
  split; [split; congruence|]. apply List.Forall_forall. done.
Qed.

Lemma overdue_check_meta t st :
  LastConfigCheck (fst (overdue_check t st)) = LastConfigCheck st /\
  hash (fst (overdue_check t st)) = hash st.
Proof. unfold overdue_check. repeat break_if; done. Qed.

(** X13: a pass made no more than 180 seconds after the last check of the
    configuration does not look at the files: it gives the same result
    whatever they hold, and it keeps the time of the last check and the
    remembered checksum. A pass made later stamps the time of the check
    with its own time, whatever the check finds. *)
Theorem config_check_cadence (i : TickInput) (st : Sys) :
  exists st' ev,
    tick i st = Ret (st', ev) /\
    (now i - LastConfigCheck st <= 180 ->
       LastConfigCheck st' = LastConfigCheck st /\ hash st' = hash st /\
       forall w : World, tick (mkTick (now i) (gpio i) w) st = Ret (st', ev)) /\
    (180 < now i - LastConfigCheck st -> LastConfigCheck st' = now i).
Proof.
  destruct (overdue_check_meta (now i) st) as [L1 H1].
  assert (Hshape : forall w : World,
    tick (mkTick (now i) (gpio i) w) st =
      let st1 := fst (overdue_check (now i) st) in
      st2 <- (if 180 <? now i - LastConfigCheck st
              then RefreshConfig w false (set_LastConfigCheck (now i) st1)
              else Ret st1) ;;
      Ret (fst (scan_switches (now i) (gpio i) st2),
           snd (overdue_check (now i) st) ++ snd (scan_switches (now i) (gpio i) st2))).
  { intros w. unfold tick. cbn [now gpio world]. rewrite <- L1.
    destruct (overdue_check (now i) st) as [st1 ev1]. cbn [fst snd].
    destruct (if 180 <? now i - LastConfigCheck st1 then _ else _) as [st2|];
      cbn [bind]; [|reflexivity].
    destruct (scan_switches (now i) (gpio i) st2). reflexivity. }
  assert (Hi : tick i st = tick (mkTick (now i) (gpio i) (world i)) st)
    by (destruct i; reflexivity).
  rewrite Hi. cbv zeta in Hshape.
  destruct (Z.ltb_spec 180 (now i - LastConfigCheck st)) as [Hlate|Hearly].
  - destruct (RefreshConfig_runtime (world i)
                (set_LastConfigCheck (now i) (fst (overdue_check (now i) st))))
      as (st2 & E & _).
    destruct (RefreshConfig_meta _ _ _ _ E) as [L2 _].
    destruct (scan_switches_meta (now i) (gpio i) st2) as [L3 _].
    eexists _, _. split; [rewrite Hshape, E; cbn [bind]; reflexivity|].
    split; [lia|]. intros _. rewrite L3, L2. reflexivity.
  - destruct (scan_switches_meta (now i) (gpio i) (fst (overdue_check (now i) st)))
      as [L3 H3].
    eexists _, _. split; [rewrite Hshape; cbn [bind]; reflexivity|].
    split; [|lia]. intros _.
    split; [congruence|]. split; [congruence|].
    intros w. rewrite Hshape. reflexivity.
Qed.

Lemma config_check_cadence_witness :
  exists st' ev,
    tick (mkTick 1100 (reads [14]) readable) loaded = Ret (st', ev) /\
    LastConfigCheck st' = 1000 /\
    tick (mkTick 1100 (reads [14]) nofiles) loaded = Ret (st', ev) /\
    exists st'' ev',
      tick (mkTick 1181 (reads [14]) readable) loaded = Ret (st'', ev') /\
      LastConfigCheck st'' = 1181.
Proof.
  destruct (config_check_cadence (mkTick 1100 (reads [14]) readable) loaded)
    as (st' & ev & E & Hearly & _).
  destruct (config_check_cadence (mkTick 1181 (reads [14]) readable) loaded)
    as (st'' & ev' & E' & _ & Hlate).
  exists st', ev. split; [exact E|].
  assert (H : now (mkTick 1100 (reads [14]) readable) - LastConfigCheck loaded <= 180)
    by (vm_compute; discriminate).
  destruct (Hearly H) as (L & _ & Hw).
  split; [exact L|]. split; [exact (Hw nofiles)|].
  exists st'', ev'. split; [exact E'|].
  apply Hlate. vm_compute. reflexivity.
Defined.

(** ** The commands a reload installs *)

Lemma install_keeps old chk val :
  is_set old = true -> is_set (install old chk val) = true.
Proof.
  unfold install. destruct old as [o|]; [|discriminate]. intros _.
  destruct (String.eqb chk ""); [reflexivity|]. by destruct (String.eqb o chk).
Qed.

Lemma apply_line_commands initial l st st' :
  apply_line initial l st = Ret st' -> commands_kept st st'.
Proof.
  intros E.
  assert (Hrefl : commands_kept st st) by (by repeat split).
  assert (Hupd : forall ID f,
    (forall s, (is_set (FloatSwitch.OnAction s) = true ->
                is_set (FloatSwitch.OnAction (f s)) = true) /\
               (is_set (FloatSwitch.OffAction s) = true ->
                is_set (FloatSwitch.OffAction (f s)) = true)) ->
    commands_kept st (on_cd (ConfigData.upd ID f) st)).
  { intros ID f Hf. split; [done|]. split; [done|].
    intros ID'. cbn [cd on_cd set_cd]. rewrite sw_upd.
    case_decide as H; [|done]. destruct H as [<- _]. apply Hf. }
  destruct l as [| v | | | | | | | | | |c6 c7 p]; cbn [apply_line] in E;
    try (injection E as <-; exact Hrefl);
    try (destruct (negb initial); injection E as <-; by repeat split).
  - injection E as <-. split; [|by split].
    cbn [cd on_cd set_cd ConfigData.ratechange ConfigData.set_ratechange].
    apply install_keeps.
  - injection E as <-. split; [done|]. split; [|done].
    cbn [cd on_cd set_cd ConfigData.overdue ConfigData.set_overdue].
    apply install_keeps.
  - destruct (switch_id c6 c7) as [ID|]; [|injection E as <-; exact Hrefl].
    destruct p as [v|v|v|chk val|chk val|]; try (injection E as <-; exact Hrefl).
    + injection E as <-. apply Hupd. done.
    + destruct (negb initial); [injection E as <-; exact Hrefl|].
      destruct (negb (v =? 0)); [|discriminate].
      injection E as <-. apply Hupd. done.
    + injection E as <-. apply Hupd. done.
    + injection E as <-. apply Hupd. intros s. split; [|done].
      cbn [FloatSwitch.OnAction FloatSwitch.set_OnAction]. apply install_keeps.
    + injection E as <-. apply Hupd. intros s. split; [done|].
      cbn [FloatSwitch.OffAction FloatSwitch.set_OffAction]. apply install_keeps.
Qed.

Lemma commands_kept_trans st1 st2 st3 :
  commands_kept st1 st2 -> commands_kept st2 st3 -> commands_kept st1 st3.
Proof.
  intros (A1 & A2 & A3) (B1 & B2 & B3).
  split; [auto|]. split; [auto|].
  intros ID. destruct (A3 ID), (B3 ID). split; auto.
Qed.

Lemma apply_lines_commands initial ls st st' :
  apply_lines initial ls st = Ret st' -> commands_kept st st'.
Proof.
  revert st. induction ls as [|l ls IH]; intros st E; cbn [apply_lines] in E.
  - injection E as <-. by repeat split.
  - destruct (apply_line initial l st) as [st1|] eqn:E1; [|discriminate].
    cbn [bind] in E.
    apply (commands_kept_trans st st1 st');
      [by apply (apply_line_commands initial l) | by apply IH].
Qed.

Lemma same_commands_refl st : same_commands st st.
Proof. by repeat split. Qed.

Lemma same_commands_trans st1 st2 st3 :
  same_commands st1 st2 -> same_commands st2 st3 -> same_commands st1 st3.
Proof.
  intros (A1 & A2 & A3) (B1 & B2 & B3).
  split; [congruence|]. split; [congruence|].
  intros ID. destruct (A3 ID), (B3 ID). split; congruence.
Qed.

Lemma apply_line_same_commands initial l st st' :
  sets_command l = false -> apply_line initial l st = Ret st' -> same_commands st st'.
Proof.
  intros Hl E.
  assert (Hupd : forall ID f,
    (forall s, FloatSwitch.OnAction (f s) = FloatSwitch.OnAction s /\
               FloatSwitch.OffAction (f s) = FloatSwitch.OffAction s) ->
    same_commands st (on_cd (ConfigData.upd ID f) st)).
  { intros ID f Hf. split; [done|]. split; [done|].
    intros ID'. cbn [cd on_cd set_cd]. rewrite sw_upd.
    case_decide as H; [|done]. destruct H as [<- _]. apply Hf. }
  destruct l as [| v | | | | | | | | | |c6 c7 p]; cbn [apply_line] in E;
    try discriminate Hl;
    try (injection E as <-; apply same_commands_refl);
    try (destruct (negb initial); injection E as <-; by repeat split).
  destruct (switch_id c6 c7) as [ID|]; [|injection E as <-; apply same_commands_refl].
  destruct p as [v|v|v|chk val|chk val|]; try discriminate Hl;
    try (injection E as <-; apply same_commands_refl).
  - injection E as <-. apply Hupd. done.
  - destruct (negb initial); [injection E as <-; apply same_commands_refl|].
    destruct (negb (v =? 0)); [|discriminate].
    injection E as <-. apply Hupd. done.
  - injection E as <-. apply Hupd. done.
Qed.

Lemma apply_lines_same_commands initial ls st st' :
  Forall (fun l => sets_command l = false) ls ->
  apply_lines initial ls st = Ret st' -> same_commands st st'.
Proof.
  revert st. induction ls as [|l ls IH]; intros st Hls E; cbn [apply_lines] in E.
  - injection E as <-. apply same_commands_refl.
  - destruct (apply_line initial l st) as [st1|] eqn:E1; [|discriminate].
    cbn [bind] in E. apply Forall_cons in Hls. destruct Hls as [Hl Hls].
    apply (same_commands_trans st st1 st');
      [by apply (apply_line_same_commands initial l) | by apply IH].
Qed.

(** X14: no call of [RefreshConfig] sets a command back to [NULL]: a
    rate-change, an overdue, an On or an Off command that is configured
    before the call is configured after it, whatever the file holds; what
    its text is then is another matter. A file without any line of a
    command leaves every command as it was, so deleting the line of a
    command does not take the command away. A [RateChange] or [Overdue]
    line with an empty value is ignored. An [On] line with an empty value
    is not: in the sample installation [Switch0On=] replaces the On command
    of switch 0 by the empty command. *)
Theorem reload_never_unsets (w : World) (initial : bool) (st st' : Sys) :
  RefreshConfig w initial st = Ret st' ->
  commands_kept st st' /\
  ((forall ls : list ConfLine,
       conffile w = Some ls -> Forall (fun l => sets_command l = false) ls) ->
   same_commands st st') /\
  (forall st1 : Sys,
      apply_line initial (LRateChange "") st = Ret st1 \/
      apply_line initial (LOverdue "") st = Ret st1 ->
      same_commands st st1) /\
  (exists st1 : Sys,
      apply_line false (LSwitch "0" "O" (POn "=" "")) (running (basement pump)) = Ret st1 /\
      FloatSwitch.OnAction (sw0 (running (basement pump))) = Some "echo Switch0On" /\
      FloatSwitch.OnAction (sw0 st1) = Some "").
Proof.
  intros E. split; [|split; [|split]].
  - revert E.
    assert (Hrefl : commands_kept st st) by (by repeat split).
    assert (Hload : forall h st',
      load_config w initial (set_hash h st) = Ret st' -> commands_kept st st').
    { intros h st1 E. unfold load_config in E.
      destruct (conffile w) as [ls|].
      - destruct (apply_lines initial ls (set_hash h st)) as [st2|] eqn:E2; [|discriminate].
        cbn [bind] in E. injection E as <-.
        apply (commands_kept_trans st st2); [|by repeat split].
        apply (commands_kept_trans st (set_hash h st)); [by repeat split|].
        by apply (apply_lines_commands initial ls).
      - destruct initial; [discriminate|]. injection E as <-. by repeat split. }
    unfold RefreshConfig. intros E.
    destruct (negb initial), (configsum w) as [rd|];
      try (injection E as <-; exact Hrefl).
    + destruct (String.eqb _ _); [injection E as <-; exact Hrefl|]. by apply (Hload _ _ E).
    + by apply (Hload _ _ E).
  - intros Hfile. revert E.
    assert (Hload : forall h st',
      load_config w initial (set_hash h st) = Ret st' -> same_commands st st').
    { intros h st1 E. unfold load_config in E.
      destruct (conffile w) as [ls|] eqn:Ew.
      - destruct (apply_lines initial ls (set_hash h st)) as [st2|] eqn:E2; [|discriminate].
        cbn [bind] in E. injection E as <-.
        apply (same_commands_trans st st2); [|by repeat split].
        apply (same_commands_trans st (set_hash h st)); [by repeat split|].
        apply (apply_lines_same_commands initial ls); [by apply Hfile | exact E2].
      - destruct initial; [discriminate|]. injection E as <-. by repeat split. }
    unfold RefreshConfig. intros E.
    destruct (negb initial), (configsum w) as [rd|];
      try (injection E as <-; apply same_commands_refl).
    + destruct (String.eqb _ _); [injection E as <-; apply same_commands_refl|].
      by apply (Hload _ _ E).
    + by apply (Hload _ _ E).
  - intros st1 [H|H]; cbn [apply_line] in H; injection H as <-; by repeat split.
  - eexists. split; [reflexivity|]. split; reflexivity.
Qed.

Lemma reload_never_unsets_witness :
  exists st',
    RefreshConfig readable false loaded = Ret st' /\
    ConfigData.overduethreshold (cd st') = 300 /\
    ConfigData.overdue (cd st') = Some "mail overdue" /\
    commands_kept loaded st' /\ same_commands loaded st'.
Proof.
  destruct (RefreshConfig readable false loaded) as [st'|] eqn:E;
    [|vm_compute in E; discriminate].
  exists st'. split; [reflexivity|].
  split; [vm_compute in E; injection E as <-; reflexivity|].
  split; [vm_compute in E; injection E as <-; reflexivity|].
  destruct (reload_never_unsets readable false loaded st' E) as (H1 & H2 & _).
  split; [exact H1|]. apply H2.
  intros ls Hls. injection Hls as <-. repeat constructor.
Defined.
(** ** The comparison of keywords *)

Lemma in_all_ascii c : In c all_ascii.
Proof.
  unfold all_ascii. apply in_map_iff. exists (nat_of_ascii c).
  split; [apply ascii_nat_embedding|]. apply in_seq.
  pose proof (nat_ascii_bounded c). lia.
Qed.

(** A property checked on every character holds of every character. *)
Lemma ascii_forall (P : ascii -> bool) :
  forallb P all_ascii = true -> forall c, P c = true.
Proof.
  intros H c. rewrite forallb_forall in H. apply H, in_all_ascii.
Qed.

Lemma ascii_forall2 (P : ascii -> ascii -> bool) :
  forallb (fun a => forallb (P a) all_ascii) all_ascii = true ->
  forall a b, P a b = true.
Proof.
  intros H a b.
  pose proof (ascii_forall _ H a) as Ha. cbv beta in Ha.
  apply (ascii_forall _ Ha b).
Qed.

(** The loop of [sa_strcmp] continues exactly on two characters that are
    equal up to the case of letters. *)
Lemma sa_continue sg a b s1 s2 :
  sa_step sg (String a s1) (String b s2) 0 =
    if Ascii.eqb (to_lower a) (to_lower b) then None
    else Some (char_val sg a - char_val sg b).
Proof.
  unfold sa_step. cbn [char_at String.get].
  set (P := fun a b : ascii =>
       Bool.eqb
         ((char_val sg a - char_val sg b =? 0)
          || ((char_val sg a - char_val sg b =? 32)
              && (char_val sg "a" <=? char_val sg a) && (char_val sg a <=? char_val sg "z"))
          || ((char_val sg a - char_val sg b =? -32)
              && (char_val sg "A" <=? char_val sg a) && (char_val sg a <=? char_val sg "Z")))
         (Ascii.eqb (to_lower a) (to_lower b))).
  assert (Hall : forallb (fun a => forallb (P a) all_ascii) all_ascii = true)
    by (clear; destruct sg; vm_compute; reflexivity).
  pose proof (ascii_forall2 P Hall a b) as H. unfold P in H.
  apply eqb_prop in H. rewrite H. reflexivity.
Qed.

Lemma sa_step_tail sg a b s1 s2 i :
  sa_step sg (String a s1) (String b s2) (S i) = sa_step sg s1 s2 i.
Proof. reflexivity. Qed.

Lemma sa_loop_tail sg a b s1 s2 k n :
  sa_loop sg (String a s1) (String b s2) (seq (S k) n) = sa_loop sg s1 s2 (seq k n).
Proof.
  revert k. induction n as [|n IH]; intros k; [reflexivity|].
  cbn [seq sa_loop]. rewrite sa_step_tail, IH. reflexivity.
Qed.

(** The equations of [sa_strcmp]. *)
Lemma sa_strcmp_nil_l sg s : sa_strcmp sg "" s = 0.
Proof.
  unfold sa_strcmp. cbn [String.length].
  replace (String.length s <? 0)%nat with false by (symmetry; apply Nat.ltb_ge; lia).
  reflexivity.
Qed.

Lemma sa_strcmp_nil_r sg s : sa_strcmp sg s "" = 0.
Proof.
  unfold sa_strcmp. cbn [String.length].
  destruct (Nat.ltb_spec 0 (String.length s)) as [|H]; [reflexivity|].
  replace (String.length s) with 0%nat by lia. reflexivity.
Qed.

Lemma sa_strcmp_cons sg a b s1 s2 :
  sa_strcmp sg (String a s1) (String b s2) =
    if Ascii.eqb (to_lower a) (to_lower b) then sa_strcmp sg s1 s2
    else char_val sg a - char_val sg b.
Proof.
  unfold sa_strcmp. cbn [String.length].
  change (S (String.length s2) <? S (String.length s1))%nat
    with (String.length s2 <? String.length s1)%nat.
  assert (E : (if (String.length s2 <? String.length s1)%nat
               then S (String.length s2) else S (String.length s1))
              = S (if (String.length s2 <? String.length s1)%nat
                   then String.length s2 else String.length s1))
    by (by destruct (_ <? _)%nat).
  rewrite E. cbn [seq sa_loop]. rewrite sa_continue, sa_loop_tail.
  by destruct (Ascii.eqb _ _).
Qed.

Lemma agree_nil_l s : agree "" s.
Proof. intros i H. simpl in H. lia. Qed.

Lemma agree_nil_r s : agree s "".
Proof. intros i _ H. simpl in H. lia. Qed.

Lemma agree_cons a b s1 s2 :
  agree (String a s1) (String b s2) <-> to_lower a = to_lower b /\ agree s1 s2.
Proof.
  split.
  - intros H. split.
    + apply (H 0%nat); simpl; lia.
    + intros i H1 H2. apply (H (S i)); simpl; lia.
  - intros [H0 H] [|i] H1 H2; [exact H0|].
    apply (H i); simpl in H1, H2; lia.
Qed.

Lemma to_lower_differ sg a b :
  to_lower a <> to_lower b -> char_val sg a - char_val sg b <> 0.
Proof.
  intros Hne Hz. apply Hne.
  assert (E : char_val sg a = char_val sg b) by lia.
  assert (Hinj : a = b); [|by rewrite Hinj].
  rewrite <- (ascii_nat_embedding a), <- (ascii_nat_embedding b). f_equal.
  unfold char_val in E. cbv zeta in E.
  pose proof (nat_ascii_bounded a). pose proof (nat_ascii_bounded b).
  destruct sg; cbn [andb] in E;
    [destruct (Z.ltb_spec 127 (Z.of_nat (nat_of_ascii a))),
              (Z.ltb_spec 127 (Z.of_nat (nat_of_ascii b)))|]; lia.
Qed.

(** X15: [sa_strcmp] returns 0 exactly when the two strings are equal, up to
    the case of letters, as far as the shorter one goes: a string matches
    every string it begins, and the empty string matches everything. *)
Theorem sa_strcmp_agree (char_signed : bool) (s1 s2 : string) :
  sa_strcmp char_signed s1 s2 = 0 <-> agree s1 s2.
Proof.
  revert s2. induction s1 as [|a s1 IH]; intros s2.
  - rewrite sa_strcmp_nil_l. split; [intros _; apply agree_nil_l | reflexivity].
  - destruct s2 as [|b s2].
    + rewrite sa_strcmp_nil_r. split; [intros _; apply agree_nil_r | reflexivity].
    + rewrite sa_strcmp_cons, agree_cons.
      destruct (Ascii.eqb_spec (to_lower a) (to_lower b)) as [E|Hne].
      * rewrite IH. tauto.
      * split; [|tauto]. intros Hz. by apply to_lower_differ in Hz.
Qed.

(** X16: exchanging the arguments of [sa_strcmp] changes the sign of the
    result. *)
Theorem sa_strcmp_antisym (char_signed : bool) (s1 s2 : string) :
  sa_strcmp char_signed s2 s1 = - sa_strcmp char_signed s1 s2.
Proof.
  revert s2. induction s1 as [|a s1 IH]; intros s2.
  - by rewrite sa_strcmp_nil_l, sa_strcmp_nil_r.
  - destruct s2 as [|b s2].
    + by rewrite sa_strcmp_nil_l, sa_strcmp_nil_r.
    + rewrite !sa_strcmp_cons.
      destruct (Ascii.eqb_spec (to_lower a) (to_lower b)) as [E|Hne].
      * rewrite E, Ascii.eqb_refl. apply IH.
      * destruct (Ascii.eqb_spec (to_lower b) (to_lower a)) as [E|_]; [congruence | lia].
Qed.

(** ** The selection of a directive *)

(** Whatever follows a text does not change a comparison that the text
    decides: one with a keyword no longer than the text, or one that finds
    a difference inside the text. *)
Lemma sa_strcmp_decided sg p r k :
  (String.length k <= String.length p)%nat \/ sa_strcmp sg p k <> 0 ->
  sa_strcmp sg (p ++ r) k = sa_strcmp sg p k.
Proof.
  revert k. induction p as [|a p IH]; intros k H.
  - destruct k as [|b k].
    + by rewrite !sa_strcmp_nil_r.
    + destruct H as [H|H]; [simpl in H; lia|]. by rewrite sa_strcmp_nil_l in H.
  - destruct k as [|b k]; [by rewrite !sa_strcmp_nil_r|].
    change (String a p ++ r)%string with (String a (p ++ r)).
    rewrite !sa_strcmp_cons. rewrite sa_strcmp_cons in H.
    destruct (Ascii.eqb (to_lower a) (to_lower b)); [|reflexivity].
    apply IH. destruct H as [H|H]; [left; simpl in H; lia | by right].
Qed.

Ltac decide_cmp :=
  repeat match goal with
  | |- context [sa_strcmp ?sg (?p ++ ?r) ?k] =>
      rewrite (sa_strcmp_decided sg p r k)
        by (first [left; vm_compute; lia | right; vm_compute; discriminate])
  end.

(** X17: every keyword written in full selects its own branch, whatever follows
    the sign [=]: no test that comes earlier takes the line. *)
Theorem directive_keyword (char_signed : bool) (d : Directive) (k rest : string) :
  keyword d = Some k ->
  directive char_signed (k ++ "=" ++ rest) = d.
Proof.
  intros Hk.
  assert (E : (k ++ "=" ++ rest = (k ++ "=") ++ rest)%string).
  { clear. induction k as [|a k IH]; [reflexivity|].
    change (String a k ++ "=" ++ rest)%string with (String a (k ++ "=" ++ rest)).
    by rewrite IH. }
  rewrite E. clear E.
  destruct d; try discriminate; injection Hk as <-;
    unfold directive;
    match goal with
    | |- context [String.length (?p ++ rest)] =>
        change (String.length (p ++ rest) <? 1)%nat with false;
        change (Ascii.eqb (char_at (p ++ rest) 0) "#") with false
    end;
    cbv iota; destruct char_signed; decide_cmp; vm_compute; reflexivity.
Qed.

Lemma directive_keyword_witness :
  directive false "RateChange=mail rate" = DRateChange /\
  directive false "RateChangeAmt=20" = DRateChangeAmt /\
  directive true "Overdue=mail overdue" = DOverdue /\
  directive true "OverdueThreshold=120" = DOverdueThreshold.
Proof.
  split; [|split; [|split]].
  - apply (directive_keyword false DRateChange "RateChange" "mail rate"). reflexivity.
  - apply (directive_keyword false DRateChangeAmt "RateChangeAmt" "20"). reflexivity.
  - apply (directive_keyword true DOverdue "Overdue" "mail overdue"). reflexivity.
  - apply (directive_keyword true DOverdueThreshold "OverdueThreshold" "120"). reflexivity.
Defined.

Lemma same_text_cons a a' s s' :
  same_text (String a s) (String a' s') -> to_lower a = to_lower a' /\ same_text s s'.
Proof.
  intros [Hl Hc]. split; [exact (Hc 0%nat)|]. split.
  - simpl in Hl. lia.
  - intros i. exact (Hc (S i)).
Qed.

(** A comparison with a keyword has the same outcome on two lines that
    are the same text. *)
Lemma same_text_cmp sg s s' k :
  same_text s s' -> (sa_strcmp sg s k =? 0) = (sa_strcmp sg s' k =? 0).
Proof.
  revert s' k. induction s as [|a s IH]; intros s' k H.
  - destruct s' as [|a' s']; [reflexivity|]. destruct H as [Hl _]. discriminate Hl.
  - destruct s' as [|a' s']; [destruct H as [Hl _]; discriminate Hl|].
    apply same_text_cons in H as [Ha H].
    destruct k as [|b k]; [by rewrite !sa_strcmp_nil_r|].
    rewrite !sa_strcmp_cons, <- Ha.
    destruct (Ascii.eqb_spec (to_lower a) (to_lower b)) as [E|Hne]; [by apply IH|].
    assert (Hne' : to_lower a' <> to_lower b) by (by rewrite <- Ha).
    apply (to_lower_differ sg) in Hne, Hne'.
    apply Z.eqb_neq in Hne, Hne'. by rewrite Hne, Hne'.
Qed.

Lemma to_lower_hash c : to_lower c = "#"%char -> c = "#"%char.
Proof.
  intros H.
  pose proof (ascii_forall
    (fun c => implb (Ascii.eqb (to_lower c) "#") (Ascii.eqb c "#")) eq_refl c) as Hc.
  cbv beta in Hc. rewrite H, Ascii.eqb_refl in Hc. cbn [implb] in Hc.
  by apply Ascii.eqb_eq.
Qed.

(** X18: the selection of a branch does not depend on the case of the letters
    of the line. *)
Theorem directive_ignores_case (char_signed : bool) (s s' : string) :
  same_text s s' -> directive char_signed s = directive char_signed s'.
Proof.
  intros H. unfold directive.
  rewrite !(same_text_cmp char_signed s s' _ H).
  destruct H as [Hl Hc]. rewrite Hl.
  assert (Hh : Ascii.eqb (char_at s 0) "#" = Ascii.eqb (char_at s' 0) "#").
  { pose proof (Hc 0%nat) as H0.
    destruct (Ascii.eqb_spec (char_at s 0) "#") as [E|E],
             (Ascii.eqb_spec (char_at s' 0) "#") as [E'|E']; try reflexivity.
    - exfalso. apply E'. apply to_lower_hash. by rewrite <- H0, E.
    - exfalso. apply E. apply to_lower_hash. by rewrite H0, E'. }
  rewrite Hh. reflexivity.
Qed.

Lemma directive_ignores_case_witness :
  directive false "SUMPdepth = 760" = DSumpDepth.
Proof.
  rewrite (directive_ignores_case false "SUMPdepth = 760" "SumpDepth = 760").
  - reflexivity.
  - split; [reflexivity|].
    intros i. do 15 (destruct i as [|i]; [reflexivity|]). reflexivity.
Defined.
(** ** The trimming of a line *)

Lemma strlen_app txt l :
  Forall (fun c => c <> NUL) txt -> strlen (txt ++ l) = (length txt + strlen l)%nat.
Proof.
  induction 1 as [|c txt Hc _ IH]; [reflexivity|]. cbn [app strlen length].
  destruct (Ascii.eqb_spec c NUL); [contradiction|]. by rewrite IH.
Qed.

Lemma cstr_text txt tl :
  Forall (fun c => c <> NUL) txt -> cstr (txt ++ NUL :: tl) = txt.
Proof.
  intros H. unfold cstr. rewrite (strlen_app _ _ H). cbn [strlen].
  change (Ascii.eqb NUL NUL) with true. cbv iota.
  rewrite Nat.add_0_r. apply take_app_length.
Qed.

Lemma space_not_NUL c : is_space c = true -> c <> NUL.
Proof. intros H ->. discriminate H. Qed.

Lemma spaces_not_NUL ws :
  Forall (fun c => is_space c = true) ws -> Forall (fun c => c <> NUL) ws.
Proof. intros H. eapply Forall_impl; [exact H | exact space_not_NUL]. Qed.

Lemma find_text_spaces s k n :
  (forall i, (k <= i < k + n)%nat -> is_space (s !!! i) = true) ->
  find_text s (seq k n) = None.
Proof.
  revert k. induction n as [|n IH]; intros k H; [reflexivity|].
  cbn [seq find_text]. rewrite (H k) by lia. apply IH. intros i Hi. apply H. lia.
Qed.

Lemma find_text_first s k m n :
  (forall i, (k <= i < k + m)%nat -> is_space (s !!! i) = true) ->
  is_space (s !!! (k + m)%nat) = false -> (m < n)%nat ->
  find_text s (seq k n) = Some (k + m)%nat.
Proof.
  revert k n. induction m as [|m IH]; intros k n H Hc Hlt;
    (destruct n as [|n]; [lia|]); cbn [seq find_text].
  - rewrite Nat.add_0_r in *. by rewrite Hc.
  - rewrite (H k) by lia. replace (k + S m)%nat with (S k + m)%nat in * by lia.
    apply IH; [|exact Hc | lia]. intros i Hi. apply H. lia.
Qed.

(** The copy loop moves the text to the front and leaves the rest of the
    buffer as it was. *)
Lemma shift_text_spec (ws txt tl : list ascii) :
  shift_text (length ws) (length ws + length txt) (ws ++ txt ++ tl)
    = txt ++ drop (length txt) (ws ++ txt ++ tl).
Proof.
  unfold shift_text. replace (length ws + length txt - length ws)%nat with (length txt) by lia.
  set (s := ws ++ txt ++ tl).
  assert (Hk : forall k, (k <= length txt)%nat ->
    fold_left (fun (s : list ascii) (i : nat) => <[i := s !!! (i + length ws)%nat]> s)
              (seq 0 k) s = take k txt ++ drop k s).
  { induction k as [|k IH]; intros Hle.
    - cbn [seq fold_left take app]. by rewrite drop_0.
    - rewrite seq_S, fold_left_app, IH by lia. cbn [fold_left Nat.add].
      assert (Hlt : (k < length txt)%nat) by lia.
      assert (Hlk : length (take k txt) = k) by (rewrite length_take; lia).
      assert (Hread : (take k txt ++ drop k s) !!! (k + length ws)%nat = txt !!! k).
      { rewrite lookup_total_app_r by lia. rewrite Hlk, lookup_total_drop.
        unfold s. rewrite lookup_total_app_r by lia.
        replace (k + (k + length ws - k) - length ws)%nat with k by lia.
        by apply lookup_total_app_l. }
      rewrite Hread.
      assert (Hs : (k < length s)%nat).
      { unfold s. rewrite !length_app. lia. }
      rewrite insert_app_r_alt by lia. rewrite Hlk, Nat.sub_diag.
      rewrite (drop_S s (s !!! k) k) by (by apply list_lookup_lookup_total_lt).
      cbn [insert list_insert].
      rewrite (take_S_r txt k (txt !!! k)) by (by apply list_lookup_lookup_total_lt).
      by rewrite <- app_assoc. }
  rewrite (Hk (length txt)) by lia. by rewrite firstn_all.
Qed.

(** The loop that works back leaves the buffer alone when it meets only
    whitespace, and otherwise cuts after the last index that holds
    something else. *)
Lemma cut_back_spec s a n :
  (cut_back s (rev (seq a n)) = s /\
   forall i, (a <= i < a + n)%nat -> is_space (s !!! i) = true) \/
  exists j, (a <= j < a + n)%nat /\ is_space (s !!! j) = false /\
            (forall i, (j < i < a + n)%nat -> is_space (s !!! i) = true) /\
            cut_back s (rev (seq a n)) = <[S j := NUL]> s.
Proof.
  induction n as [|n IH].
  - left. split; [reflexivity|]. intros i Hi. lia.
  - rewrite seq_S, rev_unit. cbn [cut_back].
    destruct (is_space (s !!! (a + n)%nat)) eqn:Hs.
    + destruct IH as [[E H]|(j & Hj & Hc & H & E)].
      * left. split; [exact E|]. intros i Hi.
        destruct (decide (i = (a + n)%nat)) as [->|]; [exact Hs | apply H; lia].
      * right. exists j. split; [lia|]. split; [exact Hc|]. split; [|exact E].
        intros i Hi.
        destruct (decide (i = (a + n)%nat)) as [->|]; [exact Hs | apply H; lia].
    + right. exists (a + n)%nat. split; [lia|]. split; [exact Hs|].
      split; [intros i Hi; lia | reflexivity].
Qed.

Lemma lookup_part (l0 l1 l2 : list ascii) i :
  (length l0 <= i < length l0 + length l1)%nat ->
  (l0 ++ l1 ++ l2) !!! i = l1 !!! (i - length l0)%nat.
Proof.
  intros H. rewrite lookup_total_app_r by lia. apply lookup_total_app_l. lia.
Qed.

Lemma lookup_mid (l0 : list ascii) x l2 : (l0 ++ x :: l2) !!! length l0 = x.
Proof. rewrite lookup_total_app_r by lia. by rewrite Nat.sub_diag. Qed.

Lemma strlen_cut0 (l : list ascii) : strlen (<[0%nat := NUL]> l) = 0%nat.
Proof. by destruct l. Qed.

(** The buffer after [trim] when the line begins with whitespace. *)
Lemma trim_buf_lead (ws txt junk : list ascii) :
  Forall (fun c => is_space c = true) ws -> ws <> [] ->
  Forall (fun c => c <> NUL) txt ->
  is_space (hd NUL txt) = false ->
  exists tl, trim (ws ++ txt ++ NUL :: junk) = txt ++ NUL :: tl.
Proof.
  intros Hws Hne Htxt Hhd.
  assert (Hlen : strlen (ws ++ txt ++ NUL :: junk) = (length ws + length txt)%nat).
  { rewrite (strlen_app ws) by (by apply spaces_not_NUL).
    rewrite (strlen_app txt) by exact Htxt. cbn [strlen].
    change (Ascii.eqb NUL NUL) with true. cbv iota. lia. }
  assert (Hsp : forall i, (0 <= i < 0 + length ws)%nat ->
                is_space ((ws ++ txt ++ NUL :: junk) !!! i) = true).
  { intros i Hi. rewrite lookup_total_app_l by lia.
    apply (Forall_lookup_total_1 _ ws i Hws). lia. }
  unfold trim. rewrite Hlen. cbv zeta.
  destruct txt as [|c rest].
  - rewrite Nat.add_0_r. rewrite (find_text_spaces _ 0 (length ws) Hsp).
    destruct ws as [|w ws]; [contradiction|]. eexists. reflexivity.
  - cbn [hd] in Hhd.
    rewrite (find_text_first _ 0 (length ws) (length ws + length (c :: rest)));
      [|exact Hsp
       |cbn [Nat.add]; change ((c :: rest) ++ NUL :: junk) with (c :: rest ++ NUL :: junk);
        by rewrite lookup_mid
       |cbn [length]; lia].
    cbn [Nat.add].
    assert (Hpos : (0 <? length ws)%nat = true).
    { apply Nat.ltb_lt. destruct ws; [contradiction | cbn [length]; lia]. }
    rewrite Hpos, shift_text_spec.
    replace (length ws + length (c :: rest) - length ws)%nat
      with (length (c :: rest) + 0)%nat by lia.
    rewrite insert_app_r.
    set (s := ws ++ (c :: rest) ++ NUL :: junk).
    assert (Hs : (length (c :: rest) < length s)%nat).
    { unfold s. rewrite !length_app. cbn [length].
      destruct ws; [contradiction | cbn [length]; lia]. }
    rewrite (drop_S s (s !!! length (c :: rest)) (length (c :: rest)))
      by (by apply list_lookup_lookup_total_lt).
    cbn [insert list_insert].
    set (tl := drop (S (length (c :: rest))) s).
    assert (Hws1 : (1 <= length ws)%nat)
      by (destruct ws; [contradiction | cbn [length]; lia]).
    destruct (cut_back_spec ((c :: rest) ++ NUL :: tl) 1
                (length ws + length (c :: rest) - 1))
      as [[_ H]|(j & Hj & Hc & H & ->)].
    + exfalso. specialize (H (length (c :: rest))).
      rewrite lookup_mid in H. cbn [length] in H. discriminate H. lia.
    + assert (Hge : (length (c :: rest) <= j)%nat).
      { destruct (decide (length (c :: rest) <= j)%nat) as [|Hn]; [done|].
        exfalso. specialize (H (length (c :: rest))).
        rewrite lookup_mid in H. discriminate H. cbn [length] in *. lia. }
      rewrite insert_app_r_alt by lia.
      replace (S j - length (c :: rest))%nat with (S (j - length (c :: rest))) by lia.
      cbn [insert list_insert]. eexists. reflexivity.
Qed.

(** X19: a line that begins with whitespace loses exactly that whitespace: a
    line of nothing but whitespace becomes empty, and otherwise
    everything from the first printable character on is kept, the
    whitespace at the end of the line included. *)
Theorem trim_leading_whitespace (ws txt junk : list ascii) :
  Forall (fun c => is_space c = true) ws -> ws <> [] ->
  Forall (fun c => c <> NUL) txt ->
  is_space (hd NUL txt) = false ->
  cstr (trim (ws ++ txt ++ NUL :: junk)) = txt.
Proof.
  intros Hws Hne Htxt Hhd.
  destruct (trim_buf_lead ws txt junk Hws Hne Htxt Hhd) as [tl ->].
  by apply cstr_text.
Qed.

Lemma trim_leading_whitespace_witness :
  cstr (trim (list_ascii_of_string "  LogLevel = 2  " ++ [NUL; "x"%char]))
    = list_ascii_of_string "LogLevel = 2  ".
Proof.
  apply (trim_leading_whitespace
           (list_ascii_of_string "  ") (list_ascii_of_string "LogLevel = 2  ")
           ["x"%char]).
  - repeat constructor.
  - discriminate.
  - repeat constructor; discriminate.
  - reflexivity.
Defined.

(** The buffer after [trim] when the line begins with a printable
    character and holds another one. *)
Lemma trim_buf_trail (c : ascii) (mid : list ascii) (d : ascii) (ws junk : list ascii) :
  is_space c = false -> c <> NUL ->
  Forall (fun c => is_space c = true) ws ->
  Forall (fun c => c <> NUL) mid -> is_space d = false -> d <> NUL ->
  exists tl,
    trim ((c :: mid ++ [d]) ++ ws ++ NUL :: junk) = (c :: mid ++ [d]) ++ NUL :: tl.
Proof.
  intros Hc Hc0 Hws Hmid Hd Hd0.
  set (s := (c :: mid ++ [d]) ++ ws ++ NUL :: junk).
  assert (Htxt : Forall (fun c => c <> NUL) (c :: mid ++ [d])).
  { apply Forall_cons. split; [exact Hc0|]. apply Forall_app. split; [exact Hmid|].
    by apply Forall_singleton. }
  assert (Hlen : strlen s = (length (c :: mid ++ [d]) + length ws)%nat).
  { unfold s. rewrite (strlen_app _ _ Htxt).
    rewrite (strlen_app ws) by (by apply spaces_not_NUL). cbn [strlen].
    change (Ascii.eqb NUL NUL) with true. cbv iota. lia. }
  assert (Hl : length (c :: mid ++ [d]) = S (S (length mid))).
  { cbn [length]. rewrite length_app. cbn [length]. lia. }
  unfold trim. rewrite Hlen, Hl. cbv zeta. cbn [Nat.add seq find_text].
  change (s !!! 0%nat) with c. rewrite Hc.
  change (0 <? 0)%nat with false. cbv iota.
  assert (Hd' : s !!! S (length mid) = d).
  { unfold s. rewrite lookup_total_app_l by (rewrite Hl; lia).
    change (c :: mid ++ [d]) with ((c :: mid) ++ [d]).
    apply (lookup_mid (c :: mid) d []). }
  assert (Hsp : forall i, (S (length mid) < i < 1 + (S (S (length mid + length ws)) - 1))%nat ->
                is_space (s !!! i) = true).
  { intros i Hi. unfold s. rewrite lookup_total_app_r by (rewrite Hl; lia).
    rewrite lookup_total_app_l by (rewrite Hl; lia).
    apply (Forall_lookup_total_1 _ ws _ Hws). rewrite Hl. lia. }
  destruct (cut_back_spec s 1 (S (S (length mid + length ws)) - 1))
    as [[_ H]|(j & Hj & Hcj & H & ->)].
  - exfalso. specialize (H (S (length mid))). rewrite Hd', Hd in H.
    discriminate H. lia.
  - assert (Ej : j = S (length mid)).
    { destruct (decide (j < S (length mid))%nat).
      - exfalso. specialize (H (S (length mid))). rewrite Hd', Hd in H.
        discriminate H. lia.
      - destruct (decide (S (length mid) < j)%nat); [|lia].
        exfalso. rewrite Hsp in Hcj by lia. discriminate. }
    subst j. unfold s. rewrite insert_app_r_alt by (rewrite Hl; lia).
    rewrite Hl, Nat.sub_diag.
    assert (Ecut : exists tl, <[0%nat := NUL]> (ws ++ NUL :: junk) = NUL :: tl).
    { destruct ws; eexists; reflexivity. }
    destruct Ecut as [tl ->]. by exists tl.
Qed.

(** [trim] leaves the buffer alone when nothing but whitespace follows a
    first printable character. *)
Lemma trim_buf_single (c : ascii) (ws junk : list ascii) :
  is_space c = false -> c <> NUL ->
  Forall (fun c => is_space c = true) ws ->
  trim (c :: ws ++ NUL :: junk) = c :: ws ++ NUL :: junk.
Proof.
  intros Hc Hc0 Hws.
  set (s := c :: ws ++ NUL :: junk).
  assert (Htxt : Forall (fun c => c <> NUL) (c :: ws)).
  { apply Forall_cons. split; [exact Hc0 | by apply spaces_not_NUL]. }
  assert (Hlen : strlen s = S (length ws)).
  { unfold s. change (c :: ws ++ NUL :: junk) with ((c :: ws) ++ NUL :: junk).
    rewrite (strlen_app _ _ Htxt). cbn [strlen length].
    change (Ascii.eqb NUL NUL) with true. cbv iota. lia. }
  unfold trim. rewrite Hlen. cbv zeta. cbn [seq find_text].
  change (s !!! 0%nat) with c. rewrite Hc.
  change (0 <? 0)%nat with false. cbv iota.
  destruct (cut_back_spec s 1 (S (length ws) - 1))
    as [[-> _]|(j & Hj & Hcj & _)]; [reflexivity|].
  exfalso. destruct j as [|j]; [lia|].
  assert (E : s !!! S j = ws !!! j).
  { unfold s. change ((c :: ws ++ NUL :: junk) !!! S j) with ((ws ++ NUL :: junk) !!! j).
    apply lookup_total_app_l. lia. }
  rewrite E in Hcj.
  rewrite (Forall_lookup_total_1 _ ws j Hws) in Hcj by lia. discriminate.
Qed.

(** X20: a line that begins with a printable character loses the whitespace at
    its end, unless nothing but whitespace follows that first character:
    then the line is kept as it is. *)
Theorem trim_trailing_whitespace (c : ascii) (ws junk : list ascii) :
  is_space c = false -> c <> NUL ->
  Forall (fun c => is_space c = true) ws ->
  (forall (mid : list ascii) (d : ascii),
      Forall (fun c => c <> NUL) mid -> is_space d = false -> d <> NUL ->
      cstr (trim ((c :: mid ++ [d]) ++ ws ++ NUL :: junk)) = c :: mid ++ [d]) /\
  cstr (trim (c :: ws ++ NUL :: junk)) = c :: ws.
Proof.
  intros Hc Hc0 Hws. split.
  - intros mid d Hmid Hd Hd0.
    destruct (trim_buf_trail c mid d ws junk Hc Hc0 Hws Hmid Hd Hd0) as [tl ->].
    apply cstr_text. apply Forall_cons. split; [exact Hc0|].
    apply Forall_app. split; [exact Hmid | by apply Forall_singleton].
  - rewrite (trim_buf_single c ws junk Hc Hc0 Hws).
    change (c :: ws ++ NUL :: junk) with ((c :: ws) ++ NUL :: junk).
    apply cstr_text. apply Forall_cons. split; [exact Hc0 | by apply spaces_not_NUL].
Qed.

Lemma trim_trailing_whitespace_witness :
  cstr (trim (list_ascii_of_string "LogLevel = 2  " ++ [NUL; "x"%char]))
    = list_ascii_of_string "LogLevel = 2" /\
  cstr (trim (list_ascii_of_string "#  " ++ [NUL])) = list_ascii_of_string "#  ".
Proof.
  destruct (trim_trailing_whitespace "L" (list_ascii_of_string "  ") ["x"%char])
    as [H _]; [reflexivity | discriminate | repeat constructor|].
  destruct (trim_trailing_whitespace "#" (list_ascii_of_string "  ") [])
    as [_ H']; [reflexivity | discriminate | repeat constructor|].
  split.
  - apply (H (list_ascii_of_string "ogLevel = ") "2"%char).
    + repeat constructor; discriminate.
    + reflexivity.
    + discriminate.
  - exact H'.
Defined.
(** ** The operand of a directive *)

(** The buffer after [trim] when the text has neither whitespace at its
    end nor, but for [ws], at its start. *)
Lemma trim_buf_strip (txt t junk : list ascii) :
  (2 <= length txt)%nat -> Forall (fun c => c <> NUL) txt ->
  is_space (hd NUL txt) = false -> is_space (List.last txt NUL) = false ->
  Forall (fun c => is_space c = true) t ->
  exists tl, trim (txt ++ t ++ NUL :: junk) = txt ++ NUL :: tl.
Proof.
  intros Hlen Htxt Hhd Hlast Ht.
  destruct txt as [|c rest]; [simpl in Hlen; lia|].
  destruct (exists_last (l := rest)) as (mid & d & ->);
    [intros ->; simpl in Hlen; lia|].
  change (c :: mid ++ [d]) with ((c :: mid) ++ [d]) in Hlast.
  rewrite List.last_last in Hlast. cbn [hd] in Hhd.
  apply Forall_cons in Htxt as [Hc0 Htxt]. apply Forall_app in Htxt as [Hmid Hd0].
  apply (proj1 (Forall_singleton _ d)) in Hd0.
  exact (trim_buf_trail c mid d t junk Hhd Hc0 Ht Hmid Hlast Hd0).
Qed.

Lemma trim_buf_clean (ws txt junk : list ascii) :
  Forall (fun c => is_space c = true) ws ->
  txt <> [] -> Forall (fun c => c <> NUL) txt ->
  is_space (hd NUL txt) = false -> is_space (List.last txt NUL) = false ->
  exists tl, trim (ws ++ txt ++ NUL :: junk) = txt ++ NUL :: tl.
Proof.
  intros Hws Hne Htxt Hhd Hlast.
  destruct ws as [|w ws]; [|by apply trim_buf_lead].
  cbn [app]. destruct txt as [|c rest]; [contradiction|].
  destruct rest as [|c' rest].
  - cbn [hd] in Hhd. apply Forall_cons in Htxt as [Hc0 _].
    exists junk. apply (trim_buf_single c [] junk Hhd Hc0). constructor.
  - apply (trim_buf_strip (c :: c' :: rest) [] junk); auto. cbn [length]. lia.
Qed.

Lemma last_app_cons (l1 : list ascii) x l2 d : List.last (l1 ++ x :: l2) d = List.last (x :: l2) d.
Proof.
  induction l1 as [|a l1 IH]; [reflexivity|].
  cbn [app]. rewrite <- IH. destruct (l1 ++ x :: l2) eqn:E; [|reflexivity].
  by destruct l1.
Qed.

Lemma last_app_ne (l1 l2 : list ascii) d :
  l2 <> [] -> List.last (l1 ++ l2) d = List.last l2 d.
Proof. destruct l2 as [|x l2]; [done|]. intros _. apply last_app_cons. Qed.

Lemma hd_app_ne (l1 l2 : list ascii) d : l1 <> [] -> hd d (l1 ++ l2) = hd d l1.
Proof. by destruct l1. Qed.

Lemma trim_at_app (pre rest : list ascii) k :
  k = length pre -> trim_at k (pre ++ rest) = pre ++ trim rest.
Proof.
  intros ->. unfold trim_at. by rewrite take_app_length, drop_app_length.
Qed.

Ltac norm_app := repeat first [rewrite <- app_assoc | progress (cbn [app])].
Ltac norm_app_in H :=
  repeat first [rewrite <- app_assoc in H | progress (cbn [app] in H)].

(** X21: on a line that begins with its key, the operand is the value with no
    whitespace around it: the whitespace before and after the separator
    and at the end of the line is dropped. The separator is whatever
    printable character stands where the sign [=] is expected. *)
Theorem operand_of_line (key ws1 : list ascii) (sep : ascii) (ws2 v t junk : list ascii) :
  key <> [] -> is_space (hd NUL key) = false -> Forall (fun c => c <> NUL) key ->
  Forall (fun c => is_space c = true) ws1 ->
  is_space sep = false -> sep <> NUL ->
  Forall (fun c => is_space c = true) ws2 ->
  v <> [] -> Forall (fun c => c <> NUL) v ->
  is_space (hd NUL v) = false -> is_space (List.last v NUL) = false ->
  Forall (fun c => is_space c = true) t ->
  operand (length key) (key ++ ws1 ++ sep :: ws2 ++ v ++ t ++ NUL :: junk) = v.
Proof.
  intros Hkey Hk0 Hkey0 Hws1 Hsep Hsep0 Hws2 Hv Hv0 Hvh Hvl Ht.
  assert (Hval : Forall (fun c => c <> NUL) (sep :: ws2 ++ v)).
  { apply Forall_cons. split; [exact Hsep0|]. apply Forall_app.
    split; [by apply spaces_not_NUL | exact Hv0]. }
  assert (Hvall : List.last (sep :: ws2 ++ v) NUL = List.last v NUL).
  { change (sep :: ws2 ++ v) with ((sep :: ws2) ++ v). by apply last_app_ne. }
  (* trim(cline) *)
  assert (E1 : exists tl,
    trim (key ++ ws1 ++ sep :: ws2 ++ v ++ t ++ NUL :: junk)
      = key ++ ws1 ++ sep :: ws2 ++ v ++ NUL :: tl).
  { destruct (trim_buf_strip (key ++ ws1 ++ sep :: ws2 ++ v) t junk) as [tl E].
    - rewrite !length_app. cbn [length]. destruct key; [contradiction|]. cbn [length]. lia.
    - apply Forall_app. split; [exact Hkey0|]. apply Forall_app.
      split; [by apply spaces_not_NUL | exact Hval].
    - by rewrite hd_app_ne.
    - rewrite app_assoc, last_app_ne by discriminate. by rewrite Hvall.
    - exact Ht.
    - exists tl. norm_app_in E. exact E. }
  destruct E1 as [tl1 E1]. unfold operand. rewrite E1.
  (* trim(cline+n) *)
  rewrite trim_at_app by reflexivity.
  assert (E2 : exists tl,
    trim (ws1 ++ sep :: ws2 ++ v ++ NUL :: tl1) = sep :: ws2 ++ v ++ NUL :: tl).
  { destruct (trim_buf_clean ws1 (sep :: ws2 ++ v) tl1) as [tl E];
      [exact Hws1 | discriminate | exact Hval | exact Hsep | by rewrite Hvall|].
    exists tl. norm_app_in E. exact E. }
  destruct E2 as [tl2 ->].
  (* trim(cline+n+1) *)
  assert (R : key ++ sep :: ws2 ++ v ++ NUL :: tl2
              = (key ++ [sep]) ++ ws2 ++ v ++ NUL :: tl2) by (by norm_app).
  rewrite R.
  rewrite trim_at_app by (rewrite length_app; cbn [length]; lia).
  destruct (trim_buf_clean ws2 v tl2) as [tl3 ->];
    [exact Hws2 | exact Hv | exact Hv0 | exact Hvh | exact Hvl|].
  rewrite drop_app_length' by (rewrite length_app; cbn [length]; lia).
  by apply cstr_text.
Qed.

Lemma operand_of_line_witness :
  operand 9 (list_ascii_of_string "SumpDepth =  760  " ++ [NUL; "x"%char])
    = list_ascii_of_string "760".
Proof.
  apply (operand_of_line (list_ascii_of_string "SumpDepth")
           (list_ascii_of_string " ") "=" (list_ascii_of_string "  ")
           (list_ascii_of_string "760") (list_ascii_of_string "  ") ["x"%char]).
  - discriminate.
  - reflexivity.
  - repeat constructor; discriminate.
  - repeat constructor.
  - reflexivity.
  - discriminate.
  - repeat constructor.
  - discriminate.
  - repeat constructor; discriminate.
  - reflexivity.
  - reflexivity.
  - repeat constructor.
Defined.

(** X22: on a line that begins with whitespace and has whitespace on both
    sides of the separator, the operand is everything that follows the
    whitespace after the separator, up to the end of the line: the
    whitespace at the end of the line, its newline included, is part of
    the operand. *)
Theorem operand_of_indented_line (ind key ws1 : list ascii) (sep : ascii)
    (ws2 txt junk : list ascii) :
  Forall (fun c => is_space c = true) ind -> ind <> [] ->
  key <> [] -> is_space (hd NUL key) = false -> Forall (fun c => c <> NUL) key ->
  Forall (fun c => is_space c = true) ws1 -> ws1 <> [] ->
  is_space sep = false -> sep <> NUL ->
  Forall (fun c => is_space c = true) ws2 -> ws2 <> [] ->
  Forall (fun c => c <> NUL) txt -> is_space (hd NUL txt) = false ->
  operand (length key) (ind ++ key ++ ws1 ++ sep :: ws2 ++ txt ++ NUL :: junk) = txt.
Proof.
  intros Hind Hind0 Hkey Hk0 Hkey0 Hws1 Hws10 Hsep Hsep0 Hws2 Hws20 Htxt Hhd.
  assert (Hval : Forall (fun c => c <> NUL) (sep :: ws2 ++ txt)).
  { apply Forall_cons. split; [exact Hsep0|]. apply Forall_app.
    split; [by apply spaces_not_NUL | exact Htxt]. }
  (* trim(cline) *)
  assert (E1 : exists tl,
    trim (ind ++ key ++ ws1 ++ sep :: ws2 ++ txt ++ NUL :: junk)
      = key ++ ws1 ++ sep :: ws2 ++ txt ++ NUL :: tl).
  { destruct (trim_buf_lead ind (key ++ ws1 ++ sep :: ws2 ++ txt) junk) as [tl E];
      [exact Hind | exact Hind0| |by rewrite hd_app_ne|].
    { apply Forall_app. split; [exact Hkey0|]. apply Forall_app.
      split; [by apply spaces_not_NUL | exact Hval]. }
    exists tl. norm_app_in E. exact E. }
  destruct E1 as [tl1 E1]. unfold operand. rewrite E1.
  (* trim(cline+n) *)
  rewrite trim_at_app by reflexivity.
  assert (E2 : exists tl,
    trim (ws1 ++ sep :: ws2 ++ txt ++ NUL :: tl1) = sep :: ws2 ++ txt ++ NUL :: tl).
  { destruct (trim_buf_lead ws1 (sep :: ws2 ++ txt) tl1) as [tl E];
      [exact Hws1 | exact Hws10 | exact Hval | exact Hsep|].
    exists tl. norm_app_in E. exact E. }
  destruct E2 as [tl2 ->].
  (* trim(cline+n+1) *)
  assert (R : key ++ sep :: ws2 ++ txt ++ NUL :: tl2
              = (key ++ [sep]) ++ ws2 ++ txt ++ NUL :: tl2) by (by norm_app).
  rewrite R.
  rewrite trim_at_app by (rewrite length_app; cbn [length]; lia).
  destruct (trim_buf_lead ws2 txt tl2) as [tl3 ->];
    [exact Hws2 | exact Hws20 | exact Htxt | exact Hhd|].
  rewrite drop_app_length' by (rewrite length_app; cbn [length]; lia).
  by apply cstr_text.
Qed.

Lemma operand_of_indented_line_witness :
  operand 7 (list_ascii_of_string "  LogFile = /tmp/sump.log" ++ ["010"%char; NUL])
    = list_ascii_of_string "/tmp/sump.log" ++ ["010"%char].
Proof.
  apply (operand_of_indented_line (list_ascii_of_string "  ")
           (list_ascii_of_string "LogFile") (list_ascii_of_string " ") "="
           (list_ascii_of_string " ")
           (list_ascii_of_string "/tmp/sump.log" ++ ["010"%char]) []).
  - repeat constructor.
  - discriminate.
  - discriminate.
  - reflexivity.
  - repeat constructor; discriminate.
  - repeat constructor.
  - discriminate.
  - reflexivity.
  - discriminate.
  - repeat constructor.
  - discriminate.
  - repeat constructor; discriminate.
  - reflexivity.
Defined.
(** ** The branch of a switch *)

Lemma digit_code d : (d < 10)%nat -> nat_of_ascii (digit d) = (48 + d)%nat.
Proof. intros H. unfold digit. apply nat_ascii_embedding. lia. Qed.

Lemma is_digit_digit d : (d < 10)%nat -> is_digit (digit d) = true.
Proof.
  intros H. unfold is_digit. rewrite (digit_code d H).
  change (nat_of_ascii "0") with 48%nat. change (nat_of_ascii "9") with 57%nat.
  apply andb_true_intro. split; apply Nat.leb_le; lia.
Qed.

Lemma switch_id_two d1 d2 :
  (d1 < 10)%nat -> (d2 < 10)%nat ->
  switch_id (digit d1) (digit d2) = Some (d1 * 10 + d2)%nat.
Proof.
  intros H1 H2. unfold switch_id.
  rewrite (is_digit_digit d1 H1), (is_digit_digit d2 H2), (digit_code d1 H1), (digit_code d2 H2).
  change (nat_of_ascii "0") with 48%nat. f_equal. lia.
Qed.

Lemma switch_id_one d c :
  (d < 10)%nat -> is_digit c = false -> switch_id (digit d) c = Some d.
Proof.
  intros H Hc. unfold switch_id. rewrite (is_digit_digit d H), Hc, (digit_code d H).
  change (nat_of_ascii "0") with 48%nat. f_equal. lia.
Qed.

(** Two strings whose first characters differ compare as different. *)
Lemma sa_strcmp_first sg a b s k :
  to_lower a <> to_lower b -> (sa_strcmp sg (String a s) (String b k) =? 0) = false.
Proof.
  intros H. rewrite sa_strcmp_cons.
  destruct (Ascii.eqb_spec (to_lower a) (to_lower b)); [contradiction|].
  by apply Z.eqb_neq, to_lower_differ.
Qed.

Lemma digit_not_letter d b :
  (d < 10)%nat -> In b ["L"; "P"; "B"; "O"]%char -> to_lower (digit d) <> to_lower b.
Proof.
  intros H Hb.
  do 10 (destruct d as [|d];
         [destruct Hb as [<-|[<-|[<-|[<-|[]]]]]; vm_compute; discriminate|]).
  lia.
Qed.

(** Every keyword of a parameter written in full selects its own test. *)
Lemma switch_param_keyword sg k key rest :
  param_keyword k = Some key -> switch_param sg (key ++ "=" ++ rest) = k.
Proof.
  intros Hk.
  assert (E : (key ++ "=" ++ rest = (key ++ "=") ++ rest)%string).
  { clear. induction key as [|a key IH]; [reflexivity|].
    change (String a key ++ "=" ++ rest)%string with (String a (key ++ "=" ++ rest)).
    by rewrite IH. }
  rewrite E. clear E.
  destruct k; try discriminate; injection Hk as <-;
    unfold switch_param; destruct sg; decide_cmp; vm_compute; reflexivity.
Qed.

(** A text that begins with a digit selects no parameter. *)
Lemma switch_param_digit sg d tail :
  (d < 10)%nat -> switch_param sg (String (digit d) tail) = KNone.
Proof.
  intros H. unfold switch_param.
  rewrite !sa_strcmp_first by (apply digit_not_letter; [exact H | simpl; tauto]).
  reflexivity.
Qed.

(** X23: a line that names a switch by its ID written with one digit (0 to
    9) or with two digits and no leading zero (10 to 99), followed by the
    keyword of a parameter, selects that switch, the offsets of that
    number of digits, and that parameter. *)
Theorem switch_branch_canonical (char_signed : bool) (k : Param) (key rest : string) :
  param_keyword k = Some key ->
  (forall d : nat, (d < 10)%nat ->
     switch_branch char_signed ("Switch" ++ String (digit d) (key ++ "=" ++ rest))
       = Some (d, 1%nat, k)) /\
  (forall d1 d2 : nat, (1 <= d1 < 10)%nat -> (d2 < 10)%nat ->
     switch_branch char_signed
       ("Switch" ++ String (digit d1) (String (digit d2) (key ++ "=" ++ rest)))
       = Some ((d1 * 10 + d2)%nat, 2%nat, k)).
Proof.
  intros Hk. split.
  - intros d Hd. unfold switch_branch.
    change (char_at ("Switch" ++ String (digit d) (key ++ "=" ++ rest)) 6) with (digit d).
    assert (Hc : is_digit (char_at ("Switch" ++ String (digit d) (key ++ "=" ++ rest)) 7)
                 = false).
    { destruct k; try discriminate; injection Hk as <-; reflexivity. }
    rewrite (switch_id_one d _ Hd Hc).
    replace (9 <? d)%nat with false by (symmetry; apply Nat.ltb_ge; lia).
    change (str_from (6 + 1) ("Switch" ++ String (digit d) (key ++ "=" ++ rest)))
      with (key ++ "=" ++ rest)%string.
    by rewrite (switch_param_keyword char_signed k key rest Hk).
  - intros d1 d2 Hd1 Hd2. unfold switch_branch.
    change (char_at ("Switch" ++ String (digit d1) (String (digit d2) (key ++ "=" ++ rest))) 6)
      with (digit d1).
    change (char_at ("Switch" ++ String (digit d1) (String (digit d2) (key ++ "=" ++ rest))) 7)
      with (digit d2).
    rewrite (switch_id_two d1 d2) by lia.
    replace (9 <? d1 * 10 + d2)%nat with true by (symmetry; apply Nat.ltb_lt; lia).
    change (str_from (6 + 2)
              ("Switch" ++ String (digit d1) (String (digit d2) (key ++ "=" ++ rest))))
      with (key ++ "=" ++ rest)%string.
    by rewrite (switch_param_keyword char_signed k key rest Hk).
Qed.

Lemma switch_branch_canonical_witness :
  switch_branch false "Switch0Pin=14" = Some (0%nat, 1%nat, KPin) /\
  switch_branch false "Switch12Off=mail restored" = Some (12%nat, 2%nat, KOff).
Proof.
  split.
  - apply (proj1 (switch_branch_canonical false KPin "Pin" "14" eq_refl) 0%nat). lia.
  - apply (proj2 (switch_branch_canonical false KOff "Off" "mail restored" eq_refl)
             1%nat 2%nat); lia.
Defined.

(** X24: an ID written with a leading zero, as in [Switch05Pin=17], is read
    as the one-digit ID it ends with, and the text after the first digit,
    which begins with the second digit, matches no parameter: the line
    sets nothing, whatever follows. *)
Theorem switch_branch_leading_zero (char_signed : bool) (d : nat) (tail : string) :
  (d < 10)%nat ->
  switch_branch char_signed ("Switch0" ++ String (digit d) tail) = Some (d, 1%nat, KNone).
Proof.
  intros Hd. unfold switch_branch.
  change (char_at ("Switch0" ++ String (digit d) tail) 6) with (digit 0).
  change (char_at ("Switch0" ++ String (digit d) tail) 7) with (digit d).
  rewrite (switch_id_two 0 d) by lia. change (0 * 10 + d)%nat with d.
  replace (9 <? d)%nat with false by (symmetry; apply Nat.ltb_ge; lia).
  change (str_from (6 + 1) ("Switch0" ++ String (digit d) tail))
    with (String (digit d) tail).
  by rewrite (switch_param_digit char_signed d tail Hd).
Qed.

Lemma switch_branch_leading_zero_witness :
  switch_branch true "Switch05Pin=17" = Some (5%nat, 1%nat, KNone).
Proof.
  apply (switch_branch_leading_zero true 5 "Pin=17"). lia.
Defined.
(** ** The command of a switch *)

Lemma last_space (ws : list ascii) :
  Forall (fun c => is_space c = true) ws -> ws <> [] -> is_space (List.last ws NUL) = true.
Proof.
  intros H Hne. destruct (exists_last Hne) as (l & x & ->).
  rewrite List.last_last. apply Forall_app in H as [_ H].
  by apply (proj1 (Forall_singleton _ x)) in H.
Qed.

(** The buffer after the three calls of [trim] of a branch, for a line
    that begins with its key: the key, the separator and the value, with
    no whitespace between them, and the value may be empty. *)
Lemma trims_buffer (key ws1 : list ascii) (sep : ascii) (ws2 v t junk : list ascii) :
  key <> [] -> is_space (hd NUL key) = false -> Forall (fun c => c <> NUL) key ->
  Forall (fun c => is_space c = true) ws1 ->
  is_space sep = false -> sep <> NUL ->
  Forall (fun c => is_space c = true) ws2 ->
  Forall (fun c => c <> NUL) v ->
  is_space (hd NUL v) = false -> is_space (List.last (sep :: ws2 ++ v) NUL) = false ->
  Forall (fun c => is_space c = true) t ->
  exists tl,
    trim_at (S (length key))
      (trim_at (length key) (trim (key ++ ws1 ++ sep :: ws2 ++ v ++ t ++ NUL :: junk)))
      = key ++ sep :: v ++ NUL :: tl.
Proof.
  intros Hkey Hk0 Hkey0 Hws1 Hsep Hsep0 Hws2 Hv0 Hvh Hlast Ht.
  assert (Hval : Forall (fun c => c <> NUL) (sep :: ws2 ++ v)).
  { apply Forall_cons. split; [exact Hsep0|]. apply Forall_app.
    split; [by apply spaces_not_NUL | exact Hv0]. }
  (* trim(cline) *)
  assert (E1 : exists tl,
    trim (key ++ ws1 ++ sep :: ws2 ++ v ++ t ++ NUL :: junk)
      = key ++ ws1 ++ sep :: ws2 ++ v ++ NUL :: tl).
  { destruct (trim_buf_strip (key ++ ws1 ++ sep :: ws2 ++ v) t junk) as [tl E].
    - rewrite !length_app. cbn [length]. destruct key; [contradiction|]. cbn [length]. lia.
    - apply Forall_app. split; [exact Hkey0|]. apply Forall_app.
      split; [by apply spaces_not_NUL | exact Hval].
    - by rewrite hd_app_ne.
    - by rewrite app_assoc, last_app_ne.
    - exact Ht.
    - exists tl. norm_app_in E. exact E. }
  destruct E1 as [tl1 ->].
  (* trim(cline+n) *)
  rewrite trim_at_app by reflexivity.
  assert (E2 : exists tl,
    trim (ws1 ++ sep :: ws2 ++ v ++ NUL :: tl1) = sep :: ws2 ++ v ++ NUL :: tl).
  { destruct (trim_buf_clean ws1 (sep :: ws2 ++ v) tl1) as [tl E];
      [exact Hws1 | discriminate | exact Hval | exact Hsep | exact Hlast|].
    exists tl. norm_app_in E. exact E. }
  destruct E2 as [tl2 ->].
  (* trim(cline+n+1) *)
  assert (R : key ++ sep :: ws2 ++ v ++ NUL :: tl2
              = (key ++ [sep]) ++ ws2 ++ v ++ NUL :: tl2) by (by norm_app).
  rewrite R.
  rewrite trim_at_app by (rewrite length_app; cbn [length]; lia).
  assert (E3 : exists tl, trim (ws2 ++ v ++ NUL :: tl2) = v ++ NUL :: tl).
  { destruct v as [|v0 v'].
    - destruct ws2 as [|w ws2]; [by exists tl2|]. exfalso.
      rewrite app_nil_r in Hlast.
      change (sep :: w :: ws2) with ([sep] ++ w :: ws2) in Hlast.
      rewrite last_app_ne in Hlast by discriminate.
      rewrite (last_space (w :: ws2) Hws2) in Hlast by discriminate. discriminate.
    - apply trim_buf_clean; [exact Hws2 | discriminate | exact Hv0 | exact Hvh|].
      change (sep :: ws2 ++ v0 :: v') with ((sep :: ws2) ++ v0 :: v') in Hlast.
      by rewrite last_app_ne in Hlast. }
  destruct E3 as [tl3 ->]. exists tl3. by norm_app.
Qed.

(** The text a branch finds at an offset inside the key and at the
    operand. *)
Lemma text_at_key (key ws1 : list ascii) (sep : ascii) (ws2 v t junk : list ascii) off :
  key <> [] -> is_space (hd NUL key) = false -> Forall (fun c => c <> NUL) key ->
  Forall (fun c => is_space c = true) ws1 ->
  is_space sep = false -> sep <> NUL ->
  Forall (fun c => is_space c = true) ws2 ->
  Forall (fun c => c <> NUL) v ->
  is_space (hd NUL v) = false -> is_space (List.last (sep :: ws2 ++ v) NUL) = false ->
  Forall (fun c => is_space c = true) t ->
  let buf := key ++ ws1 ++ sep :: ws2 ++ v ++ t ++ NUL :: junk in
  text_at (S (length key)) (length key) buf = v /\
  ((off <= length key)%nat ->
   text_at off (length key) buf = drop off key ++ sep :: v).
Proof.
  intros Hkey Hk0 Hkey0 Hws1 Hsep Hsep0 Hws2 Hv0 Hvh Hlast Ht. cbv zeta.
  destruct (trims_buffer key ws1 sep ws2 v t junk) as [tl E]; try assumption.
  unfold text_at. rewrite E. split.
  - assert (R : key ++ sep :: v ++ NUL :: tl = (key ++ [sep]) ++ v ++ NUL :: tl)
      by (by norm_app).
    rewrite R, drop_app_length' by (rewrite length_app; cbn [length]; lia).
    by apply cstr_text.
  - intros Hoff. rewrite drop_app_le by exact Hoff.
    assert (R : drop off key ++ sep :: v ++ NUL :: tl
                = (drop off key ++ sep :: v) ++ NUL :: tl) by (by norm_app).
    rewrite R. apply cstr_text. apply Forall_app. split.
    + by apply Forall_drop.
    + apply Forall_cons. by split.
Qed.

(** X25: for a switch whose ID is written with its one or two digits, the
    [On] and [Off] branches install the value of the line, but the text
    they test for emptiness and against the installed command starts
    earlier: at the separator for one digit, at the last letter of the
    keyword for two. That text is never empty, so a line with an empty
    value is not skipped, and it differs from the value, so a command
    that has not changed is installed again. *)
Theorem switch_command_texts (id ws1 : list ascii) (sep : ascii) (ws2 v t junk : list ascii) :
  length id = 1%nat \/ length id = 2%nat ->
  Forall (fun c => c <> NUL) id ->
  Forall (fun c => is_space c = true) ws1 ->
  is_space sep = false -> sep <> NUL ->
  Forall (fun c => is_space c = true) ws2 ->
  Forall (fun c => c <> NUL) v ->
  is_space (hd NUL v) = false -> is_space (List.last (sep :: ws2 ++ v) NUL) = false ->
  Forall (fun c => is_space c = true) t ->
  let on_line :=
    (list_ascii_of_string "Switch" ++ id ++ list_ascii_of_string "On")
      ++ ws1 ++ sep :: ws2 ++ v ++ t ++ NUL :: junk in
  let off_line :=
    (list_ascii_of_string "Switch" ++ id ++ list_ascii_of_string "Off")
      ++ ws1 ++ sep :: ws2 ++ v ++ t ++ NUL :: junk in
  on_value (length id) on_line = v /\
  on_check (length id) on_line
    = (if (length id =? 1)%nat then [] else ["n"%char]) ++ sep :: v /\
  off_value (length id) off_line = v /\
  off_check (length id) off_line
    = (if (length id =? 1)%nat then [] else ["f"%char]) ++ sep :: v.
Proof.
  intros Hid Hid0 Hws1 Hsep Hsep0 Hws2 Hv0 Hvh Hlast Ht. cbv zeta.
  assert (Hon : Forall (fun c => c <> NUL)
                  (list_ascii_of_string "Switch" ++ id ++ list_ascii_of_string "On")).
  { apply Forall_app. split; [repeat constructor; discriminate|].
    apply Forall_app. split; [exact Hid0 | repeat constructor; discriminate]. }
  assert (Hoff : Forall (fun c => c <> NUL)
                   (list_ascii_of_string "Switch" ++ id ++ list_ascii_of_string "Off")).
  { apply Forall_app. split; [repeat constructor; discriminate|].
    apply Forall_app. split; [exact Hid0 | repeat constructor; discriminate]. }
  destruct (text_at_key (list_ascii_of_string "Switch" ++ id ++ list_ascii_of_string "On")
              ws1 sep ws2 v t junk 9) as [On1 On2]; try assumption;
    [discriminate | reflexivity|].
  destruct (text_at_key (list_ascii_of_string "Switch" ++ id ++ list_ascii_of_string "Off")
              ws1 sep ws2 v t junk 10) as [Off1 Off2]; try assumption;
    [discriminate | reflexivity|].
  cbv zeta in On1, On2, Off1, Off2.
  assert (Lon : length (list_ascii_of_string "Switch" ++ id ++ list_ascii_of_string "On")
                = (8 + length id)%nat).
  { rewrite !length_app. cbn [length list_ascii_of_string]. lia. }
  assert (Loff : length (list_ascii_of_string "Switch" ++ id ++ list_ascii_of_string "Off")
                 = (9 + length id)%nat).
  { rewrite !length_app. cbn [length list_ascii_of_string]. lia. }
  rewrite Lon in On1, On2. rewrite Loff in Off1, Off2.
  unfold on_value, on_check, off_value, off_check.
  split; [exact On1|]. split; [|split; [exact Off1|]].
  - rewrite On2 by lia. f_equal.
    destruct Hid as [H|H]; rewrite H;
      destruct id as [|a [|b [|c id]]]; try discriminate; reflexivity.
  - rewrite Off2 by lia. f_equal.
    destruct Hid as [H|H]; rewrite H;
      destruct id as [|a [|b [|c id]]]; try discriminate; reflexivity.
Qed.

Lemma switch_command_texts_witness :
  on_value 1 (list_ascii_of_string "Switch1On=" ++ [NUL]) = [] /\
  on_check 1 (list_ascii_of_string "Switch1On=" ++ [NUL]) = ["="%char] /\
  off_value 2 (list_ascii_of_string "Switch12Off = mail" ++ ["010"%char; NUL])
    = list_ascii_of_string "mail" /\
  off_check 2 (list_ascii_of_string "Switch12Off = mail" ++ ["010"%char; NUL])
    = list_ascii_of_string "f=mail".
Proof.
  destruct (switch_command_texts ["1"%char] [] "=" [] [] [] [])
    as (H1 & H2 & _).
  { by left. }
  { repeat constructor; discriminate. }
  { constructor. }
  { reflexivity. }
  { discriminate. }
  { constructor. }
  { constructor. }
  { reflexivity. }
  { reflexivity. }
  { constructor. }
  destruct (switch_command_texts (list_ascii_of_string "12") (list_ascii_of_string " ") "="
              (list_ascii_of_string " ") (list_ascii_of_string "mail") ["010"%char] [])
    as (_ & _ & H3 & H4).
  { by right. }
  { repeat constructor; discriminate. }
  { repeat constructor. }
  { reflexivity. }
  { discriminate. }
  { repeat constructor. }
  { repeat constructor; discriminate. }
  { reflexivity. }
  { reflexivity. }
  { repeat constructor. }
  split; [exact H1|]. split; [exact H2|]. split; [exact H3 | exact H4].
Defined.
